(** * codeSpectra corpus: the algorithm snippets and their clone structure

    The repository is a corpus of small C++ solutions (binary search,
    two-sum, maximum subarray, sorting, linked-list reversal), many of them
    clones of one another.  This file embeds the snippets the specification
    talks about and proves, or refutes, what the specification says about
    them.

    Conventions of the embedding.
    - [int] is a 32-bit two's-complement integer: a [Z] in
      [INT_MIN .. INT_MAX]; every [int] operation of the source is followed
      by [wrap32] (C++ leaves signed overflow undefined; the model wraps, as
      the machine does).  [size_t] is a 64-bit unsigned integer.  The
      maximum-subarray functions, which the specification compares "under
      exact integer arithmetic", are written over an [IntModel] that is
      either [machine] or [exact].
    - [std::vector<int>] is a [list Z]; [v[i]] is [vec_at v i], which is
      [None] outside [0 .. size-1] (C++ leaves that access undefined).
    - A function that loops or indexes returns an [outcome]: its value, the
      fault it ran into (an access out of bounds, a bad pointer), or
      [OutOfFuel] when the iteration budget of the model ran out.  Fuel
      counts loop tests only.
    - The clone structure is a matter of text: the binary-search files are
      kept as strings, cut into tokens, and the lines of three of them are
      also kept as syntax, with a printer back to tokens and an interpreter
      of the statements they parse to.

    The definitions come first, the lemmas and theorems after them. *)

From Stdlib Require Import ZArith List Lia Bool String Ascii Permutation Sorted.
From stdpp Require Import base option list gmap strings pretty.
From stdpp Require sorting.
Import ListNotations.
Local Open Scope Z_scope.

(* ================================================================== *)
(** * Machine integers, vectors, outcomes *)
(* ================================================================== *)

Definition INT_MIN : Z := -2147483648.
Definition INT_MAX : Z := 2147483647.

(** Conversion to [int]: reduction modulo 2^32 into [INT_MIN .. INT_MAX]. *)
Definition wrap32 (z : Z) : Z := (z + 2147483648) mod 4294967296 - 2147483648.

(** Conversion to [size_t]: reduction modulo 2^64. *)
Definition wrap64u (z : Z) : Z := z mod 18446744073709551616.

Definition add32 (a b : Z) : Z := wrap32 (a + b).
Definition sub32 (a b : Z) : Z := wrap32 (a - b).
(** [a / b] on [int]: C++ truncates toward zero. *)
Definition div32 (a b : Z) : Z := wrap32 (Z.quot a b).

Definition in_int (z : Z) : Prop := INT_MIN <= z <= INT_MAX.

(** What C++ leaves undefined and the model traps on. *)
Inductive fault : Type :=
| OutOfBounds (i : Z)      (* [v[i]] outside the vector or array *)
| BadPointer (a : nat)     (* [p->f] through a pointer to no node *)
| Undeclared (x : string)  (* a name that is not in scope *)
| NoReturn                 (* control reaches the end of an [int] function *)
| IllFormed.               (* the text is not a C++ function *)

Inductive outcome (A : Type) : Type :=
| Ret (a : A)
| Fault (f : fault)
| OutOfFuel.
Arguments Ret {A} a.
Arguments Fault {A} f.
Arguments OutOfFuel {A}.

(** [v.size()] *)
Definition vsize (v : list Z) : Z := Z.of_nat (length v).

(** [v[i]] for an [int] index [i]. *)
Definition vec_at (v : list Z) (i : Z) : option Z :=
  if 0 <=? i then v !! Z.to_nat i else None.

(** [v.size() - 1] converted to [int], as in [int right = v.size() - 1]:
    the subtraction is done on [size_t], the initialisation converts. *)
Definition size_minus_1 (v : list Z) : Z := wrap32 (wrap64u (vsize v - 1)).

(* ================================================================== *)
(** * Binary search *)
(* ================================================================== *)

(** dsa_dataset/binary_search/binary_search_student002.cpp *)
Module binary_search_student002.

Fixpoint solveoom_loop (fuel : nat) (numbers : list Z) (threshold left right : Z)
  : outcome Z :=
  match fuel with
  | O => OutOfFuel
  | S fuel' =>
      if left <=? right then
        let mid := add32 left (div32 (sub32 right left) 2) in
        match vec_at numbers mid with
        | None => Fault (OutOfBounds mid)
        | Some x =>
            if x =? threshold then Ret mid
            else if x <? threshold
                 then solveoom_loop fuel' numbers threshold (add32 mid 1) right
                 else solveoom_loop fuel' numbers threshold left (sub32 mid 1)
        end
      else Ret (-1)
  end.

Definition solveoom (fuel : nat) (numbers : list Z) (threshold : Z) : outcome Z :=
  solveoom_loop fuel numbers threshold 0 (size_minus_1 numbers).

End binary_search_student002.

(** codespectra/dsa_dataset/binary_search_variant.cpp *)
Module binary_search_variant.

Fixpoint searchBinary_loop (fuel : nat) (nums : list Z) (value start end_ : Z)
  : outcome Z :=
  match fuel with
  | O => OutOfFuel
  | S fuel' =>
      if start <=? end_ then
        let middle := div32 (add32 start end_) 2 in
        match vec_at nums middle with
        | None => Fault (OutOfBounds middle)
        | Some x =>
            if x =? value then Ret middle
            else if x <? value
                 then searchBinary_loop fuel' nums value (add32 middle 1) end_
                 else searchBinary_loop fuel' nums value start (sub32 middle 1)
        end
      else Ret (-1)
  end.

Definition searchBinary (fuel : nat) (nums : list Z) (value : Z) : outcome Z :=
  searchBinary_loop fuel nums value 0 (size_minus_1 nums).

End binary_search_variant.

Import binary_search_student002 binary_search_variant.

(* ================================================================== *)
(** * Control flow shared by the snippets *)
(* ================================================================== *)

Definition outcome_bind {A B} (m : outcome A) (k : A -> outcome B) : outcome B :=
  match m with
  | Ret a => k a
  | Fault f => Fault f
  | OutOfFuel => OutOfFuel
  end.

Notation "'let*' x ':=' m 'in' k" := (outcome_bind m (fun x => k))
  (at level 10, x name, m at level 100, k at level 200).

(** A checked read [v[i]]. *)
Definition read (v : list Z) (i : Z) : outcome Z :=
  match vec_at v i with
  | Some x => Ret x
  | None => Fault (OutOfBounds i)
  end.

(** A checked write [v[i] = x]. *)
Definition write (v : list Z) (i x : Z) : outcome (list Z) :=
  match vec_at v i with
  | Some _ => Ret (<[Z.to_nat i := x]> v)
  | None => Fault (OutOfBounds i)
  end.

(** How a loop body ends: it falls through to the next iteration with the
    state [s], or the function returns [r] from inside the loop. *)
Inductive ctl (S R : Type) : Type :=
| Continue (s : S)
| Return (r : R).
Arguments Continue {S R} s.
Arguments Return {S R} r.

(** [for (int i = i0; cond(i); i = step(i)) body]. *)
Fixpoint for_loop {S R : Type} (fuel : nat) (cond : Z -> bool) (step : Z -> Z)
    (body : Z -> S -> outcome (ctl S R)) (i : Z) (s : S) : outcome (ctl S R) :=
  match fuel with
  | O => OutOfFuel
  | Datatypes.S fuel' =>
      if cond i then
        match body i s with
        | Ret (Continue s') => for_loop fuel' cond step body (step i) s'
        | Ret (Return r) => Ret (Return r)
        | Fault f => Fault f
        | OutOfFuel => OutOfFuel
        end
      else Ret (Continue s)
  end.

(** The state a loop without [return] leaves behind. *)
Definition fallthrough {S : Type} (m : outcome (ctl S Empty_set)) : outcome S :=
  match m with
  | Ret (Continue s) => Ret s
  | Ret (Return r) => match r with end
  | Fault f => Fault f
  | OutOfFuel => OutOfFuel
  end.

(** [i < v.size()] with [i] an [int]: the comparison converts [i] to
    [size_t]. *)
Definition lt_size (v : list Z) (i : Z) : bool := wrap64u i <? vsize v.

(** [i++] on an [int]. *)
Definition incr (i : Z) : Z := add32 i 1.

(* ================================================================== *)
(** * Two-sum *)
(* ================================================================== *)

(** dsa_dataset/two_sum/two_sum_student001.cpp *)
Module two_sum_student001.

Definition solvedps (fuel : nat) (nums : list Z) (sum_val : Z) : outcome (list Z) :=
  let* c :=
    for_loop fuel (lt_size nums) incr
      (fun i (_ : unit) =>
         for_loop fuel (lt_size nums) incr
           (fun b (_ : unit) =>
              let* x := read nums i in
              let* y := read nums b in
              if add32 x y =? sum_val then Ret (Return [i; b])
              else Ret (Continue tt))
           (add32 i 1) tt)
      0 tt in
  match c with
  | Return r => Ret r
  | Continue _ => Ret []
  end.

End two_sum_student001.

(* ================================================================== *)
(** * Maximum subarray *)
(* ================================================================== *)

(** The specification compares these functions "under exact integer
    arithmetic", the code computes on [int]: the functions are written once
    over the arithmetic, which is either [machine] or [exact]. *)
Class IntModel : Type := {
  to_int : Z -> Z;        (* the value an [int] holds after an operation *)
  to_size_t : Z -> Z      (* conversion to [size_t] *)
}.

Definition machine : IntModel := {| to_int := wrap32; to_size_t := wrap64u |}.
Definition exact : IntModel := {| to_int := fun z => z; to_size_t := fun z => z |}.

Section IntOps.
Context {IM : IntModel}.

Definition iadd (a b : Z) : Z := to_int (a + b).
(** [i < v.size()] *)
Definition ilt_size (v : list Z) (i : Z) : bool := to_size_t i <? vsize v.
(** [int n = v.size()] *)
Definition isize (v : list Z) : Z := to_int (to_size_t (vsize v)).
End IntOps.

(** analysis-engine/data/uploads/batch_1769356634/max_subarray_02.cpp *)
Module max_subarray_02.
Section WithArith.
Context {IM : IntModel}.

Definition maxSubArray (fuel : nat) (nums : list Z) : outcome Z :=
  let* st :=
    fallthrough
      (for_loop fuel (ilt_size nums) (fun i => iadd i 1)
         (fun i '(sum, maxi) =>
            let* x := read nums i in
            let sum := iadd sum x in
            let maxi := Z.max sum maxi in
            let sum := if sum <? 0 then 0 else sum in
            Ret (Continue (sum, maxi)))
         0 (0, INT_MIN)) in
  Ret (snd st).
End WithArith.
End max_subarray_02.

(** analysis-engine/data/uploads/batch_1769363621/max_subarray_09.cpp *)
Module max_subarray_09.
Section WithArith.
Context {IM : IntModel}.

Definition maxSubArray (fuel : nat) (nums : list Z) : outcome Z :=
  let* st :=
    fallthrough
      (for_loop fuel (ilt_size nums) (fun i => iadd i 1)
         (fun i '(maxSum, sum) =>
            let* x := read nums i in
            let sum := if iadd sum x >=? x then iadd sum x else x in
            Ret (Continue (Z.max maxSum sum, sum)))
         0 (INT_MIN, 0)) in
  Ret (fst st).
End WithArith.
End max_subarray_09.

(** analysis-engine/data/uploads/batch_1769356634/max_subarray_12.cpp;
  [for (int x : nums)] walks the elements and indexes nothing. *)
Module max_subarray_12.
Section WithArith.
Context {IM : IntModel}.

Definition maxSubArray (nums : list Z) : outcome Z :=
  let* maxi := read nums 0 in
  Ret (snd (fold_left
              (fun '(sum, maxi) x =>
                 let sum := Z.max x (iadd sum x) in
                 (sum, Z.max maxi sum))
              nums (0, maxi))).
End WithArith.
End max_subarray_12.

(** analysis-engine/data/uploads/batch_1769356634/max_subarray_03.cpp *)
Module max_subarray_03.
Section WithArith.
Context {IM : IntModel}.

Definition maxSubArray (fuel : nat) (nums : list Z) : outcome Z :=
  let n := isize nums in
  let* maxSum := read nums 0 in
  fallthrough
    (for_loop fuel (fun i => i <? n) (fun i => iadd i 1)
       (fun i maxSum =>
          for_loop fuel (fun j => j <? n) (fun j => iadd j 1)
            (fun j maxSum =>
               let* sum :=
                 fallthrough
                   (for_loop fuel (fun k => k <=? j) (fun k => iadd k 1)
                      (fun k sum =>
                         let* x := read nums k in
                         Ret (Continue (iadd sum x)))
                      i 0) in
               Ret (Continue (Z.max maxSum sum)))
            i maxSum)
       0 maxSum).
End WithArith.
End max_subarray_03.

(** dsa_dataset/max_subarray_sum/max_subarray_sum_student005.cpp *)
Module max_subarray_sum_student005.
Section WithArith.
Context {IM : IntModel}.

Definition solvegpw (arr : list Z) : outcome Z :=
  let* max_sum := read arr 0 in
  Ret (snd (fold_left
              (fun '(curr, max_sum) num =>
                 let curr := Z.max num (iadd curr num) in
                 (curr, Z.max max_sum curr))
              arr (0, max_sum))).
End WithArith.
End max_subarray_sum_student005.

(* ================================================================== *)
(** * Sorting programs *)
(* ================================================================== *)

(** [cout << x << " "] for an [int] [x]. *)
Definition print_elem (out : string) (x : Z) : string :=
  (out +:+ pretty x +:+ " ")%string.

(** [cout << s << endl] *)
Definition print_line (out : string) (s : string) : string :=
  (out +:+ s +:+ String "010"%char EmptyString)%string.

(** [for (int i = 0; i < n; i++) cout << arr[i] << " ";] *)
Definition print_array (fuel : nat) (n : Z) (arr : list Z) (out : string)
  : outcome string :=
  fallthrough
    (for_loop fuel (fun i => i <? n) incr
       (fun i out => let* x := read arr i in Ret (Continue (print_elem out x)))
       0 out).

(** analysis-engine/data/uploads/batch_1767042089/Student_8_SelectionSort.cpp *)
Module Student_8_SelectionSort.

Definition n : Z := 5.
Definition arr : list Z := [64; 34; 25; 12; 22].

(** The selection-sort loop of [main]. *)
Definition sort_loop (fuel : nat) (arr : list Z) : outcome (list Z) :=
  fallthrough
    (for_loop fuel (fun i => i <? sub32 n 1) incr
       (fun i arr =>
          let* min_idx :=
            fallthrough
              (for_loop fuel (fun j => j <? n) incr
                 (fun j min_idx =>
                    let* a := read arr j in
                    let* b := read arr min_idx in
                    Ret (Continue (if a <? b then j else min_idx)))
                 (add32 i 1) i) in
          let* temp := read arr min_idx in
          let* x := read arr i in
          let* arr := write arr min_idx x in
          let* arr := write arr i temp in
          Ret (Continue arr))
       0 arr).

(** [main]: the array after the sort, what was printed, the exit code. *)
Definition main (fuel : nat) : outcome (list Z * string * Z) :=
  let* arr := sort_loop fuel arr in
  let* out := print_array fuel n arr EmptyString in
  Ret (arr, out, 0).

End Student_8_SelectionSort.

(** analysis-engine/data/uploads/batch_1767042351/Student_3_DebugMode.cpp *)
Module Student_3_DebugMode.

Definition n : Z := 5.
Definition arr : list Z := [64; 34; 25; 12; 22].

(** The bubble-sort loop of [main], with its trace output. *)
Definition sort_loop (fuel : nat) (arr : list Z) (out : string)
  : outcome (list Z * string) :=
  fallthrough
    (for_loop fuel (fun i => i <? sub32 n 1) incr
       (fun i '(arr, out) =>
          let out := print_line out ("Pass: " +:+ pretty i) in
          for_loop fuel (fun j => j <? sub32 (sub32 n i) 1) incr
            (fun j '(arr, out) =>
               let* a := read arr j in
               let* b := read arr (add32 j 1) in
               if a >? b then
                 let* temp := read arr j in
                 let* x := read arr (add32 j 1) in
                 let* arr := write arr j x in
                 let* arr := write arr (add32 j 1) temp in
                 Ret (Continue (arr, print_line out "Swapped!"))
               else Ret (Continue (arr, out)))
            0 (arr, out))
       0 (arr, out)).

Definition main (fuel : nat) : outcome (list Z * string * Z) :=
  let out := print_line EmptyString "Starting Sort..." in
  let* st := sort_loop fuel arr out in
  let out := (snd st +:+ "Final Sorted array: ")%string in
  let* out := print_array fuel n (fst st) out in
  Ret (fst st, out, 0).

End Student_3_DebugMode.

(* ================================================================== *)
(** * Linked-list reversal *)
(* ================================================================== *)

(** dsa_dataset/reverse_linked_list/reverse_linked_list_student004.cpp *)
Module reverse_linked_list_student004.

(** [ListNode*]: [None] is [NULL], [Some a] the node at address [a]. *)
Definition ptr : Type := option nat.

Record ListNode : Type := { val : Z; next : ptr }.

Abbreviation heap := (gmap nat ListNode).

Fixpoint solvejxa_loop (fuel : nat) (h : heap) (head prev : ptr)
  : outcome (heap * ptr) :=
  match fuel with
  | O => OutOfFuel
  | S fuel' =>
      match head with
      | None => Ret (h, prev)
      | Some a =>
          match h !! a with
          | None => Fault (BadPointer a)
          | Some node =>
              let next_node := next node in
              let h := <[a := {| val := val node; next := prev |}]> h in
              solvejxa_loop fuel' h next_node (Some a)
          end
      end
  end.

Definition solvejxa (fuel : nat) (h : heap) (head : ptr) : outcome (heap * ptr) :=
  solvejxa_loop fuel h head None.

(** The heap [h] holds at [p] a null-terminated list with the values [vs]. *)
Fixpoint is_list (h : heap) (p : ptr) (vs : list Z) : Prop :=
  match vs with
  | [] => p = None
  | v :: vs' =>
      exists a nx, p = Some a /\ h !! a = Some {| val := v; next := nx |} /\
                   is_list h nx vs'
  end.

(** The same, with the addresses of the nodes in list order. *)
Fixpoint chain (h : heap) (p : ptr) (addrs : list nat) (vs : list Z) : Prop :=
  match addrs, vs with
  | [], [] => p = None
  | a :: addrs', v :: vs' =>
      p = Some a /\
      exists nx, h !! a = Some {| val := v; next := nx |} /\ chain h nx addrs' vs'
  | _, _ => False
  end.

End reverse_linked_list_student004.

(* ================================================================== *)
(** * Specifications *)
(* ================================================================== *)

(** The answer of a binary search for [target] in [v]: a position of
    [target] when it occurs, -1 when it does not. *)
Definition found_or_absent (v : list Z) (target r : Z) : Prop :=
  (In target v -> 0 <= r /\ vec_at v r = Some target) /\
  (~ In target v -> r = -1).

(** [2^30 + 1] zeros and [2^31] zeros: vectors a 64-bit machine can hold,
    written so that their length is never unfolded into unary. *)
Definition zeros (n : Z) : list Z := replicate (Z.to_nat n) 0.

(** [m] returns, and its value satisfies [Q]: no fault, fuel left. *)
Definition returns {A : Type} (m : outcome A) (Q : A -> Prop) : Prop :=
  match m with
  | Ret a => Q a
  | _ => False
  end.

(** A loop ends in a state satisfying [I], or returns a value satisfying
    [D]. *)
Definition ctl_post {S R : Type} (I : S -> Prop) (D : R -> Prop) (c : ctl S R) : Prop :=
  match c with
  | Continue s => I s
  | Return r => D r
  end.

(** [i < j < m] are positions of two elements of [nums] whose [int] sum is
    [sum_val]. *)
Definition is_pair (m : Z) (nums : list Z) (sum_val i j : Z) : Prop :=
  0 <= i /\ i < j /\ j < m /\
  exists x y, vec_at nums i = Some x /\ vec_at nums j = Some y /\ add32 x y = sum_val.

(** Two distinct positions below [m], in either order. *)
Definition has_pair (m : Z) (nums : list Z) (sum_val : Z) : Prop :=
  exists i j x y, i <> j /\ 0 <= i < m /\ 0 <= j < m /\
    vec_at nums i = Some x /\ vec_at nums j = Some y /\ add32 x y = sum_val.

Definition lex_le (i j i' j' : Z) : Prop := i < i' \/ (i = i' /\ j <= j').

(** What [solvedps] computes over the positions below [m]. *)
Definition two_sum_result (m : Z) (nums : list Z) (sum_val : Z) (r : list Z) : Prop :=
  (exists i j, r = [i; j] /\ is_pair m nums sum_val i j /\
               forall i' j', is_pair m nums sum_val i' j' -> lex_le i j i' j') \/
  (r = [] /\ ~ has_pair m nums sum_val).

(** 2^31 + 1 elements: 1, 2, 3, then zeros, then 4 at position 2^31. *)
Definition long_vector : list Z := [1; 2; 3] ++ zeros 2147483645 ++ [4].

(** The answer of two-sum over the positions below [m]: the
    lexicographically least pair when there is one, the empty vector exactly
    when there is none. *)
Definition two_sum_answer (m : Z) (nums : list Z) (sum_val : Z) (r : list Z) : Prop :=
  (has_pair m nums sum_val ->
   exists i j, r = [i; j] /\ is_pair m nums sum_val i j /\
               forall i' j', is_pair m nums sum_val i' j' -> lex_le i j i' j') /\
  (r = [] <-> ~ has_pair m nums sum_val).

(** The sum of the elements of [l]. *)
Definition list_sum (l : list Z) : Z := foldr Z.add 0 l.

(** The sum of [nums[i] .. nums[j]], both ends included. *)
Definition subarray_sum (nums : list Z) (i j : nat) : Z :=
  list_sum (take (S j - i) (drop i nums)).

(** [m] is the largest sum of a non-empty contiguous subarray of [nums]. *)
Definition is_max_subarray_sum (nums : list Z) (m : Z) : Prop :=
  (exists i j, (i <= j < length nums)%nat /\ m = subarray_sum nums i j) /\
  (forall i j, (i <= j < length nums)%nat -> subarray_sum nums i j <= m).

(** The sum of the first [k] elements. *)
Definition prefix_sum (nums : list Z) (k : Z) : Z := list_sum (take (Z.to_nat k) nums).

(** A vector to run the maximum-subarray functions on. *)
Definition sample_vector : list Z := [-2; 1; -3; 4; -1; 2; 1; -5; 4].

(* ================================================================== *)
(** * The binary-search corpus as text *)
(* ================================================================== *)

(** Lines 6 to 15 (the function) of every file of
    dsa_dataset/binary_search, character for character. *)

Definition binary_search_student001_clone2_cpp : string :=
"int solven_clonewgr(vector<int>& vecb, int goalb) {
    int left = 0, right = vecb.size() - 1;
    while (left <= right) {
        int mid = left + (right - left) / 2;
        if (vecb[mid] == goalb) return mid;
        if (vecb[mid] < goalb) left = mid + 1;
        else right = mid - 1;
    }
    return -1;
}
"%string.

Definition binary_search_student002_cpp : string :=
"int solveoom(vector<int>& numbers, int threshold) {
    int left = 0, right = numbers.size() - 1;
    while (left <= right) {
        int mid = left + (right - left) / 2;
        if (numbers[mid] == threshold) return mid;
        if (numbers[mid] < threshold) left = mid + 1;
        else right = mid - 1;
    }
    return -1;
}
"%string.

Definition binary_search_student002_clone1_cpp : string :=
"int solveoom_cloneo(vector<int>& numbersa, int thresholda) {
    int left = 0, right = numbersa.size() - 1;
    while (left <= right) {
        int mid = left + (right - left) / 2;
        if (numbersa[mid] == thresholda) return mid;
        if (numbersa[mid] < thresholda) left = mid + 1;
        else right = mid - 1;
    }
    return -1;
}
"%string.

Definition binary_search_student003_clone2_cpp : string :=
"int solvezx_clonejp(vector<int>& datasetb, int sum_valb) {
    int left = 0, right = datasetb.size() - 1;
    while (left <= right) {
        int mid = left + (right - left) / 2;
        if (datasetb[mid] == sum_valb) return mid;
        if (datasetb[mid] < sum_valb) left = mid + 1;
        else right = mid - 1;
    }
    return -1;
}
"%string.

Definition binary_search_student004_clone2_cpp : string :=
"int solvefh_cloneper(vector<int>& listb, int goalb) {
    int left = 0, right = listb.size() - 1;
    while (left <= right) {
        int mid = left + (right - left) / 2;
        if (listb[mid] == goalb) return mid;
        if (listb[mid] < goalb) left = mid + 1;
        else right = mid - 1;
    }
    return -1;
}
"%string.

Definition binary_search_student007_cpp : string :=
"int solveuv(vector<int>& nums, int dest) {
    int left = 0, right = nums.size() - 1;
    while (left <= right) {
        int mid = left + (right - left) / 2;
        if (nums[mid] == dest) return mid;
        if (nums[mid] < dest) left = mid + 1;
        else right = mid - 1;
    }
    return -1;
}
"%string.

Definition binary_search_student008_cpp : string :=
"int solvec(vector<int>& vec, int sum_val) {
    int left = 0, right = vec.size() - 1;
    while (left <= right) {
        int mid = left + (right - left) / 2;
        if (vec[mid] == sum_val) return mid;
        if (vec[mid] < sum_val) left = mid + 1;
        else right = mid - 1;
    }
    return -1;
}
"%string.

Definition binary_search_student008_clone1_cpp : string :=
"int solvec_cloneabx(vector<int>& veca, int sum_vala) {
    int left = 0, right = veca.size() - 1;
    while (left <= right) {
        int mid = left + (right - left) / 2;
        if (veca[mid] == sum_vala) return mid;
        if (veca[mid] < sum_vala) left = mid + 1;
        else right = mid - 1;
    }
    return -1;
}
"%string.

Definition binary_search_student009_clone3_cpp : string :=
"int solveb_clonesj(vector<int>& numsc, int thresholdc) {
    int left = 0, right = numsc.size() - 1;
    while (left <= right) {
        int mid = left + (right - left) / 2;
        if (numsc[mid] == thresholdc) return mid;
        if (numsc[mid] < thresholdc) left = mid + 1;
        else right = mid - 1;
    }
    return -1;
}
"%string.

Definition binary_search_student010_clone1_cpp : string :=
"int solves_clonepta(vector<int>& arra, int thresholda) {
    int left = 0, right = arra.size() - 1;
    while (left <= right) {
        int mid = left + (right - left) / 2;
        if (arra[mid] == thresholda) return mid;
        if (arra[mid] < thresholda) left = mid + 1;
        else right = mid - 1;
    }
    return -1;
}
"%string.

Definition binary_search_student011_cpp : string :=
"int solves(vector<int>& vec, int threshold) {
    int left = 0, right = vec.size() - 1;
    while (left <= right) {
        int mid = left + (right - left) / 2;
        if (vec[mid] == threshold) return mid;
        if (vec[mid] < threshold) left = mid + 1;
        else right = mid - 1;
    }
    return -1;
}
"%string.

Definition binary_search_student011_clone2_cpp : string :=
"int solves_cloneqyq(vector<int>& vecb, int thresholdb) {
    int left = 0, right = vecb.size() - 1;
    while (left <= right) {
        int mid = left + (right - left) / 2;
        if (vecb[mid] == thresholdb) return mid;
        if (vecb[mid] < thresholdb) left = mid + 1;
        else right = mid - 1;
    }
    return -1;
}
"%string.

Definition binary_search_student012_clone2_cpp : string :=
"int solvefae_cloneli(vector<int>& arrb, int thresholdb) {
    int left = 0, right = arrb.size() - 1;
    while (left <= right) {
        int mid = left + (right - left) / 2;
        if (arrb[mid] == thresholdb) return mid;
        if (arrb[mid] < thresholdb) left = mid + 1;
        else right = mid - 1;
    }
    return -1;
}
"%string.

Definition binary_search_student012_clone3_cpp : string :=
"int solvefae_clonel(vector<int>& arrc, int thresholdc) {
    int left = 0, right = arrc.size() - 1;
    while (left <= right) {
        int mid = left + (right - left) / 2;
        if (arrc[mid] == thresholdc) return mid;
        if (arrc[mid] < thresholdc) left = mid + 1;
        else right = mid - 1;
    }
    return -1;
}
"%string.

Definition binary_search_student014_cpp : string :=
"int solvec(vector<int>& numbers, int goal) {
    int left = 0, right = numbers.size() - 1;
    while (left <= right) {
        int mid = left + (right - left) / 2;
        if (numbers[mid] == goal) return mid;
        if (numbers[mid] < goal) left = mid + 1;
        else right = mid - 1;
    }
    return -1;
}
"%string.

Definition binary_search_student015_clone2_cpp : string :=
"int solvejd_cloneib(vector<int>& vecb, int goalb) {
    int left = 0, right = vecb.size() - 1;
        if (vecb[mid] == goalb) return mid;
        int mid = left + (right - left) / 2;
    while (left <= right) {
        if (vecb[mid] < goalb) left = mid + 1;
        else right = mid - 1;
    }
    return -1;
}
"%string.

Definition binary_search_student016_cpp : string :=
"int solvej(vector<int>& numbers, int sum_val) {
    int left = 0, right = numbers.size() - 1;
    while (left <= right) {
        int mid = left + (right - left) / 2;
        if (numbers[mid] == sum_val) return mid;
        if (numbers[mid] < sum_val) left = mid + 1;
        else right = mid - 1;
    }
    return -1;
}
"%string.

Definition binary_search_student016_clone2_cpp : string :=
"int solvej_clonehov(vector<int>& numbersb, int sum_valb) {
    int left = 0, right = numbersb.size() - 1;
    while (left <= right) {
        int mid = left + (right - left) / 2;
        if (numbersb[mid] == sum_valb) return mid;
        if (numbersb[mid] < sum_valb) left = mid + 1;
        else right = mid - 1;
    }
    return -1;
}
"%string.

Definition binary_search_student016_clone3_cpp : string :=
"int solvej_clonea(vector<int>& numbersc, int sum_valc) {
    int left = 0, right = numbersc.size() - 1;
    while (left <= right) {
        int mid = left + (right - left) / 2;
        if (numbersc[mid] == sum_valc) return mid;
        if (numbersc[mid] < sum_valc) left = mid + 1;
        else right = mid - 1;
    }
    return -1;
}
"%string.

Definition binary_search_student018_cpp : string :=
"int solvekqv(vector<int>& vec, int target) {
    int left = 0, right = vec.size() - 1;
    while (left <= right) {
        int mid = left + (right - left) / 2;
        if (vec[mid] == target) return mid;
        if (vec[mid] < target) left = mid + 1;
        else right = mid - 1;
    }
    return -1;
}
"%string.

Definition binary_search_student018_clone1_cpp : string :=
"int solvekqv_clonep(vector<int>& veca, int targeta) {
    int left = 0, right = veca.size() - 1;
    while (left <= right) {
        int mid = left + (right - left) / 2;
        if (veca[mid] == targeta) return mid;
        if (veca[mid] < targeta) left = mid + 1;
        else right = mid - 1;
    }
    return -1;
}
"%string.

Definition binary_search_student020_clone1_cpp : string :=
"int solveqt_clonee(vector<int>& lista, int targeta) {
    int left = 0, right = lista.size() - 1;
    while (left <= right) {
        int mid = left + (right - left) / 2;
        if (lista[mid] == targeta) return mid;
        if (lista[mid] < targeta) left = mid + 1;
        else right = mid - 1;
    }
    return -1;
}
"%string.

Definition binary_search_student020_clone3_cpp : string :=
"int solveqt_cloneipk(vector<int>& listc, int targetc) {
    int left = 0, right = listc.size() - 1;
    while (left <= right) {
        int mid = left + (right - left) / 2;
        if (listc[mid] == targetc) return mid;
        if (listc[mid] < targetc) left = mid + 1;
        else right = mid - 1;
    }
    return -1;
}
"%string.

Definition binary_search_student021_clone1_cpp : string :=
"int solveex_clonea(vector<int>& numbersa, int goala) {
    while (left <= right) {
    int left = 0, right = numbersa.size() - 1;
        int mid = left + (right - left) / 2;
    }
        else right = mid - 1;
        if (numbersa[mid] == goala) return mid;
        if (numbersa[mid] < goala) left = mid + 1;
    return -1;
}
"%string.

Definition binary_search_student021_clone2_cpp : string :=
"int solveex_clonejul(vector<int>& numbersb, int goalb) {
    int left = 0, right = numbersb.size() - 1;
    while (left <= right) {
        int mid = left + (right - left) / 2;
        if (numbersb[mid] == goalb) return mid;
        if (numbersb[mid] < goalb) left = mid + 1;
        else right = mid - 1;
    }
    return -1;
}
"%string.

Definition binary_search_student021_clone3_cpp : string :=
"int solveex_clonena(vector<int>& numbersc, int goalc) {
    int left = 0, right = numbersc.size() - 1;
    while (left <= right) {
        int mid = left + (right - left) / 2;
        if (numbersc[mid] == goalc) return mid;
        if (numbersc[mid] < goalc) left = mid + 1;
        else right = mid - 1;
    }
    return -1;
}
"%string.

Definition binary_search_student022_cpp : string :=
"int solvecbt(vector<int>& numbers, int target) {
    int left = 0, right = numbers.size() - 1;
    while (left <= right) {
        int mid = left + (right - left) / 2;
        if (numbers[mid] == target) return mid;
        if (numbers[mid] < target) left = mid + 1;
        else right = mid - 1;
    }
    return -1;
}
"%string.

Definition binary_search_student022_clone1_cpp : string :=
"int solvecbt_clonel(vector<int>& numbersa, int targeta) {
    int left = 0, right = numbersa.size() - 1;
    while (left <= right) {
        int mid = left + (right - left) / 2;
        if (numbersa[mid] == targeta) return mid;
        if (numbersa[mid] < targeta) left = mid + 1;
        else right = mid - 1;
    }
    return -1;
}
"%string.

Definition binary_search_student022_clone3_cpp : string :=
"int solvecbt_cloneman(vector<int>& numbersc, int targetc) {
    int left = 0, right = numbersc.size() - 1;
    while (left <= right) {
        int mid = left + (right - left) / 2;
        if (numbersc[mid] == targetc) return mid;
        if (numbersc[mid] < targetc) left = mid + 1;
        else right = mid - 1;
    }
    return -1;
}
"%string.

Definition binary_search_student023_cpp : string :=
"int solvefe(vector<int>& arr, int threshold) {
    int left = 0, right = arr.size() - 1;
    while (left <= right) {
        int mid = left + (right - left) / 2;
        if (arr[mid] == threshold) return mid;
        if (arr[mid] < threshold) left = mid + 1;
        else right = mid - 1;
    }
    return -1;
}
"%string.

Definition binary_search_student026_clone1_cpp : string :=
"int solvesyb_clonel(vector<int>& numbersa, int goala) {
    int left = 0, right = numbersa.size() - 1;
    while (left <= right) {
        int mid = left + (right - left) / 2;
        if (numbersa[mid] == goala) return mid;
        if (numbersa[mid] < goala) left = mid + 1;
        else right = mid - 1;
    }
    return -1;
}
"%string.

Definition binary_search_student027_clone2_cpp : string :=
"int solvecd_clonei(vector<int>& datasetb, int goalb) {
    int left = 0, right = datasetb.size() - 1;
    while (left <= right) {
        int mid = left + (right - left) / 2;
        if (datasetb[mid] == goalb) return mid;
        if (datasetb[mid] < goalb) left = mid + 1;
        else right = mid - 1;
    }
    return -1;
}
"%string.

Definition binary_search_student027_clone3_cpp : string :=
"int solvecd_clonenbz(vector<int>& datasetc, int goalc) {
    int left = 0, right = datasetc.size() - 1;
    while (left <= right) {
        int mid = left + (right - left) / 2;
        if (datasetc[mid] == goalc) return mid;
        if (datasetc[mid] < goalc) left = mid + 1;
        else right = mid - 1;
    }
    return -1;
}
"%string.

Definition binary_search_student028_clone3_cpp : string :=
"int solvefr_clonectz(vector<int>& numbersc, int thresholdc) {
    int left = 0, right = numbersc.size() - 1;
    while (left <= right) {
        int mid = left + (right - left) / 2;
        if (numbersc[mid] == thresholdc) return mid;
        if (numbersc[mid] < thresholdc) left = mid + 1;
        else right = mid - 1;
    }
    return -1;
}
"%string.

Definition binary_search_student030_clone1_cpp : string :=
"int solveu_clonefh(vector<int>& numbersa, int thresholda) {
    while (left <= right) {
        if (numbersa[mid] == thresholda) return mid;
        int mid = left + (right - left) / 2;
    int left = 0, right = numbersa.size() - 1;
        if (numbersa[mid] < thresholda) left = mid + 1;
        else right = mid - 1;
    }
    return -1;
}
"%string.

Definition binary_search_student030_clone2_cpp : string :=
"int solveu_clonewdl(vector<int>& numbersb, int thresholdb) {
    int left = 0, right = numbersb.size() - 1;
    while (left <= right) {
        int mid = left + (right - left) / 2;
        if (numbersb[mid] == thresholdb) return mid;
        if (numbersb[mid] < thresholdb) left = mid + 1;
        else right = mid - 1;
    }
    return -1;
}
"%string.

Definition binary_search_student031_cpp : string :=
"int solver(vector<int>& list, int dest) {
    int left = 0, right = list.size() - 1;
    while (left <= right) {
        int mid = left + (right - left) / 2;
        if (list[mid] == dest) return mid;
        if (list[mid] < dest) left = mid + 1;
        else right = mid - 1;
    }
    return -1;
}
"%string.

Definition binary_search_student032_cpp : string :=
"int solvefth(vector<int>& list, int sum_val) {
    int left = 0, right = list.size() - 1;
    while (left <= right) {
        int mid = left + (right - left) / 2;
        if (list[mid] == sum_val) return mid;
        if (list[mid] < sum_val) left = mid + 1;
        else right = mid - 1;
    }
    return -1;
}
"%string.

Definition binary_search_student032_clone1_cpp : string :=
"int solvefth_clonefe(vector<int>& lista, int sum_vala) {
        int mid = left + (right - left) / 2;
        if (lista[mid] == sum_vala) return mid;
    int left = 0, right = lista.size() - 1;
    while (left <= right) {
        if (lista[mid] < sum_vala) left = mid + 1;
        else right = mid - 1;
    }
    return -1;
}
"%string.

Definition binary_search_student032_clone2_cpp : string :=
"int solvefth_clonejeb(vector<int>& listb, int sum_valb) {
    int left = 0, right = listb.size() - 1;
    while (left <= right) {
        int mid = left + (right - left) / 2;
        if (listb[mid] == sum_valb) return mid;
        if (listb[mid] < sum_valb) left = mid + 1;
        else right = mid - 1;
    }
    return -1;
}
"%string.

Definition binary_search_student032_clone3_cpp : string :=
"int solvefth_clonedtv(vector<int>& listc, int sum_valc) {
    int left = 0, right = listc.size() - 1;
    while (left <= right) {
        int mid = left + (right - left) / 2;
        if (listc[mid] == sum_valc) return mid;
        if (listc[mid] < sum_valc) left = mid + 1;
        else right = mid - 1;
    }
    return -1;
}
"%string.

Definition binary_search_student034_cpp : string :=
"int solveo(vector<int>& dataset, int goal) {
    int left = 0, right = dataset.size() - 1;
    while (left <= right) {
        int mid = left + (right - left) / 2;
        if (dataset[mid] == goal) return mid;
        if (dataset[mid] < goal) left = mid + 1;
        else right = mid - 1;
    }
    return -1;
}
"%string.

Definition binary_search_student035_cpp : string :=
"int solved(vector<int>& dataset, int dest) {
    int left = 0, right = dataset.size() - 1;
    while (left <= right) {
        int mid = left + (right - left) / 2;
        if (dataset[mid] == dest) return mid;
        if (dataset[mid] < dest) left = mid + 1;
        else right = mid - 1;
    }
    return -1;
}
"%string.

Definition binary_search_student035_clone2_cpp : string :=
"int solved_cloneoi(vector<int>& datasetb, int destb) {
    int left = 0, right = datasetb.size() - 1;
    while (left <= right) {
        int mid = left + (right - left) / 2;
        if (datasetb[mid] == destb) return mid;
        if (datasetb[mid] < destb) left = mid + 1;
        else right = mid - 1;
    }
    return -1;
}
"%string.

Definition binary_search_student035_clone3_cpp : string :=
"int solved_clonedhw(vector<int>& datasetc, int destc) {
    int left = 0, right = datasetc.size() - 1;
    while (left <= right) {
        int mid = left + (right - left) / 2;
        if (datasetc[mid] == destc) return mid;
        if (datasetc[mid] < destc) left = mid + 1;
        else right = mid - 1;
    }
    return -1;
}
"%string.

Definition binary_search_student036_cpp : string :=
"int solvef(vector<int>& arr, int sum_val) {
    int left = 0, right = arr.size() - 1;
    while (left <= right) {
        int mid = left + (right - left) / 2;
        if (arr[mid] == sum_val) return mid;
        if (arr[mid] < sum_val) left = mid + 1;
        else right = mid - 1;
    }
    return -1;
}
"%string.

Definition binary_search_student036_clone1_cpp : string :=
"int solvef_cloneum(vector<int>& arra, int sum_vala) {
    int left = 0, right = arra.size() - 1;
    while (left <= right) {
        int mid = left + (right - left) / 2;
        if (arra[mid] == sum_vala) return mid;
        if (arra[mid] < sum_vala) left = mid + 1;
        else right = mid - 1;
    }
    return -1;
}
"%string.

Definition binary_search_student036_clone2_cpp : string :=
"int solvef_clonec(vector<int>& arrb, int sum_valb) {
    int left = 0, right = arrb.size() - 1;
    while (left <= right) {
        int mid = left + (right - left) / 2;
        if (arrb[mid] == sum_valb) return mid;
        if (arrb[mid] < sum_valb) left = mid + 1;
        else right = mid - 1;
    }
    return -1;
}
"%string.

Definition binary_search_student036_clone3_cpp : string :=
"int solvef_clonebo(vector<int>& arrc, int sum_valc) {
    int left = 0, right = arrc.size() - 1;
    while (left <= right) {
        int mid = left + (right - left) / 2;
        if (arrc[mid] == sum_valc) return mid;
        if (arrc[mid] < sum_valc) left = mid + 1;
        else right = mid - 1;
    }
    return -1;
}
"%string.

Definition binary_search_student037_clone1_cpp : string :=
"int solvef_cloneokd(vector<int>& veca, int targeta) {
    int left = 0, right = veca.size() - 1;
    while (left <= right) {
        int mid = left + (right - left) / 2;
        if (veca[mid] == targeta) return mid;
        if (veca[mid] < targeta) left = mid + 1;
        else right = mid - 1;
    }
    return -1;
}
"%string.

Definition binary_search_student038_clone3_cpp : string :=
"int solvezie_cloneovx(vector<int>& vecc, int targetc) {
    int left = 0, right = vecc.size() - 1;
    while (left <= right) {
        int mid = left + (right - left) / 2;
        if (vecc[mid] == targetc) return mid;
        if (vecc[mid] < targetc) left = mid + 1;
        else right = mid - 1;
    }
    return -1;
}
"%string.

Definition binary_search_student039_clone2_cpp : string :=
"int solvem_clonexw(vector<int>& datasetb, int targetb) {
    int left = 0, right = datasetb.size() - 1;
    while (left <= right) {
        int mid = left + (right - left) / 2;
        if (datasetb[mid] == targetb) return mid;
        if (datasetb[mid] < targetb) left = mid + 1;
        else right = mid - 1;
    }
    return -1;
}
"%string.

Definition binary_search_student039_clone3_cpp : string :=
"int solvem_clonelp(vector<int>& datasetc, int targetc) {
    int left = 0, right = datasetc.size() - 1;
    while (left <= right) {
        int mid = left + (right - left) / 2;
        if (datasetc[mid] == targetc) return mid;
        if (datasetc[mid] < targetc) left = mid + 1;
        else right = mid - 1;
    }
    return -1;
}
"%string.

Definition binary_search_student040_clone2_cpp : string :=
"int solveez_clonelfy(vector<int>& vecb, int targetb) {
    int left = 0, right = vecb.size() - 1;
    while (left <= right) {
        int mid = left + (right - left) / 2;
        if (vecb[mid] == targetb) return mid;
        if (vecb[mid] < targetb) left = mid + 1;
        else right = mid - 1;
    }
    return -1;
}
"%string.

Definition binary_search_student042_cpp : string :=
"int solveeh(vector<int>& dataset, int target) {
    int left = 0, right = dataset.size() - 1;
    while (left <= right) {
        int mid = left + (right - left) / 2;
        if (dataset[mid] == target) return mid;
        if (dataset[mid] < target) left = mid + 1;
        else right = mid - 1;
    }
    return -1;
}
"%string.

Definition binary_search_student043_cpp : string :=
"int solveun(vector<int>& arr, int goal) {
    int left = 0, right = arr.size() - 1;
    while (left <= right) {
        int mid = left + (right - left) / 2;
        if (arr[mid] == goal) return mid;
        if (arr[mid] < goal) left = mid + 1;
        else right = mid - 1;
    }
    return -1;
}
"%string.

Definition binary_search_student044_clone1_cpp : string :=
"int solvehj_clonee(vector<int>& dataseta, int desta) {
    int left = 0, right = dataseta.size() - 1;
    while (left <= right) {
        int mid = left + (right - left) / 2;
        if (dataseta[mid] == desta) return mid;
        if (dataseta[mid] < desta) left = mid + 1;
        else right = mid - 1;
    }
    return -1;
}
"%string.

Definition binary_search_student044_clone2_cpp : string :=
"int solvehj_cloneqdc(vector<int>& datasetb, int destb) {
    int left = 0, right = datasetb.size() - 1;
        int mid = left + (right - left) / 2;
    while (left <= right) {
        else right = mid - 1;
        if (datasetb[mid] == destb) return mid;
    }
        if (datasetb[mid] < destb) left = mid + 1;
    return -1;
}
"%string.

Definition binary_search_student045_clone1_cpp : string :=
"int solvet_clonenu(vector<int>& dataseta, int goala) {
    int left = 0, right = dataseta.size() - 1;
    while (left <= right) {
        int mid = left + (right - left) / 2;
        if (dataseta[mid] == goala) return mid;
        if (dataseta[mid] < goala) left = mid + 1;
        else right = mid - 1;
    }
    return -1;
}
"%string.

Definition binary_search_student046_cpp : string :=
"int solveqjh(vector<int>& vec, int goal) {
    int left = 0, right = vec.size() - 1;
    while (left <= right) {
        int mid = left + (right - left) / 2;
        if (vec[mid] == goal) return mid;
        if (vec[mid] < goal) left = mid + 1;
        else right = mid - 1;
    }
    return -1;
}
"%string.

Definition binary_search_student046_clone1_cpp : string :=
"int solveqjh_cloneu(vector<int>& veca, int goala) {
    int left = 0, right = veca.size() - 1;
    while (left <= right) {
        int mid = left + (right - left) / 2;
        if (veca[mid] == goala) return mid;
        if (veca[mid] < goala) left = mid + 1;
        else right = mid - 1;
    }
    return -1;
}
"%string.

Definition binary_search_student046_clone3_cpp : string :=
"int solveqjh_cloneeu(vector<int>& vecc, int goalc) {
    int left = 0, right = vecc.size() - 1;
    while (left <= right) {
        int mid = left + (right - left) / 2;
        if (vecc[mid] == goalc) return mid;
        if (vecc[mid] < goalc) left = mid + 1;
        else right = mid - 1;
    }
    return -1;
}
"%string.

Definition binary_search_student047_clone1_cpp : string :=
"int solvel_clonein(vector<int>& numsa, int sum_vala) {
    int left = 0, right = numsa.size() - 1;
    while (left <= right) {
        int mid = left + (right - left) / 2;
        if (numsa[mid] == sum_vala) return mid;
        if (numsa[mid] < sum_vala) left = mid + 1;
        else right = mid - 1;
    }
    return -1;
}
"%string.

Definition binary_search_student047_clone2_cpp : string :=
"int solvel_clonec(vector<int>& numsb, int sum_valb) {
    int left = 0, right = numsb.size() - 1;
    while (left <= right) {
        int mid = left + (right - left) / 2;
        if (numsb[mid] == sum_valb) return mid;
        if (numsb[mid] < sum_valb) left = mid + 1;
        else right = mid - 1;
    }
    return -1;
}
"%string.

Definition binary_search_student048_cpp : string :=
"int solvedbo(vector<int>& nums, int threshold) {
    int left = 0, right = nums.size() - 1;
    while (left <= right) {
        int mid = left + (right - left) / 2;
        if (nums[mid] == threshold) return mid;
        if (nums[mid] < threshold) left = mid + 1;
        else right = mid - 1;
    }
    return -1;
}
"%string.

Definition binary_search_student048_clone2_cpp : string :=
"int solvedbo_clonel(vector<int>& numsb, int thresholdb) {
    int left = 0, right = numsb.size() - 1;
    while (left <= right) {
        int mid = left + (right - left) / 2;
        if (numsb[mid] == thresholdb) return mid;
        if (numsb[mid] < thresholdb) left = mid + 1;
        else right = mid - 1;
    }
    return -1;
}
"%string.

Definition binary_search_student049_clone1_cpp : string :=
"int solved_clonev(vector<int>& arra, int targeta) {
    int left = 0, right = arra.size() - 1;
    while (left <= right) {
        int mid = left + (right - left) / 2;
        if (arra[mid] == targeta) return mid;
        if (arra[mid] < targeta) left = mid + 1;
        else right = mid - 1;
    }
    return -1;
}
"%string.

Definition binary_search_student049_clone3_cpp : string :=
"int solved_cloneljp(vector<int>& arrc, int targetc) {
    int left = 0, right = arrc.size() - 1;
    while (left <= right) {
        int mid = left + (right - left) / 2;
        if (arrc[mid] == targetc) return mid;
        if (arrc[mid] < targetc) left = mid + 1;
        else right = mid - 1;
    }
    return -1;
}
"%string.

Definition binary_search_student050_clone2_cpp : string :=
"int solvebzg_cloneys(vector<int>& numbersb, int targetb) {
    int left = 0, right = numbersb.size() - 1;
    while (left <= right) {
        int mid = left + (right - left) / 2;
        if (numbersb[mid] == targetb) return mid;
        if (numbersb[mid] < targetb) left = mid + 1;
        else right = mid - 1;
    }
    return -1;
}
"%string.

(** The corpus: file name and text. *)
Definition binary_search_corpus : list (string * string) :=
  [ ("binary_search_student001_clone2.cpp"%string, binary_search_student001_clone2_cpp);
    ("binary_search_student002.cpp"%string, binary_search_student002_cpp);
    ("binary_search_student002_clone1.cpp"%string, binary_search_student002_clone1_cpp);
    ("binary_search_student003_clone2.cpp"%string, binary_search_student003_clone2_cpp);
    ("binary_search_student004_clone2.cpp"%string, binary_search_student004_clone2_cpp);
    ("binary_search_student007.cpp"%string, binary_search_student007_cpp);
    ("binary_search_student008.cpp"%string, binary_search_student008_cpp);
    ("binary_search_student008_clone1.cpp"%string, binary_search_student008_clone1_cpp);
    ("binary_search_student009_clone3.cpp"%string, binary_search_student009_clone3_cpp);
    ("binary_search_student010_clone1.cpp"%string, binary_search_student010_clone1_cpp);
    ("binary_search_student011.cpp"%string, binary_search_student011_cpp);
    ("binary_search_student011_clone2.cpp"%string, binary_search_student011_clone2_cpp);
    ("binary_search_student012_clone2.cpp"%string, binary_search_student012_clone2_cpp);
    ("binary_search_student012_clone3.cpp"%string, binary_search_student012_clone3_cpp);
    ("binary_search_student014.cpp"%string, binary_search_student014_cpp);
    ("binary_search_student015_clone2.cpp"%string, binary_search_student015_clone2_cpp);
    ("binary_search_student016.cpp"%string, binary_search_student016_cpp);
    ("binary_search_student016_clone2.cpp"%string, binary_search_student016_clone2_cpp);
    ("binary_search_student016_clone3.cpp"%string, binary_search_student016_clone3_cpp);
    ("binary_search_student018.cpp"%string, binary_search_student018_cpp);
    ("binary_search_student018_clone1.cpp"%string, binary_search_student018_clone1_cpp);
    ("binary_search_student020_clone1.cpp"%string, binary_search_student020_clone1_cpp);
    ("binary_search_student020_clone3.cpp"%string, binary_search_student020_clone3_cpp);
    ("binary_search_student021_clone1.cpp"%string, binary_search_student021_clone1_cpp);
    ("binary_search_student021_clone2.cpp"%string, binary_search_student021_clone2_cpp);
    ("binary_search_student021_clone3.cpp"%string, binary_search_student021_clone3_cpp);
    ("binary_search_student022.cpp"%string, binary_search_student022_cpp);
    ("binary_search_student022_clone1.cpp"%string, binary_search_student022_clone1_cpp);
    ("binary_search_student022_clone3.cpp"%string, binary_search_student022_clone3_cpp);
    ("binary_search_student023.cpp"%string, binary_search_student023_cpp);
    ("binary_search_student026_clone1.cpp"%string, binary_search_student026_clone1_cpp);
    ("binary_search_student027_clone2.cpp"%string, binary_search_student027_clone2_cpp);
    ("binary_search_student027_clone3.cpp"%string, binary_search_student027_clone3_cpp);
    ("binary_search_student028_clone3.cpp"%string, binary_search_student028_clone3_cpp);
    ("binary_search_student030_clone1.cpp"%string, binary_search_student030_clone1_cpp);
    ("binary_search_student030_clone2.cpp"%string, binary_search_student030_clone2_cpp);
    ("binary_search_student031.cpp"%string, binary_search_student031_cpp);
    ("binary_search_student032.cpp"%string, binary_search_student032_cpp);
    ("binary_search_student032_clone1.cpp"%string, binary_search_student032_clone1_cpp);
    ("binary_search_student032_clone2.cpp"%string, binary_search_student032_clone2_cpp);
    ("binary_search_student032_clone3.cpp"%string, binary_search_student032_clone3_cpp);
    ("binary_search_student034.cpp"%string, binary_search_student034_cpp);
    ("binary_search_student035.cpp"%string, binary_search_student035_cpp);
    ("binary_search_student035_clone2.cpp"%string, binary_search_student035_clone2_cpp);
    ("binary_search_student035_clone3.cpp"%string, binary_search_student035_clone3_cpp);
    ("binary_search_student036.cpp"%string, binary_search_student036_cpp);
    ("binary_search_student036_clone1.cpp"%string, binary_search_student036_clone1_cpp);
    ("binary_search_student036_clone2.cpp"%string, binary_search_student036_clone2_cpp);
    ("binary_search_student036_clone3.cpp"%string, binary_search_student036_clone3_cpp);
    ("binary_search_student037_clone1.cpp"%string, binary_search_student037_clone1_cpp);
    ("binary_search_student038_clone3.cpp"%string, binary_search_student038_clone3_cpp);
    ("binary_search_student039_clone2.cpp"%string, binary_search_student039_clone2_cpp);
    ("binary_search_student039_clone3.cpp"%string, binary_search_student039_clone3_cpp);
    ("binary_search_student040_clone2.cpp"%string, binary_search_student040_clone2_cpp);
    ("binary_search_student042.cpp"%string, binary_search_student042_cpp);
    ("binary_search_student043.cpp"%string, binary_search_student043_cpp);
    ("binary_search_student044_clone1.cpp"%string, binary_search_student044_clone1_cpp);
    ("binary_search_student044_clone2.cpp"%string, binary_search_student044_clone2_cpp);
    ("binary_search_student045_clone1.cpp"%string, binary_search_student045_clone1_cpp);
    ("binary_search_student046.cpp"%string, binary_search_student046_cpp);
    ("binary_search_student046_clone1.cpp"%string, binary_search_student046_clone1_cpp);
    ("binary_search_student046_clone3.cpp"%string, binary_search_student046_clone3_cpp);
    ("binary_search_student047_clone1.cpp"%string, binary_search_student047_clone1_cpp);
    ("binary_search_student047_clone2.cpp"%string, binary_search_student047_clone2_cpp);
    ("binary_search_student048.cpp"%string, binary_search_student048_cpp);
    ("binary_search_student048_clone2.cpp"%string, binary_search_student048_clone2_cpp);
    ("binary_search_student049_clone1.cpp"%string, binary_search_student049_clone1_cpp);
    ("binary_search_student049_clone3.cpp"%string, binary_search_student049_clone3_cpp);
    ("binary_search_student050_clone2.cpp"%string, binary_search_student050_clone2_cpp) ].

(* ================================================================== *)
(** * Tokens and renamings *)
(* ================================================================== *)

Inductive token : Type :=
| TKeyword (w : string)
| TIdent (w : string)
| TNumber (w : string)
| TPunct (w : string).

Global Instance token_eq_dec : EqDecision token.
Proof. solve_decision. Defined.

Definition is_digit (c : ascii) : bool :=
  let n := nat_of_ascii c in (48 <=? n)%nat && (n <=? 57)%nat.

Definition is_word_char (c : ascii) : bool :=
  let n := nat_of_ascii c in
  is_digit c || ((65 <=? n)%nat && (n <=? 90)%nat)
  || ((97 <=? n)%nat && (n <=? 122)%nat) || (n =? 95)%nat.

Definition is_space (c : ascii) : bool :=
  let n := nat_of_ascii c in
  (n =? 32)%nat || (n =? 10)%nat || (n =? 9)%nat || (n =? 13)%nat.

(** The words of C++ that are not identifiers, as far as the corpus uses
    them. *)
Definition keywords : list string :=
  ["int"; "if"; "else"; "while"; "for"; "return"; "void"; "bool"; "char";
   "long"; "double"; "float"; "unsigned"; "const"; "struct"; "class";
   "break"; "continue"; "do"; "true"; "false"]%string.

(** The two-character operators of C++. *)
Definition is_operator2 (c1 c2 : ascii) : bool :=
  bool_decide (String c1 (String c2 EmptyString) ∈
    ["<="; ">="; "=="; "!="; "++"; "--"; "&&"; "||"; "+="; "-="; "*="; "/=";
     "->"; "::"; "<<"; ">>"]%string).

Definition word_token (w : string) : list token :=
  match w with
  | EmptyString => []
  | String c _ =>
      if is_digit c then [TNumber w]
      else if bool_decide (w ∈ keywords) then [TKeyword w]
      else [TIdent w]
  end.

(** Modelled from the spec: the tokenizer of the clone detector (4.1) is
    not among the sources; this one drops white space and cuts the text into
    words, numbers and operators. [word] is the word being read. *)
Fixpoint lex (word : string) (s : string) : list token :=
  match s with
  | EmptyString => word_token word
  | String c s' =>
      if is_word_char c then lex (word +:+ String c EmptyString) s'
      else if is_space c then word_token word ++ lex EmptyString s'
      else
        match s' with
        | String c2 s'' =>
            if is_operator2 c c2
            then word_token word
                 ++ TPunct (String c (String c2 EmptyString)) :: lex EmptyString s''
            else word_token word ++ TPunct (String c EmptyString) :: lex EmptyString s'
        | EmptyString => word_token word ++ [TPunct (String c EmptyString)]
        end
  end.

(** The token sequence of a function text. *)
Definition tokens (text : string) : list token := lex EmptyString text.

(** The identifiers of a token sequence, in order of occurrence. *)
Definition idents (ts : list token) : list string :=
  omap (fun t => match t with TIdent w => Some w | _ => None end) ts.

(** A renaming is a finite table; a word outside the table stays. *)
Definition rename_word (m : list (string * string)) (w : string) : string :=
  match list_find (fun p => fst p = w) m with
  | Some (_, p) => snd p
  | None => w
  end.

Definition rename_token (m : list (string * string)) (t : token) : token :=
  match t with
  | TIdent w => TIdent (rename_word m w)
  | _ => t
  end.

(** [m] is a bijection from the identifiers of [ts1] onto those of [ts2]
    that maps the sequence [ts1] onto [ts2]. *)
Definition renames_onto (m : list (string * string)) (ts1 ts2 : list token) : Prop :=
  NoDup (fst <$> m) /\ NoDup (snd <$> m) /\
  idents ts1 ⊆ (fst <$> m) /\
  rename_token m <$> ts1 = ts2.

Definition same_up_to_renaming (ts1 ts2 : list token) : Prop :=
  exists m, renames_onto m ts1 ts2.

(** The pairs of identifiers at the same positions, each pair once. *)
Definition aligned_idents (ts1 ts2 : list token) : list (string * string) :=
  remove_dups
    (omap (fun p => match p with
                    | (TIdent a, TIdent b) => Some (a, b)
                    | _ => None
                    end) (zip ts1 ts2)).

(** Decides whether the aligned identifiers are a renaming of [ts1] onto
    [ts2]. *)
Definition renaming_check (ts1 ts2 : list token) : bool :=
  let m := aligned_idents ts1 ts2 in
  bool_decide (NoDup (fst <$> m)) && bool_decide (NoDup (snd <$> m))
  && bool_decide (idents ts1 ⊆ (fst <$> m))
  && bool_decide (rename_token m <$> ts1 = ts2).

(** A token sequence with its identifiers blanked. *)
Definition skeleton (ts : list token) : list token :=
  (fun t => match t with TIdent _ => TIdent EmptyString | _ => t end) <$> ts.

(** The distinct words of [l], in order of first occurrence. *)
Fixpoint first_occurrences (seen l : list string) : list string :=
  match l with
  | [] => []
  | x :: l' =>
      if bool_decide (x ∈ seen) then first_occurrences seen l'
      else x :: first_occurrences (x :: seen) l'
  end.

(** Modelled from the spec: the normalizer (4.1) is not among the sources;
    it replaces every identifier by a placeholder numbered in order of first
    occurrence within the function. *)
Definition normalize (ts : list token) : list token :=
  let ids := first_occurrences [] (idents ts) in
  (fun t => match t with
            | TIdent w =>
                match list_find (fun x => x = w) ids with
                | Some (i, _) => TIdent ("ID" +:+ pretty (S i))
                | None => t
                end
            | _ => t
            end) <$> ts.

(** The files whose lines are out of order. *)
Definition shuffled_files : list string :=
  ["binary_search_student015_clone2.cpp"; "binary_search_student021_clone1.cpp";
   "binary_search_student030_clone1.cpp"; "binary_search_student032_clone1.cpp";
   "binary_search_student044_clone2.cpp"]%string.

Definition well_ordered : list (string * string) :=
  filter (fun p => fst p ∉ shuffled_files) binary_search_corpus.

Definition shuffled : list (string * string) :=
  filter (fun p => fst p ∈ shuffled_files) binary_search_corpus.

(** Every sequence of [l1] is a renaming of every sequence of [l2]. *)
Definition all_renamings (l1 l2 : list (list token)) : bool :=
  forallb (fun t1 => forallb (fun t2 => renaming_check t1 t2) l2) l1.

(** No sequence of [l1] has the skeleton of a sequence of [l2]. *)
Definition no_common_skeleton (l1 l2 : list (list token)) : bool :=
  forallb (fun t1 =>
             forallb (fun t2 => negb (bool_decide (skeleton t1 = skeleton t2))) l2) l1.

(* ================================================================== *)
(** * The lines of a binary-search snippet *)
(* ================================================================== *)

(** The statement shuffle of the corpus moves whole lines, so a snippet is
    kept as its lines.  The syntax covers what the binary-search snippets
    use. *)
Inductive binop : Type := Add | Sub | Div | Le | Lt | Eq.

Inductive expr : Type :=
| EInt (z : Z)                       (* [0], [-1] *)
| EVar (x : string)                  (* [mid] *)
| ESize (v : string)                 (* [v.size()] *)
| EIndex (v : string) (e : expr)     (* [v[e]] *)
| EBin (op : binop) (e1 e2 : expr)   (* [e1 op e2] *)
| EParen (e : expr).                 (* [(e)] *)

Inductive simple : Type :=
| SAssign (x : string) (e : expr)    (* [x = e;] *)
| SReturn (e : expr).                (* [return e;] *)

Inductive line : Type :=
| LDecl (ds : list (string * expr))  (* [int x = e, y = e;] *)
| LWhile (c : expr)                  (* [while (c) {] *)
| LClose                             (* [}] *)
| LIf (c : expr) (s : simple)        (* [if (c) s] *)
| LElse (s : simple)                 (* [else s] *)
| LSimple (s : simple).              (* [s] *)

(** [int name(vector<int>& vec, int target) {], the lines, [}]. *)
Record func : Type := {
  f_name : string;
  f_vec : string;
  f_int : string;
  f_body : list line
}.

Global Instance binop_eq_dec : EqDecision binop.
Proof. solve_decision. Defined.

Global Instance expr_eq_dec : EqDecision expr.
Proof. solve_decision. Defined.

Global Instance simple_eq_dec : EqDecision simple.
Proof. solve_decision. Defined.

Global Instance line_eq_dec : EqDecision line.
Proof. solve_decision. Defined.

(** ** The three snippets *)

(** binary_search_student002.cpp, lines 6 to 15 *)
Definition solveoom_lines : func :=
  {| f_name := "solveoom"; f_vec := "numbers"; f_int := "threshold";
     f_body :=
       [ LDecl [("left", EInt 0); ("right", EBin Sub (ESize "numbers") (EInt 1))];
         LWhile (EBin Le (EVar "left") (EVar "right"));
         LDecl [("mid", EBin Add (EVar "left")
                          (EBin Div (EParen (EBin Sub (EVar "right") (EVar "left")))
                                    (EInt 2)))];
         LIf (EBin Eq (EIndex "numbers" (EVar "mid")) (EVar "threshold"))
             (SReturn (EVar "mid"));
         LIf (EBin Lt (EIndex "numbers" (EVar "mid")) (EVar "threshold"))
             (SAssign "left" (EBin Add (EVar "mid") (EInt 1)));
         LElse (SAssign "right" (EBin Sub (EVar "mid") (EInt 1)));
         LClose;
         LSimple (SReturn (EInt (-1))) ] |}.

(** binary_search_student015_clone2.cpp, lines 6 to 15 *)
Definition solvejd_cloneib_lines : func :=
  {| f_name := "solvejd_cloneib"; f_vec := "vecb"; f_int := "goalb";
     f_body :=
       [ LDecl [("left", EInt 0); ("right", EBin Sub (ESize "vecb") (EInt 1))];
         LIf (EBin Eq (EIndex "vecb" (EVar "mid")) (EVar "goalb"))
             (SReturn (EVar "mid"));
         LDecl [("mid", EBin Add (EVar "left")
                          (EBin Div (EParen (EBin Sub (EVar "right") (EVar "left")))
                                    (EInt 2)))];
         LWhile (EBin Le (EVar "left") (EVar "right"));
         LIf (EBin Lt (EIndex "vecb" (EVar "mid")) (EVar "goalb"))
             (SAssign "left" (EBin Add (EVar "mid") (EInt 1)));
         LElse (SAssign "right" (EBin Sub (EVar "mid") (EInt 1)));
         LClose;
         LSimple (SReturn (EInt (-1))) ] |}.

(** binary_search_student021_clone1.cpp, lines 6 to 15 *)
Definition solveex_clonea_lines : func :=
  {| f_name := "solveex_clonea"; f_vec := "numbersa"; f_int := "goala";
     f_body :=
       [ LWhile (EBin Le (EVar "left") (EVar "right"));
         LDecl [("left", EInt 0); ("right", EBin Sub (ESize "numbersa") (EInt 1))];
         LDecl [("mid", EBin Add (EVar "left")
                          (EBin Div (EParen (EBin Sub (EVar "right") (EVar "left")))
                                    (EInt 2)))];
         LClose;
         LElse (SAssign "right" (EBin Sub (EVar "mid") (EInt 1)));
         LIf (EBin Eq (EIndex "numbersa" (EVar "mid")) (EVar "goala"))
             (SReturn (EVar "mid"));
         LIf (EBin Lt (EIndex "numbersa" (EVar "mid")) (EVar "goala"))
             (SAssign "left" (EBin Add (EVar "mid") (EInt 1)));
         LSimple (SReturn (EInt (-1))) ] |}.

(** ** From lines back to text *)

Definition binop_token (op : binop) : token :=
  TPunct (match op with
          | Add => "+" | Sub => "-" | Div => "/"
          | Le => "<=" | Lt => "<" | Eq => "=="
          end).

Fixpoint expr_tokens (e : expr) : list token :=
  match e with
  | EInt z => if z <? 0 then [TPunct "-"; TNumber (pretty (- z))]
              else [TNumber (pretty z)]
  | EVar x => [TIdent x]
  | ESize v => [TIdent v; TPunct "."; TIdent "size"; TPunct "("; TPunct ")"]
  | EIndex v e => [TIdent v; TPunct "["] ++ expr_tokens e ++ [TPunct "]"]
  | EBin op e1 e2 => expr_tokens e1 ++ [binop_token op] ++ expr_tokens e2
  | EParen e => [TPunct "("] ++ expr_tokens e ++ [TPunct ")"]
  end.

Definition simple_tokens (s : simple) : list token :=
  match s with
  | SAssign x e => [TIdent x; TPunct "="] ++ expr_tokens e ++ [TPunct ";"]
  | SReturn e => [TKeyword "return"] ++ expr_tokens e ++ [TPunct ";"]
  end.

Fixpoint decl_tokens (ds : list (string * expr)) : list token :=
  match ds with
  | [] => []
  | [(x, e)] => [TIdent x; TPunct "="] ++ expr_tokens e
  | (x, e) :: ds' =>
      [TIdent x; TPunct "="] ++ expr_tokens e ++ [TPunct ","] ++ decl_tokens ds'
  end.

Definition line_tokens (l : line) : list token :=
  match l with
  | LDecl ds => [TKeyword "int"] ++ decl_tokens ds ++ [TPunct ";"]
  | LWhile c => [TKeyword "while"; TPunct "("] ++ expr_tokens c
                ++ [TPunct ")"; TPunct "{"]
  | LClose => [TPunct "}"]
  | LIf c s => [TKeyword "if"; TPunct "("] ++ expr_tokens c ++ [TPunct ")"]
               ++ simple_tokens s
  | LElse s => [TKeyword "else"] ++ simple_tokens s
  | LSimple s => simple_tokens s
  end.

Definition header_tokens (f : func) : list token :=
  [TKeyword "int"; TIdent (f_name f); TPunct "("; TIdent "vector"; TPunct "<";
   TKeyword "int"; TPunct ">"; TPunct "&"; TIdent (f_vec f); TPunct ",";
   TKeyword "int"; TIdent (f_int f); TPunct ")"; TPunct "{"].

(** The tokens of the text of [f], line by line. *)
Definition func_line_tokens (f : func) : list (list token) :=
  header_tokens f :: (line_tokens <$> f_body f) ++ [[TPunct "}"]].

(** The lines of a text: the pieces between line feeds; [cur] is the line
    being read. *)
Fixpoint text_lines (cur : string) (s : string) : list string :=
  match s with
  | EmptyString => match cur with EmptyString => [] | _ => [cur] end
  | String c s' =>
      if (nat_of_ascii c =? 10)%nat then cur :: text_lines EmptyString s'
      else text_lines (cur +:+ String c EmptyString) s'
  end.

(** The tokens of a text, line by line. *)
Definition text_line_tokens (text : string) : list (list token) :=
  tokens <$> text_lines EmptyString text.

(* ================================================================== *)
(** * From lines to statements, and what the statements compute *)
(* ================================================================== *)

#[warnings="-register-all"]
Inductive stmt : Type :=
| Decl (ds : list (string * expr))
| Simple (s : simple)
| If (c : expr) (s : simple)
| IfElse (c : expr) (s1 s2 : simple)
| While (c : expr) (body : list stmt).

(** The statements of a sequence of lines.  [inside] tells whether a
    [while] block is open; the result is the statements up to the closing
    brace and the lines after it.  An [else] that follows no [if], a brace
    that closes nothing and a block left open are syntax errors. *)
Fixpoint parse_lines (fuel : nat) (inside : bool) (ls : list line)
  : option (list stmt * list line) :=
  match fuel with
  | O => None
  | S fuel' =>
      match ls with
      | [] => if inside then None else Some ([], [])
      | LClose :: rest => if inside then Some ([], rest) else None
      | LElse _ :: _ => None
      | LDecl ds :: rest =>
          '(ss, after) ← parse_lines fuel' inside rest; Some (Decl ds :: ss, after)
      | LSimple s :: rest =>
          '(ss, after) ← parse_lines fuel' inside rest; Some (Simple s :: ss, after)
      | LIf c s1 :: LElse s2 :: rest =>
          '(ss, after) ← parse_lines fuel' inside rest;
          Some (IfElse c s1 s2 :: ss, after)
      | LIf c s :: rest =>
          '(ss, after) ← parse_lines fuel' inside rest; Some (If c s :: ss, after)
      | LWhile c :: rest =>
          '(body, after_body) ← parse_lines fuel' true rest;
          '(ss, after) ← parse_lines fuel' inside after_body;
          Some (While c body :: ss, after)
      end
  end.

(** The statements of a function body. *)
Definition parse (ls : list line) : option (list stmt) :=
  fst <$> parse_lines (S (length ls)) false ls.

(** ** Scopes *)

Fixpoint expr_vars (e : expr) : list string :=
  match e with
  | EInt _ => []
  | EVar x => [x]
  | ESize v => [v]
  | EIndex v e => v :: expr_vars e
  | EBin _ e1 e2 => expr_vars e1 ++ expr_vars e2
  | EParen e => expr_vars e
  end.

Definition simple_vars (s : simple) : list string :=
  match s with
  | SAssign x e => x :: expr_vars e
  | SReturn e => expr_vars e
  end.

(** The names visible after the declarators [ds], or [None] when an
    initializer uses a name that is not visible yet. *)
Fixpoint decl_scope (declared : list string) (ds : list (string * expr))
  : option (list string) :=
  match ds with
  | [] => Some declared
  | (x, e) :: ds' =>
      if bool_decide (expr_vars e ⊆ declared) then decl_scope (x :: declared) ds'
      else None
  end.

(** The names visible after the statement [s], or [None] when [s] uses a
    name that is not visible; a name declared in a block ends with the
    block. *)
Fixpoint stmt_scope (declared : list string) (s : stmt) : option (list string) :=
  match s with
  | Decl ds => decl_scope declared ds
  | Simple s =>
      if bool_decide (simple_vars s ⊆ declared) then Some declared else None
  | If c s =>
      if bool_decide (expr_vars c ++ simple_vars s ⊆ declared)
      then Some declared else None
  | IfElse c s1 s2 =>
      if bool_decide (expr_vars c ++ simple_vars s1 ++ simple_vars s2 ⊆ declared)
      then Some declared else None
  | While c body =>
      if bool_decide (expr_vars c ⊆ declared)
         && (fix block (declared : list string) (ss : list stmt) : bool :=
               match ss with
               | [] => true
               | s :: ss' =>
                   match stmt_scope declared s with
                   | Some declared' => block declared' ss'
                   | None => false
                   end
               end) declared body
      then Some declared else None
  end.

(** Every name is declared before it is used.  C++ rejects a function that
    fails this. *)
Fixpoint scoped (declared : list string) (ss : list stmt) : bool :=
  match ss with
  | [] => true
  | s :: ss' =>
      match stmt_scope declared s with
      | Some declared' => scoped declared' ss'
      | None => false
      end
  end.

(** ** Evaluation *)

(** The variables of type [int], innermost first. *)
Definition env : Type := list (string * Z).

Fixpoint env_get (rho : env) (x : string) : option Z :=
  match rho with
  | [] => None
  | (y, z) :: rho' => if String.eqb x y then Some z else env_get rho' x
  end.

Fixpoint env_set (rho : env) (x : string) (z : Z) : option env :=
  match rho with
  | [] => None
  | (y, z') :: rho' =>
      if String.eqb x y then Some ((y, z) :: rho')
      else rho'' ← env_set rho' x z; Some ((y, z') :: rho'')
  end.

(** A value is an [int] or a [size_t]. *)
Inductive ty : Type := TInt | TSize.

Definition as_size (v : ty * Z) : Z :=
  match v with
  | (TInt, z) => wrap64u z
  | (TSize, z) => z
  end.

Definition as_int (v : ty * Z) : Z := wrap32 (snd v).

Definition bool_int (b : bool) : ty * Z := (TInt, if b then 1 else 0).

(** [a op b] after the usual arithmetic conversions: on [size_t] when one
    side is a [size_t], on [int] otherwise. *)
Definition eval_binop (op : binop) (a b : ty * Z) : ty * Z :=
  match a, b with
  | (TInt, x), (TInt, y) =>
      match op with
      | Add => (TInt, add32 x y)
      | Sub => (TInt, sub32 x y)
      | Div => (TInt, div32 x y)
      | Le => bool_int (x <=? y)
      | Lt => bool_int (x <? y)
      | Eq => bool_int (x =? y)
      end
  | _, _ =>
      let x := as_size a in
      let y := as_size b in
      match op with
      | Add => (TSize, wrap64u (x + y))
      | Sub => (TSize, wrap64u (x - y))
      | Div => (TSize, wrap64u (Z.quot x y))
      | Le => bool_int (x <=? y)
      | Lt => bool_int (x <? y)
      | Eq => bool_int (x =? y)
      end
  end.

Section Eval.
Variable vec_name : string.
Variable vec : list Z.

Fixpoint eval (rho : env) (e : expr) : outcome (ty * Z) :=
  match e with
  | EInt z => Ret (TInt, z)
  | EVar x =>
      match env_get rho x with
      | Some z => Ret (TInt, z)
      | None => Fault (Undeclared x)
      end
  | ESize v =>
      if String.eqb v vec_name then Ret (TSize, wrap64u (vsize vec))
      else Fault (Undeclared v)
  | EIndex v e =>
      if String.eqb v vec_name then
        let* i := eval rho e in
        let* x := read vec (snd i) in
        Ret (TInt, x)
      else Fault (Undeclared v)
  | EBin op e1 e2 =>
      let* a := eval rho e1 in
      let* b := eval rho e2 in
      Ret (eval_binop op a b)
  | EParen e => eval rho e
  end.

Definition exec_simple (rho : env) (s : simple) : outcome (ctl env Z) :=
  match s with
  | SAssign x e =>
      let* v := eval rho e in
      match env_set rho x (as_int v) with
      | Some rho' => Ret (Continue rho')
      | None => Fault (Undeclared x)
      end
  | SReturn e => let* v := eval rho e in Ret (Return (as_int v))
  end.

Fixpoint exec_decl (rho : env) (ds : list (string * expr)) : outcome env :=
  match ds with
  | [] => Ret rho
  | (x, e) :: ds' => let* v := eval rho e in exec_decl ((x, as_int v) :: rho) ds'
  end.

(** The statements [ss] in turn, each run by [ex]. *)
Fixpoint exec_block (ex : stmt -> env -> outcome (ctl env Z)) (ss : list stmt)
    (rho : env) : outcome (ctl env Z) :=
  match ss with
  | [] => Ret (Continue rho)
  | s :: ss' =>
      match ex s rho with
      | Ret (Continue rho') => exec_block ex ss' rho'
      | r => r
      end
  end.

(** The variables that were there before a block, with the values the block
    gave them. *)
Definition leave_block (before after : env) : env :=
  drop (length after - length before) after.

(** One statement; [fuel] bounds the number of nested loop rounds. *)
Fixpoint exec (fuel : nat) (s : stmt) (rho : env) : outcome (ctl env Z) :=
  match s with
  | Decl ds => let* rho' := exec_decl rho ds in Ret (Continue rho')
  | Simple s => exec_simple rho s
  | If c s =>
      let* b := eval rho c in
      if snd b =? 0 then Ret (Continue rho) else exec_simple rho s
  | IfElse c s1 s2 =>
      let* b := eval rho c in
      if snd b =? 0 then exec_simple rho s2 else exec_simple rho s1
  | While c body =>
      match fuel with
      | O => OutOfFuel
      | S fuel' =>
          let* b := eval rho c in
          if snd b =? 0 then Ret (Continue rho)
          else
            match exec_block (exec fuel') body rho with
            | Ret (Continue rho') =>
                exec fuel' (While c body) (leave_block rho rho')
            | r => r
            end
      end
  end.

End Eval.

(** The function a text denotes on the vector [v] and the target [t]: the
    text must parse and respect the scopes, and control must reach a
    [return]. *)
Definition run (fuel : nat) (vec_name int_name : string) (ss : list stmt)
    (v : list Z) (t : Z) : outcome Z :=
  if scoped [int_name; vec_name] ss then
    match exec_block (exec vec_name v fuel) ss [(int_name, t)] with
    | Ret (Return z) => Ret z
    | Ret (Continue _) => Fault NoReturn
    | Fault f => Fault f
    | OutOfFuel => OutOfFuel
    end
  else Fault IllFormed.

Definition run_func (fuel : nat) (f : func) (v : list Z) (t : Z) : outcome Z :=
  match parse (f_body f) with
  | Some ss => run fuel (f_vec f) (f_int f) ss v t
  | None => Fault IllFormed
  end.

(** ** Declarations before uses *)

Definition line_uses (l : line) : list string :=
  match l with
  | LDecl ds => concat (expr_vars ∘ snd <$> ds)
  | LWhile c => expr_vars c
  | LClose => []
  | LIf c s => expr_vars c ++ simple_vars s
  | LElse s => simple_vars s
  | LSimple s => simple_vars s
  end.

Definition line_defs (l : line) : list string :=
  match l with
  | LDecl ds => fst <$> ds
  | _ => []
  end.

(** The kind of a line, in the order in which the pass takes ready lines:
    a loop header as soon as its condition can be evaluated, then
    declarations, guarded returns, guarded assignments, [else], plain
    assignments, the closing brace, and an unconditional [return] last,
    since nothing that follows it would run. *)
Definition line_rank (l : line) : nat :=
  match l with
  | LWhile _ => 0
  | LDecl _ => 1
  | LIf _ (SReturn _) => 2
  | LIf _ (SAssign _ _) => 3
  | LElse _ => 4
  | LSimple (SAssign _ _) => 5
  | LClose => 6
  | LSimple (SReturn _) => 7
  end.

Definition binop_code (op : binop) : nat :=
  match op with Add => 0 | Sub => 1 | Div => 2 | Le => 3 | Lt => 4 | Eq => 5 end.

(** A line as a tree of numbers and names, to number the lines. *)
Fixpoint expr_tree (e : expr) : gen_tree (Z + string) :=
  match e with
  | EInt z => GenLeaf (inl z)
  | EVar x => GenLeaf (inr x)
  | ESize v => GenNode 0 [GenLeaf (inr v)]
  | EIndex v e => GenNode 1 [GenLeaf (inr v); expr_tree e]
  | EBin op e1 e2 => GenNode (2 + binop_code op) [expr_tree e1; expr_tree e2]
  | EParen e => GenNode 8 [expr_tree e]
  end.

Definition simple_tree (s : simple) : gen_tree (Z + string) :=
  match s with
  | SAssign x e => GenNode 0 [GenLeaf (inr x); expr_tree e]
  | SReturn e => GenNode 1 [expr_tree e]
  end.

Definition line_tree (l : line) : gen_tree (Z + string) :=
  match l with
  | LDecl ds =>
      GenNode 0 ((fun d => GenNode 0 [GenLeaf (inr (fst d)); expr_tree (snd d)]) <$> ds)
  | LWhile c => GenNode 1 [expr_tree c]
  | LClose => GenNode 2 []
  | LIf c s => GenNode 3 [expr_tree c; simple_tree s]
  | LElse s => GenNode 4 [simple_tree s]
  | LSimple s => GenNode 5 [simple_tree s]
  end.

(** The number of a line: different lines have different numbers. *)
Definition line_code (l : line) : positive := encode (line_tree l).

(** The canonical order of lines: by kind, then by number. *)
Definition line_leb (a b : line) : bool :=
  (line_rank a <? line_rank b)%nat
  || ((line_rank a =? line_rank b)%nat && (line_code a <=? line_code b)%positive).

Definition line_le (a b : line) : Prop := line_leb a b = true.

Global Instance line_le_dec : RelDecision line_le.
Proof. intros a b. unfold line_le. apply _. Defined.

(** The lines of a function in the canonical order. *)
Definition sort_lines (ls : list line) : list line := sorting.merge_sort line_le ls.

(** The names [l] uses are none of [names]. *)
Definition uses_none_of (names : list string) (l : line) : bool :=
  forallb (fun x => negb (bool_decide (x ∈ names))) (line_uses l).

(** Whether the line [l] can come next: [scopes] holds the names declared
    in the open blocks, innermost first, [after_if] says that the line just
    emitted is an [if], [rest] are the lines not emitted yet.  A line needs
    its names in scope; an [else] needs an [if] in front of it; a closing
    brace needs an open loop and that no line still waits for a name of the
    block it closes. *)
Definition ready (scopes : list (list string)) (after_if : bool) (rest : list line)
    (l : line) : bool :=
  match l with
  | LClose =>
      match scopes with
      | block :: _ :: _ => forallb (uses_none_of block) rest
      | _ => false
      end
  | LElse _ => after_if && bool_decide (line_uses l ⊆ concat scopes)
  | _ => bool_decide (line_uses l ⊆ line_defs l ++ concat scopes)
  end.

(** The scopes after the line [l]. *)
Definition enter (l : line) (scopes : list (list string)) : list (list string) :=
  match l with
  | LDecl ds =>
      match scopes with
      | block :: outer => (reverse (fst <$> ds) ++ block) :: outer
      | [] => [reverse (fst <$> ds)]
      end
  | LWhile _ => [] :: scopes
  | LClose => tail scopes
  | _ => scopes
  end.

Definition is_if (l : line) : bool :=
  match l with LIf _ _ => true | _ => false end.

(** The first line of [ls] that satisfies [p], taken out. *)
Fixpoint take_first (p : line -> bool) (ls : list line) : option (line * list line) :=
  match ls with
  | [] => None
  | l :: ls' =>
      if p l then Some (l, ls')
      else '(r, rest) ← take_first p ls'; Some (r, l :: rest)
  end.

(** Emits, again and again, the first ready line of [ls]; lines that never
    become ready stay at the end, in the order they have in [ls]. *)
Fixpoint emit (fuel : nat) (scopes : list (list string)) (after_if : bool)
    (ls : list line) : list line :=
  match fuel with
  | O => ls
  | S fuel' =>
      match take_first (ready scopes after_if ls) ls with
      | Some (l, rest) => l :: emit fuel' (enter l scopes) (is_if l) rest
      | None => ls
      end
  end.

(** Modelled from the spec: the def-before-use pass (4.2, glossary) is not
    among the sources.  The spec asks for a canonical order based on data
    dependencies, so that a permutation of the same lines gives the same
    result, and (section 8) for the shuffled clones to come out as their
    well-ordered counterparts; which canonical order it is, the spec leaves
    open.  This pass puts the lines in the order [line_le] and then emits,
    again and again, the least line that is ready: every name it uses is
    declared and in scope.  The result depends on the lines only, not on
    the order they come in. *)
Definition def_before_use (declared : list string) (ls : list line) : list line :=
  emit (length ls) [declared] false (sort_lines ls).


(** ** Renaming the lines *)

Fixpoint rename_expr (m : list (string * string)) (e : expr) : expr :=
  match e with
  | EInt z => EInt z
  | EVar x => EVar (rename_word m x)
  | ESize v => ESize (rename_word m v)
  | EIndex v e => EIndex (rename_word m v) (rename_expr m e)
  | EBin op e1 e2 => EBin op (rename_expr m e1) (rename_expr m e2)
  | EParen e => EParen (rename_expr m e)
  end.

Definition rename_simple (m : list (string * string)) (s : simple) : simple :=
  match s with
  | SAssign x e => SAssign (rename_word m x) (rename_expr m e)
  | SReturn e => SReturn (rename_expr m e)
  end.

Definition rename_line (m : list (string * string)) (l : line) : line :=
  match l with
  | LDecl ds => LDecl ((fun d => (rename_word m (fst d), rename_expr m (snd d))) <$> ds)
  | LWhile c => LWhile (rename_expr m c)
  | LClose => LClose
  | LIf c s => LIf (rename_expr m c) (rename_simple m s)
  | LElse s => LElse (rename_simple m s)
  | LSimple s => LSimple (rename_simple m s)
  end.

(** ** Auxiliary definitions for the proofs about the shuffled clones *)




(** The renamings that take the identifiers of the two shuffled clones to
    those of [solveoom]. *)
Definition to_solveoom_015 : list (string * string) :=
  [("vecb", "numbers"); ("goalb", "threshold")]%string.

Definition to_solveoom_021 : list (string * string) :=
  [("numbersa", "numbers"); ("goala", "threshold")]%string.



(** ** Auxiliary definitions for the proofs about maximum subarrays *)

(** The maximum over the differences of two prefix sums. *)
Definition max_prefix_diff (nums : list Z) (m : Z) : Prop :=
  (exists i j, 0 <= i < j /\ j <= vsize nums /\
               m = prefix_sum nums j - prefix_sum nums i) /\
  (forall i j, 0 <= i < j -> j <= vsize nums ->
               prefix_sum nums j - prefix_sum nums i <= m).

(** One round of [for (int x : nums)] in max_subarray_12 under exact
    arithmetic. *)
Definition kadane_step (st : Z * Z) (x : Z) : Z * Z :=
  let sum := Z.max x (fst st + x) in (sum, Z.max (snd st) sum).

(** After [p >= 1] rounds: [cur] is the best sum of a subarray ending at
    position [p - 1], [best] the best sum of a subarray inside the first [p]
    elements. *)
Definition kadane_inv (nums : list Z) (p : Z) (st : Z * Z) : Prop :=
  (exists i, 0 <= i < p /\ fst st = prefix_sum nums p - prefix_sum nums i) /\
  (forall i, 0 <= i < p -> prefix_sum nums p - prefix_sum nums i <= fst st) /\
  (exists i j, 0 <= i < j /\ j <= p /\
               snd st = prefix_sum nums j - prefix_sum nums i) /\
  (forall i j, 0 <= i < j -> j <= p ->
               prefix_sum nums j - prefix_sum nums i <= snd st).

(** One round of the loop of max_subarray_02 under exact arithmetic, on the
    state [(sum, maxi)]. *)
Definition reset_step (st : Z * Z) (x : Z) : Z * Z :=
  let sum := fst st + x in
  let maxi := Z.max sum (snd st) in
  (if sum <? 0 then 0 else sum, maxi).

(** One round of the loop of max_subarray_09, on the state [(maxSum, sum)]. *)
Definition ifelse_step (st : Z * Z) (x : Z) : Z * Z :=
  let sum := if snd st + x >=? x then snd st + x else x in
  (Z.max (fst st) sum, sum).

(* ================================================================== *)
(** * Linear search, maximum subarray with prefix sums, matrix product *)
(* ================================================================== *)

(** codespectra/dsa_dataset/linear_search.cpp *)
Module linear_search.

Definition linearSearch (fuel : nat) (arr : list Z) (target : Z) : outcome Z :=
  let* c :=
    for_loop fuel (lt_size arr) incr
      (fun i (_ : unit) =>
         let* x := read arr i in
         if x =? target then Ret (Return i) else Ret (Continue tt))
      0 tt in
  match c with
  | Return r => Ret r
  | Continue _ => Ret (-1)
  end.

End linear_search.

(** The answer of a search from the front among the first [m] elements:
    the first position of [target], or -1 when it is at none of them. *)
Definition first_index (m : Z) (v : list Z) (target r : Z) : Prop :=
  (0 <= r < m /\ vec_at v r = Some target /\
   forall k, 0 <= k < r -> vec_at v k <> Some target) \/
  (r = -1 /\ forall k, 0 <= k < m -> vec_at v k <> Some target).

(** analysis-engine/data/uploads/batch_1769363621/max_subarray_15.cpp;
    [for (int num : nums)] walks the elements and indexes nothing. *)
Module max_subarray_15.
Section WithArith.
Context {IM : IntModel}.

Definition maxSubArray (nums : list Z) : outcome Z :=
  Ret (snd (fold_left
              (fun '(curSum, globalMax) num =>
                 let curSum := iadd curSum num in
                 let globalMax := Z.max globalMax curSum in
                 let curSum := if curSum <? 0 then 0 else curSum in
                 (curSum, globalMax))
              nums (0, INT_MIN))).
End WithArith.
End max_subarray_15.

(** No sum of a non-empty contiguous subarray of [nums] leaves the range of
    [int]. *)
Definition sums_fit (nums : list Z) : Prop :=
  forall i j, (i <= j < length nums)%nat -> in_int (subarray_sum nums i j).

(** The three loop bodies of the Kadane variants on 32-bit [int]s:
    max_subarray_12 (and solvegpw), max_subarray_02 (and max_subarray_15),
    max_subarray_09. *)
Definition kadane_step32 (st : Z * Z) (x : Z) : Z * Z :=
  let sum := Z.max x (add32 (fst st) x) in (sum, Z.max (snd st) sum).

Definition reset_step32 (st : Z * Z) (x : Z) : Z * Z :=
  let sum := add32 (fst st) x in
  let maxi := Z.max sum (snd st) in
  (if sum <? 0 then 0 else sum, maxi).

Definition ifelse_step32 (st : Z * Z) (x : Z) : Z * Z :=
  let sum := if add32 (snd st) x >=? x then add32 (snd st) x else x in
  (Z.max (fst st) sum, sum).

(** analysis-engine/data/uploads/batch_1769356634/max_subarray_10.cpp *)
Module max_subarray_10.

(** [long long]: 64 bits, two's complement. *)
Definition wrap64 (z : Z) : Z :=
  (z + 9223372036854775808) mod 18446744073709551616 - 9223372036854775808.

(** How a call ends: with [return r], or with the [std::length_error] that
    the constructor of [f] throws. *)
Inductive completion : Type :=
| Returned (r : Z)
| LengthError.

(** [vector<long long>::max_size()].  The count passed to the constructor
    is an [int] converted to [size_t], so it is below 2^31 or at least
    2^64 - 2^31, and every implementation has [max_size()] in between. *)
Definition max_size : Z := 1152921504606846975.

Definition maxSubArray (fuel : nat) (nums : list Z) : outcome completion :=
  let n := @isize machine nums in
  let count := wrap64u (add32 n 1) in
  if max_size <? count then Ret LengthError else
  let f := replicate (Z.to_nat count) 0 in
  let* f :=
    fallthrough
      (for_loop fuel (fun i => i <=? n) incr
         (fun i f =>
            let* a := read f (sub32 i 1) in
            let* x := read nums (sub32 i 1) in
            let* f := write f i (wrap64 (a + x)) in
            Ret (Continue f))
         1 f) in
  let* st :=
    fallthrough
      (for_loop fuel (fun i => i <=? n) incr
         (fun i '(ans, min_left) =>
            let* fi := read f i in
            let ans := Z.max ans (wrap64 (fi - min_left)) in
            let* fi := read f i in
            let min_left := Z.min min_left fi in
            Ret (Continue (ans, min_left)))
         1 (-1000000000000000000, 0)) in
  Ret (Returned (wrap32 (fst st))).

End max_subarray_10.

(** [a * b] on [int]. *)
Definition mul32 (a b : Z) : Z := wrap32 (a * b).

(** A checked read [m[i][j]] of a two-dimensional array. *)
Definition read2 (m : list (list Z)) (i j : Z) : outcome Z :=
  match (if 0 <=? i then m !! Z.to_nat i else None) with
  | Some row => read row j
  | None => Fault (OutOfBounds i)
  end.

(** A checked write [m[i][j] = x]. *)
Definition write2 (m : list (list Z)) (i j x : Z) : outcome (list (list Z)) :=
  match (if 0 <=? i then m !! Z.to_nat i else None) with
  | Some row => let* row := write row j x in Ret (<[Z.to_nat i := row]> m)
  | None => Fault (OutOfBounds i)
  end.

(** analysis-engine/data/uploads/batch_1767042038/Student_10_Matrix.cpp *)
Module Student_10_Matrix.

Definition r1 : Z := 2.
Definition c1 : Z := 2.
Definition r2 : Z := 2.
Definition c2 : Z := 2.
Definition m1 : list (list Z) := [[1; 2]; [3; 4]].
Definition m2 : list (list Z) := [[5; 6]; [7; 8]].

(** The multiplication loop of [main]; [res] is what the array holds when
    the loop starts. *)
Definition multiply (fuel : nat) (m1 m2 res : list (list Z))
  : outcome (list (list Z)) :=
  fallthrough
    (for_loop fuel (fun i => i <? r1) incr
       (fun i res =>
          for_loop fuel (fun j => j <? c2) incr
            (fun j res =>
               let* res := write2 res i j 0 in
               let* res :=
                 fallthrough
                   (for_loop fuel (fun k => k <? c1) incr
                      (fun k res =>
                         let* a := read2 m1 i k in
                         let* b := read2 m2 k j in
                         let* r := read2 res i j in
                         let* res := write2 res i j (add32 r (mul32 a b)) in
                         Ret (Continue res))
                      0 res) in
               Ret (Continue res))
            0 res)
       0 res).

(** [main], started with [res] holding [res0]: the array after the loops,
    what was printed, the exit code. *)
Definition main (fuel : nat) (res0 : list (list Z))
  : outcome (list (list Z) * string * Z) :=
  let* res := multiply fuel m1 m2 res0 in
  let out := print_line EmptyString "Output Matrix: " in
  let* out :=
    fallthrough
      (for_loop fuel (fun i => i <? r1) incr
         (fun i out =>
            for_loop fuel (fun j => j <? c2) incr
              (fun j out =>
                 let* x := read2 res i j in
                 Ret (Continue (print_elem out x)))
              0 out)
         0 out) in
  Ret (res, out, 0).

End Student_10_Matrix.

(* ================================================================== *)
(** * Lists that do not end in [NULL] *)
(* ================================================================== *)

(** The nodes [addrs] lead from [p] to the pointer [q], which need not be
    [NULL]. *)
Fixpoint segment (h : gmap nat reverse_linked_list_student004.ListNode)
    (p : reverse_linked_list_student004.ptr) (addrs : list nat)
    (q : reverse_linked_list_student004.ptr) : Prop :=
  match addrs with
  | [] => p = q
  | a :: addrs' =>
      p = Some a /\
      exists node, h !! a = Some node /\
                   segment h (reverse_linked_list_student004.next node) addrs' q
  end.

(* ================================================================== *)
(** * The other shuffled files *)
(* ================================================================== *)

(** binary_search_student030_clone1.cpp, lines 6 to 15 *)
Definition solveu_clonefh_lines : func :=
  {| f_name := "solveu_clonefh"; f_vec := "numbersa"; f_int := "thresholda";
     f_body :=
       [ LWhile (EBin Le (EVar "left") (EVar "right"));
         LIf (EBin Eq (EIndex "numbersa" (EVar "mid")) (EVar "thresholda"))
             (SReturn (EVar "mid"));
         LDecl [("mid", EBin Add (EVar "left")
                          (EBin Div (EParen (EBin Sub (EVar "right") (EVar "left")))
                                    (EInt 2)))];
         LDecl [("left", EInt 0); ("right", EBin Sub (ESize "numbersa") (EInt 1))];
         LIf (EBin Lt (EIndex "numbersa" (EVar "mid")) (EVar "thresholda"))
             (SAssign "left" (EBin Add (EVar "mid") (EInt 1)));
         LElse (SAssign "right" (EBin Sub (EVar "mid") (EInt 1)));
         LClose;
         LSimple (SReturn (EInt (-1))) ] |}.

(** binary_search_student032_clone1.cpp, lines 6 to 15 *)
Definition solvefth_clonefe_lines : func :=
  {| f_name := "solvefth_clonefe"; f_vec := "lista"; f_int := "sum_vala";
     f_body :=
       [ LDecl [("mid", EBin Add (EVar "left")
                          (EBin Div (EParen (EBin Sub (EVar "right") (EVar "left")))
                                    (EInt 2)))];
         LIf (EBin Eq (EIndex "lista" (EVar "mid")) (EVar "sum_vala"))
             (SReturn (EVar "mid"));
         LDecl [("left", EInt 0); ("right", EBin Sub (ESize "lista") (EInt 1))];
         LWhile (EBin Le (EVar "left") (EVar "right"));
         LIf (EBin Lt (EIndex "lista" (EVar "mid")) (EVar "sum_vala"))
             (SAssign "left" (EBin Add (EVar "mid") (EInt 1)));
         LElse (SAssign "right" (EBin Sub (EVar "mid") (EInt 1)));
         LClose;
         LSimple (SReturn (EInt (-1))) ] |}.

(** binary_search_student044_clone2.cpp, lines 6 to 15 *)
Definition solvehj_cloneqdc_lines : func :=
  {| f_name := "solvehj_cloneqdc"; f_vec := "datasetb"; f_int := "destb";
     f_body :=
       [ LDecl [("left", EInt 0); ("right", EBin Sub (ESize "datasetb") (EInt 1))];
         LDecl [("mid", EBin Add (EVar "left")
                          (EBin Div (EParen (EBin Sub (EVar "right") (EVar "left")))
                                    (EInt 2)))];
         LWhile (EBin Le (EVar "left") (EVar "right"));
         LElse (SAssign "right" (EBin Sub (EVar "mid") (EInt 1)));
         LIf (EBin Eq (EIndex "datasetb" (EVar "mid")) (EVar "destb"))
             (SReturn (EVar "mid"));
         LClose;
         LIf (EBin Lt (EIndex "datasetb" (EVar "mid")) (EVar "destb"))
             (SAssign "left" (EBin Add (EVar "mid") (EInt 1)));
         LSimple (SReturn (EInt (-1))) ] |}.

(** The five shuffled files as lines, each with its text and with the
    renaming of its two parameters to those of [solveoom]. *)
Definition shuffled_lines : list (func * string * list (string * string)) :=
  [ (solvejd_cloneib_lines, binary_search_student015_clone2_cpp, to_solveoom_015);
    (solveex_clonea_lines, binary_search_student021_clone1_cpp, to_solveoom_021);
    (solveu_clonefh_lines, binary_search_student030_clone1_cpp,
     [("numbersa", "numbers"); ("thresholda", "threshold")]%string);
    (solvefth_clonefe_lines, binary_search_student032_clone1_cpp,
     [("lista", "numbers"); ("sum_vala", "threshold")]%string);
    (solvehj_cloneqdc_lines, binary_search_student044_clone2_cpp,
     [("datasetb", "numbers"); ("destb", "threshold")]%string) ].

(** [f] as written is not accepted: its lines are no statements, or a name
    is used outside the scope of its declaration. *)
Definition rejected (f : func) : bool :=
  match parse (f_body f) with
  | Some ss => negb (scoped [f_int f; f_vec f] ss)
  | None => true
  end.

(* ================================================================== *)
(* ================================================================== *)
(** * Lemmas and theorems *)
(* ================================================================== *)
(* ================================================================== *)


(* ================================================================== *)
(** * Facts on machine integers and vectors *)
(* ================================================================== *)

Lemma wrap32_small z : in_int z -> wrap32 z = z.
Proof.
  unfold in_int, wrap32, INT_MIN, INT_MAX. intros H.
  rewrite Z.mod_small; lia.
Qed.

Lemma wrap32_range z : in_int (wrap32 z).
Proof.
  unfold in_int, wrap32, INT_MIN, INT_MAX.
  pose proof (Z.mod_pos_bound (z + 2147483648) 4294967296). lia.
Qed.

Lemma add32_small a b : in_int (a + b) -> add32 a b = a + b.
Proof. apply wrap32_small. Qed.

Lemma sub32_small a b : in_int (a - b) -> sub32 a b = a - b.
Proof. apply wrap32_small. Qed.

Lemma div32_2_nonneg a : 0 <= a <= INT_MAX -> div32 a 2 = a / 2.
Proof.
  intros H. unfold div32. rewrite Z.quot_div_nonneg by lia.
  apply wrap32_small. unfold in_int, INT_MIN, INT_MAX in *.
  pose proof (Z.div_pos a 2). pose proof (Z.div_le_upper_bound a 2 a). lia.
Qed.

Lemma size_minus_1_small v : vsize v <= INT_MAX + 1 -> size_minus_1 v = vsize v - 1.
Proof.
  unfold size_minus_1, wrap64u, vsize, INT_MAX. intros H.
  destruct v as [|x v].
  - reflexivity.
  - rewrite Z.mod_small by (cbn [length] in *; lia).
    apply wrap32_small. unfold in_int, INT_MIN, INT_MAX. cbn [length] in *; lia.
Qed.

Lemma vec_at_Some v i x : vec_at v i = Some x -> 0 <= i < vsize v.
Proof.
  unfold vec_at, vsize. destruct (Z.leb_spec 0 i); [|discriminate].
  intros H1. apply lookup_lt_Some in H1. lia.
Qed.

Lemma vec_at_in_bounds v i : 0 <= i < vsize v -> exists x, vec_at v i = Some x.
Proof.
  unfold vec_at, vsize. intros H. destruct (Z.leb_spec 0 i); [|lia].
  destruct (lookup_lt_is_Some_2 v (Z.to_nat i)) as [x Hx]; [lia|]. eauto.
Qed.

Lemma vec_at_nil i : vec_at [] i = None.
Proof. unfold vec_at. destruct (0 <=? i); reflexivity. Qed.

Lemma vec_at_replicate n x i :
  0 <= i < Z.of_nat n -> vec_at (replicate n x) i = Some x.
Proof.
  intros H. unfold vec_at. destruct (Z.leb_spec 0 i); [|lia].
  apply lookup_replicate_2. lia.
Qed.

(** Index form of sortedness. *)
Lemma Sorted_vec_at v i j x y :
  Sorted Z.le v -> i <= j -> vec_at v i = Some x -> vec_at v j = Some y -> x <= y.
Proof.
  intros Hs. apply Sorted_StronglySorted in Hs; [|intros a b c; lia].
  revert i j. induction Hs as [|a l Hl IH Ha]; intros i j Hij Hi Hj.
  - rewrite vec_at_nil in Hi. discriminate.
  - pose proof (vec_at_Some _ _ _ Hi) as Bi. pose proof (vec_at_Some _ _ _ Hj) as Bj.
    unfold vec_at in Hi, Hj.
    destruct (Z.leb_spec 0 i); [|lia]. destruct (Z.leb_spec 0 j); [|lia].
    destruct (Z.to_nat i) as [|i'] eqn:Ei, (Z.to_nat j) as [|j'] eqn:Ej;
      cbn in Hi, Hj.
    + assert (x = y) by congruence. lia.
    + injection Hi as <-. rewrite Forall_forall in Ha. apply Ha.
      apply list_elem_of_lookup. eauto.
    + lia.
    + apply (IH (Z.of_nat i') (Z.of_nat j')); [lia| |];
        unfold vec_at; (destruct (Z.leb_spec 0 (Z.of_nat i')); [|lia]);
        (destruct (Z.leb_spec 0 (Z.of_nat j')); [|lia]);
        rewrite Nat2Z.id; assumption.
Qed.

(* ================================================================== *)
(** * Binary search: the loop *)
(* ================================================================== *)

(** The midpoint of [solveoom] inside the loop, without wrap-around. *)
Lemma solveoom_mid left right :
  0 <= left <= right -> right <= INT_MAX ->
  add32 left (div32 (sub32 right left) 2) = left + (right - left) / 2.
Proof.
  intros H1 H2. unfold INT_MAX in *.
  rewrite sub32_small by (unfold in_int, INT_MIN, INT_MAX; lia).
  rewrite div32_2_nonneg by (unfold INT_MAX; lia).
  apply add32_small. unfold in_int, INT_MIN, INT_MAX.
  pose proof (Z.div_pos (right - left) 2).
  pose proof (Z.div_le_upper_bound (right - left) 2 (right - left)). lia.
Qed.

(** The midpoint of [searchBinary]: exact as long as [start + end] fits. *)
Lemma searchBinary_mid start end_ :
  0 <= start <= end_ -> start + end_ <= INT_MAX ->
  div32 (add32 start end_) 2 = start + (end_ - start) / 2.
Proof.
  intros H1 H2. unfold INT_MAX in *.
  rewrite add32_small by (unfold in_int, INT_MIN, INT_MAX; lia).
  rewrite div32_2_nonneg by (unfold INT_MAX; lia).
  replace (start + end_) with ((end_ - start) + start * 2) by lia.
  rewrite Z.div_add by lia. lia.
Qed.

Lemma mid_between left right :
  left <= right -> left <= left + (right - left) / 2 <= right.
Proof.
  intros H. pose proof (Z.div_pos (right - left) 2).
  pose proof (Z.div_le_upper_bound (right - left) 2 (right - left)). lia.
Qed.

(** What the loop of [solveoom] returns from a state [left, right] inside a
    vector that [int] can index: it stops within [right - left + 2]
    iterations, never leaves the vector, and returns either a position of
    [threshold] in [left .. right] or -1; on a sorted vector whose elements
    before [left] are smaller and after [right] are larger than [threshold],
    -1 means that [threshold] is nowhere in the vector. *)
Lemma solveoom_loop_spec fuel numbers threshold : forall left right,
  vsize numbers <= INT_MAX ->
  0 <= left -> right < vsize numbers -> left <= right + 1 ->
  (Z.to_nat (right - left + 1) < fuel)%nat ->
  exists r, solveoom_loop fuel numbers threshold left right = Ret r /\
    ((left <= r <= right /\ vec_at numbers r = Some threshold) \/
     (r = -1 /\
      (Sorted Z.le numbers ->
       (forall k x, k < left -> vec_at numbers k = Some x -> x < threshold) ->
       (forall k x, right < k -> vec_at numbers k = Some x -> threshold < x) ->
       forall k, vec_at numbers k <> Some threshold))).
Proof.
  induction fuel as [|fuel IH]; intros left right Hn Hl Hr Hlr Hf; [lia|].
  cbn [solveoom_loop].
  destruct (Z.leb_spec left right) as [Hle|Hgt].
  - rewrite solveoom_mid by (unfold INT_MAX in *; lia).
    pose proof (mid_between left right Hle) as Hm.
    set (mid := left + (right - left) / 2) in *.
    destruct (vec_at_in_bounds numbers mid) as [x Hx]; [lia|]. rewrite Hx.
    destruct (Z.eqb_spec x threshold) as [->|Hne].
    + exists mid. split; [reflexivity|]. left. split; [lia|assumption].
    + destruct (Z.ltb_spec x threshold) as [Hlt|Hge].
      * rewrite add32_small by (unfold in_int, INT_MIN, INT_MAX in *; lia).
        destruct (IH (mid + 1) right) as [r [Hrun Hres]]; try lia.
        exists r. split; [exact Hrun|].
        destruct Hres as [[Hb Hv]|[-> Hno]]; [left; split; [lia|assumption]|].
        right. split; [reflexivity|]. intros Hs Hbelow Habove.
        apply Hno; [assumption| |assumption].
        intros k y Hk Hy.
        pose proof (vec_at_Some _ _ _ Hy).
        assert (y <= x) by (apply (Sorted_vec_at numbers k mid); auto; lia). lia.
      * rewrite sub32_small by (unfold in_int, INT_MIN, INT_MAX in *; lia).
        destruct (IH left (mid - 1)) as [r [Hrun Hres]]; try lia.
        exists r. split; [exact Hrun|].
        destruct Hres as [[Hb Hv]|[-> Hno]]; [left; split; [lia|assumption]|].
        right. split; [reflexivity|]. intros Hs Hbelow Habove.
        apply Hno; [assumption|assumption|].
        intros k y Hk Hy.
        pose proof (vec_at_Some _ _ _ Hy).
        assert (x <= y) by (apply (Sorted_vec_at numbers mid k); auto; lia). lia.
  - exists (-1). split; [reflexivity|]. right. split; [reflexivity|].
    intros Hs Hbelow Habove k Hk.
    destruct (Z.lt_ge_cases k left) as [Hkl|Hkl].
    + specialize (Hbelow k threshold Hkl Hk). lia.
    + assert (right < k) as Hkr by lia. specialize (Habove k threshold Hkr Hk). lia.
Qed.

(** Below 2^30 elements the two loops are the same function. *)
Lemma searchBinary_loop_solveoom_loop fuel nums value : forall start end_,
  vsize nums <= 1073741824 ->
  0 <= start -> end_ < vsize nums -> start <= end_ + 1 ->
  searchBinary_loop fuel nums value start end_
  = solveoom_loop fuel nums value start end_.
Proof.
  induction fuel as [|fuel IH]; intros start end_ Hn Hs He Hse; [reflexivity|].
  cbn [searchBinary_loop solveoom_loop].
  destruct (Z.leb_spec start end_) as [Hle|Hgt]; [|reflexivity].
  rewrite searchBinary_mid by (unfold INT_MAX; lia).
  rewrite solveoom_mid by (unfold INT_MAX; lia).
  pose proof (mid_between start end_ Hle) as Hm.
  set (mid := start + (end_ - start) / 2) in *.
  destruct (vec_at nums mid) as [x|]; [|reflexivity].
  destruct (x =? value); [reflexivity|].
  rewrite add32_small by (unfold in_int, INT_MIN, INT_MAX; lia).
  rewrite sub32_small by (unfold in_int, INT_MIN, INT_MAX; lia).
  destruct (x <? value); apply IH; lia.
Qed.

(** ** Vectors beyond the reach of [int] arithmetic *)

(** [searchBinary] on 2^30 + 1 zeros, looking for 1: [start] climbs to
    [end = 2^30], [start + end] wraps to [INT_MIN] and the access
    [nums[-2^30]] is out of bounds. *)
Lemma searchBinary_loop_zeros (n : nat) fuel : forall start,
  Z.of_nat n = 1073741825 -> 0 <= start <= 1073741824 ->
  searchBinary_loop fuel (replicate n 0) 1 start 1073741824 = OutOfFuel \/
  searchBinary_loop fuel (replicate n 0) 1 start 1073741824
  = Fault (OutOfBounds (-1073741824)).
Proof.
  induction fuel as [|fuel IH]; intros start Hn Hs; [left; reflexivity|].
  cbn [searchBinary_loop].
  destruct (Z.leb_spec start 1073741824) as [_|?]; [|lia].
  destruct (Z.eq_dec start 1073741824) as [->|Hne].
  - right. change (div32 (add32 1073741824 1073741824) 2) with (-1073741824).
    reflexivity.
  - rewrite searchBinary_mid by (unfold INT_MAX; lia).
    pose proof (mid_between start 1073741824 ltac:(lia)) as Hm.
    set (mid := start + (1073741824 - start) / 2) in *.
    assert (mid < 1073741824) as Hlt.
    { subst mid. pose proof (Z.div_lt_upper_bound (1073741824 - start) 2
                               (1073741824 - start)). lia. }
    rewrite vec_at_replicate by lia. cbn [Z.eqb Z.ltb Z.compare].
    rewrite add32_small by (unfold in_int, INT_MIN, INT_MAX; lia).
    apply IH; [assumption|lia].
Qed.

Lemma searchBinary_loop_zeros_stops (n : nat) fuel : forall start,
  Z.of_nat n = 1073741825 -> 0 <= start <= 1073741824 ->
  (Z.to_nat (1073741824 - start) < fuel)%nat ->
  searchBinary_loop fuel (replicate n 0) 1 start 1073741824
  = Fault (OutOfBounds (-1073741824)).
Proof.
  induction fuel as [|fuel IH]; intros start Hn Hs Hf; [lia|].
  cbn [searchBinary_loop].
  destruct (Z.leb_spec start 1073741824) as [_|?]; [|lia].
  destruct (Z.eq_dec start 1073741824) as [->|Hne].
  - change (div32 (add32 1073741824 1073741824) 2) with (-1073741824).
    reflexivity.
  - rewrite searchBinary_mid by (unfold INT_MAX; lia).
    pose proof (mid_between start 1073741824 ltac:(lia)) as Hm.
    set (mid := start + (1073741824 - start) / 2) in *.
    assert (mid < 1073741824) as Hlt.
    { subst mid. pose proof (Z.div_lt_upper_bound (1073741824 - start) 2
                               (1073741824 - start)). lia. }
    rewrite vec_at_replicate by lia. cbn [Z.eqb Z.ltb Z.compare].
    rewrite add32_small by (unfold in_int, INT_MIN, INT_MAX; lia).
    apply IH; [assumption|lia|lia].
Qed.

(** [solveoom] on 2^31 zeros, looking for 1: [left] climbs to
    [right = INT_MAX], [mid + 1] wraps to [INT_MIN], and the next midpoint
    is [INT_MIN], out of bounds. *)
Lemma solveoom_loop_zeros (n : nat) fuel : forall lo,
  Z.of_nat n = 2147483648 -> (0 <= lo <= INT_MAX \/ lo = INT_MIN) ->
  solveoom_loop fuel (replicate n 0) 1 lo INT_MAX = OutOfFuel \/
  solveoom_loop fuel (replicate n 0) 1 lo INT_MAX = Fault (OutOfBounds INT_MIN).
Proof.
  induction fuel as [|fuel IH]; intros lo Hn Hl; [left; reflexivity|].
  cbn [solveoom_loop].
  destruct (Z.leb_spec lo INT_MAX) as [_|?]; [|unfold INT_MAX, INT_MIN in *; lia].
  destruct Hl as [Hl| ->].
  - rewrite solveoom_mid by lia.
    pose proof (mid_between lo INT_MAX ltac:(lia)) as Hm.
    set (mid := lo + (INT_MAX - lo) / 2) in *.
    rewrite vec_at_replicate by (unfold INT_MAX in *; lia).
    cbn [Z.eqb Z.ltb Z.compare].
    apply IH; [assumption|].
    destruct (Z.eq_dec mid INT_MAX) as [->|Hne].
    + right. reflexivity.
    + left. rewrite add32_small by (unfold in_int, INT_MIN, INT_MAX in *; lia).
      unfold INT_MAX in *. lia.
  - right. change (add32 INT_MIN (div32 (sub32 INT_MAX INT_MIN) 2)) with INT_MIN.
    reflexivity.
Qed.

Lemma vsize_zeros n : 0 <= n -> vsize (zeros n) = n.
Proof. intros H. unfold vsize, zeros. rewrite length_replicate. lia. Qed.

Lemma Sorted_replicate n (x : Z) : Sorted Z.le (replicate n x).
Proof.
  induction n as [|k IH]; cbn.
  - constructor.
  - constructor; [exact IH|]. destruct k; cbn; constructor. lia.
Qed.

Lemma In_replicate n (x : Z) : (0 < n)%nat -> In x (replicate n x).
Proof. destruct n; [lia|]. left. reflexivity. Qed.

Lemma not_In_replicate n (x y : Z) : x <> y -> ~ In y (replicate n x).
Proof.
  intros H Hin. apply list_elem_of_In, elem_of_replicate in Hin.
  destruct Hin. congruence.
Qed.

Lemma In_vec_at v x : In x v <-> exists k, vec_at v k = Some x.
Proof.
  rewrite <- list_elem_of_In, list_elem_of_lookup. split.
  - intros [i Hi]. exists (Z.of_nat i). unfold vec_at.
    destruct (Z.leb_spec 0 (Z.of_nat i)); [|lia]. rewrite Nat2Z.id. exact Hi.
  - intros [k Hk]. unfold vec_at in Hk. destruct (0 <=? k); [eauto|discriminate].
Qed.

Lemma solveoom_loop_more_fuel fuel numbers threshold : forall lo hi r extra,
  solveoom_loop fuel numbers threshold lo hi = Ret r ->
  solveoom_loop (fuel + extra) numbers threshold lo hi = Ret r.
Proof.
  induction fuel as [|fuel IH]; intros lo hi r extra H; [discriminate|].
  cbn [solveoom_loop Nat.add] in *.
  destruct (lo <=? hi); [|exact H].
  destruct (vec_at numbers _) as [x|]; [|discriminate].
  destruct (x =? threshold); [exact H|].
  destruct (x <? threshold); apply IH; exact H.
Qed.

(** [solveoom] on a vector that [int] can index. *)
Lemma solveoom_spec numbers threshold :
  vsize numbers <= INT_MAX ->
  exists r,
    (forall fuel, (length numbers < fuel)%nat -> solveoom fuel numbers threshold = Ret r) /\
    ((0 <= r /\ vec_at numbers r = Some threshold) \/
     (r = -1 /\ (Sorted Z.le numbers -> ~ In threshold numbers))).
Proof.
  intros Hn. unfold solveoom.
  rewrite size_minus_1_small by lia.
  destruct (solveoom_loop_spec (S (length numbers)) numbers threshold 0
              (vsize numbers - 1)) as [r [Hrun Hres]];
    try (unfold vsize in *; lia).
  exists r. split.
  - intros fuel Hf.
    replace fuel with (S (length numbers) + (fuel - S (length numbers)))%nat by lia.
    apply solveoom_loop_more_fuel. exact Hrun.
  - destruct Hres as [[Hb Hv]|[-> Hno]]; [left; split; [lia|assumption]|].
    right. split; [reflexivity|]. intros Hs Hin.
    apply In_vec_at in Hin as [k Hk]. revert Hk. apply Hno; [assumption| |].
    + intros j x Hj Hx. apply vec_at_Some in Hx. lia.
    + intros j x Hj Hx. apply vec_at_Some in Hx. lia.
Qed.

(** [searchBinary] below 2^30 elements is [solveoom]. *)
Lemma searchBinary_solveoom fuel nums value :
  vsize nums <= 1073741824 ->
  searchBinary fuel nums value = solveoom fuel nums value.
Proof.
  intros Hn. unfold searchBinary, solveoom.
  rewrite size_minus_1_small by (unfold INT_MAX; lia).
  apply searchBinary_loop_solveoom_loop; unfold vsize in *; lia.
Qed.

Lemma found_or_absent_of v target r :
  Sorted Z.le v ->
  (0 <= r /\ vec_at v r = Some target) \/ (r = -1 /\ (Sorted Z.le v -> ~ In target v)) ->
  found_or_absent v target r.
Proof.
  intros Hs [[Hr Hv]|[-> Hno]]; split; intros H.
  - split; assumption.
  - exfalso. apply H, In_vec_at. eauto.
  - exfalso. exact (Hno Hs H).
  - reflexivity.
Qed.

(* ================================================================== *)
(** * Binary search: correctness and safety *)
(* ================================================================== *)

(** C4, as amended: on every sorted vector that [int] can index (at most
    2^31 - 1 elements) [solveoom] returns within [size + 1] loop tests a
    position of the target when the target occurs and -1 when it does
    not. *)
Theorem binary_search_correct (v : list Z) (target : Z) :
  Sorted Z.le v -> vsize v <= INT_MAX ->
  exists r, (forall fuel, (length v < fuel)%nat -> solveoom fuel v target = Ret r) /\
            found_or_absent v target r.
Proof.
  intros Hs Hn. destruct (solveoom_spec v target Hn) as [r [Hrun Hres]].
  exists r. split; [exact Hrun|]. apply found_or_absent_of; assumption.
Qed.

Lemma binary_search_correct_witness :
  exists r, (forall fuel, (length [2; 4; 6; 8] < fuel)%nat ->
             solveoom fuel [2; 4; 6; 8] 6 = Ret r) /\
            found_or_absent [2; 4; 6; 8] 6 r.
Proof.
  apply (binary_search_correct [2; 4; 6; 8] 6).
  - repeat constructor; lia.
  - unfold vsize, INT_MAX; simpl; lia.
Defined.

(** C4 fails on a vector that [int] cannot index: on 2^31 + 1 zeros the
    size minus one does not fit [right] (nor [end]), the loop is not
    entered, and both functions answer -1 for the target 0, which is
    there. *)
Lemma binary_search_correct_counterexample :
  Sorted Z.le (zeros 2147483649) /\ In 0 (zeros 2147483649) /\
  (forall fuel, solveoom (S fuel) (zeros 2147483649) 0 = Ret (-1)) /\
  (forall fuel, searchBinary (S fuel) (zeros 2147483649) 0 = Ret (-1)).
Proof.
  split; [apply Sorted_replicate|]. split; [apply In_replicate; lia|]. split.
  - intros fuel. unfold solveoom, size_minus_1.
    rewrite vsize_zeros by lia. reflexivity.
  - intros fuel. unfold searchBinary, size_minus_1.
    rewrite vsize_zeros by lia. reflexivity.
Qed.

(** [solveoom] on a vector of one value that is not the target. *)
Lemma solveoom_absent (n : nat) (x y : Z) :
  x <> y -> Z.of_nat n <= INT_MAX ->
  forall fuel, (n < fuel)%nat -> solveoom fuel (replicate n x) y = Ret (-1).
Proof.
  intros Hxy Hn.
  destruct (solveoom_spec (replicate n x) y) as [r [Hrun Hres]];
    [unfold vsize; rewrite length_replicate; exact Hn|].
  rewrite length_replicate in Hrun.
  assert (r = -1) as ->; [|exact Hrun].
  destruct Hres as [[_ Hv]|[-> _]]; [|reflexivity].
  exfalso. apply (not_In_replicate n x y Hxy). apply In_vec_at. eauto.
Qed.

(** Inside the vectors that [int] can index, the midpoint
    [(start + end) / 2] of [searchBinary] overflows: on 2^30 + 1 zeros and
    the target 1 the sum wraps, [searchBinary] reads [nums[-2^30]] and does
    not return, where [solveoom], whose midpoint is
    [left + (right - left) / 2], returns -1. *)
Lemma searchBinary_midpoint_overflow :
  (exists fuel, searchBinary fuel (zeros 1073741825) 1
                = Fault (OutOfBounds (-1073741824))) /\
  (forall fuel r, searchBinary fuel (zeros 1073741825) 1 <> Ret r) /\
  (forall fuel, 1073741825 < Z.of_nat fuel ->
                solveoom fuel (zeros 1073741825) 1 = Ret (-1)).
Proof.
  assert (size_minus_1 (zeros 1073741825) = 1073741824) as E1
    by (rewrite size_minus_1_small; rewrite vsize_zeros; unfold INT_MAX; lia).
  split; [|split].
  - exists (S (Z.to_nat 1073741824)). unfold searchBinary. rewrite E1.
    apply searchBinary_loop_zeros_stops; lia.
  - intros fuel r. unfold searchBinary. rewrite E1.
    destruct (searchBinary_loop_zeros (Z.to_nat 1073741825) fuel 0) as [H|H];
      [lia|lia| |]; unfold zeros; rewrite H; discriminate.
  - intros fuel Hf. apply solveoom_absent; unfold INT_MAX; lia.
Qed.

(** C8, as amended: on every vector that [int] can index (at most 2^31 - 1
    elements), whatever the contents and the target, [solveoom] returns
    within [size + 1] loop tests without an access out of bounds; on the
    empty vector the first loop test of [solveoom] and of [searchBinary]
    already fails and the result is -1. *)
Theorem binary_search_safe (v : list Z) (target : Z) :
  (vsize v <= INT_MAX ->
   exists r, forall fuel, (length v < fuel)%nat -> solveoom fuel v target = Ret r) /\
  (v = [] -> solveoom 1 v target = Ret (-1) /\ searchBinary 1 v target = Ret (-1)).
Proof.
  split.
  - intros Hn. destruct (solveoom_spec v target Hn) as [r [Hrun _]]. eauto.
  - intros ->. split; reflexivity.
Qed.

Lemma binary_search_safe_witness :
  exists r, forall fuel, (length [9; 1; 5] < fuel)%nat -> solveoom fuel [9; 1; 5] 7 = Ret r.
Proof.
  apply (binary_search_safe [9; 1; 5] 7). unfold vsize, INT_MAX; simpl; lia.
Defined.

(** C8 fails on a vector that [int] cannot index: on 2^31 zeros and the
    target 1 [solveoom] comes to [left = right = INT_MAX], goes on from
    there to read [numbers[INT_MIN]], and does not return. *)
Lemma binary_search_safe_counterexample :
  vsize (zeros 2147483648) = INT_MAX + 1 /\
  forall fuel r, solveoom fuel (zeros 2147483648) 1 <> Ret r.
Proof.
  assert (size_minus_1 (zeros 2147483648) = INT_MAX) as E2
    by (rewrite size_minus_1_small; rewrite vsize_zeros; unfold INT_MAX; lia).
  split; [rewrite vsize_zeros; unfold INT_MAX; lia|].
  intros fuel r. unfold solveoom. rewrite E2.
  destruct (solveoom_loop_zeros (Z.to_nat 2147483648) fuel 0) as [H|H];
    [lia|unfold INT_MAX; lia| |]; unfold zeros; rewrite H; discriminate.
Qed.

(* ================================================================== *)
(** * Reasoning about outcomes and counting loops *)
(* ================================================================== *)

Lemma returns_bind {A B : Type} (m : outcome A) (k : A -> outcome B) Q :
  returns m (fun a => returns (k a) Q) -> returns (let* a := m in k a) Q.
Proof. destruct m; cbn; auto. Qed.

Lemma returns_weaken {A : Type} (m : outcome A) (P Q : A -> Prop) :
  returns m P -> (forall a, P a -> Q a) -> returns m Q.
Proof. destruct m; cbn; auto. Qed.

Lemma returns_inv {A : Type} (m : outcome A) Q :
  returns m Q -> exists a, m = Ret a /\ Q a.
Proof. destruct m; cbn; [eauto|contradiction|contradiction]. Qed.

Lemma returns_fallthrough {S : Type} (m : outcome (ctl S Empty_set)) (Q : S -> Prop) :
  returns m (ctl_post Q (fun _ => False)) -> returns (fallthrough m) Q.
Proof. destruct m as [[s|r]| |]; cbn; auto. destruct r. Qed.

Lemma returns_read v i (Q : Z -> Prop) :
  (forall x, vec_at v i = Some x -> Q x) -> 0 <= i < vsize v -> returns (read v i) Q.
Proof.
  intros HQ Hi. unfold read. destruct (vec_at_in_bounds v i Hi) as [x Hx].
  rewrite Hx. cbn. auto.
Qed.

(** The rule for a loop that counts [lo, lo+1, ..., hi-1]: the counter holds
    [rep k] at the [k]-th position, the test holds below [hi] and fails at
    [hi], and the body carries the invariant from [k] to [k + 1] or returns. *)
Lemma for_loop_count {S R : Type} (Inv : Z -> S -> Prop) (Done : R -> Prop)
    (cond : Z -> bool) (step : Z -> Z) (body : Z -> S -> outcome (ctl S R))
    (rep : Z -> Z) (lo0 hi : Z) :
  (forall k, lo0 <= k < hi -> cond (rep k) = true) ->
  cond (rep hi) = false ->
  (forall k, lo0 <= k < hi -> step (rep k) = rep (k + 1)) ->
  (forall k s, lo0 <= k < hi -> Inv k s ->
     returns (body (rep k) s) (ctl_post (Inv (k + 1)) Done)) ->
  forall fuel lo i s,
    i = rep lo -> lo0 <= lo <= hi -> (Z.to_nat (hi - lo) < fuel)%nat -> Inv lo s ->
    returns (for_loop fuel cond step body i s) (ctl_post (Inv hi) Done).
Proof.
  intros Hcond Hexit Hstep Hbody.
  induction fuel as [|fuel IH]; intros lo i s -> Hlo Hf HI; [lia|].
  cbn [for_loop].
  destruct (Z.eq_dec lo hi) as [->|Hne].
  - rewrite Hexit. exact HI.
  - rewrite Hcond by lia.
    specialize (Hbody lo s ltac:(lia) HI).
    destruct (body (rep lo) s) as [[s'|r]| |]; cbn in Hbody; try contradiction.
    + apply (IH (lo + 1)); [apply Hstep; lia|lia|lia|exact Hbody].
    + exact Hbody.
Qed.

(** More fuel, for the loop and inside its body, does not change what a
    loop returns. *)
Lemma for_loop_more_fuel {S R : Type} (cond : Z -> bool) (step : Z -> Z)
    (body1 body2 : Z -> S -> outcome (ctl S R)) :
  (forall i s c, body1 i s = Ret c -> body2 i s = Ret c) ->
  forall f1 f2 i s c, (f1 <= f2)%nat ->
    for_loop f1 cond step body1 i s = Ret c ->
    for_loop f2 cond step body2 i s = Ret c.
Proof.
  intros Hbody. induction f1 as [|f1 IH]; intros f2 i s c Hf H; [discriminate|].
  destruct f2 as [|f2]; [lia|]. cbn [for_loop] in *.
  destruct (cond i); [|exact H].
  destruct (body1 i s) as [[s'|r]| |] eqn:E; try discriminate.
  - rewrite (Hbody _ _ _ E). apply IH; [lia|exact H].
  - rewrite (Hbody _ _ _ E). exact H.
Qed.

Lemma wrap32_add_l a b : wrap32 (wrap32 a + b) = wrap32 (a + b).
Proof.
  unfold wrap32.
  replace ((a + 2147483648) mod 4294967296 - 2147483648 + b + 2147483648)
    with ((a + 2147483648) mod 4294967296 + b) by lia.
  rewrite Z.add_mod_idemp_l by lia.
  replace (a + 2147483648 + b) with (a + b + 2147483648) by lia. reflexivity.
Qed.

Lemma incr_wrap32 k : incr (wrap32 k) = wrap32 (k + 1).
Proof. unfold incr, add32. apply wrap32_add_l. Qed.

(** [i < v.size()] on the counter of a loop over the first
    [min (size, 2^31)] positions. *)
Lemma lt_size_below v k :
  0 <= k < Z.min (vsize v) 2147483648 -> lt_size v (wrap32 k) = true.
Proof.
  intros H. unfold lt_size.
  rewrite wrap32_small by (unfold in_int, INT_MIN, INT_MAX; lia).
  unfold wrap64u. rewrite Z.mod_small by lia. apply Z.ltb_lt. lia.
Qed.

Lemma lt_size_at_end v :
  vsize v < 18446744071562067968 ->
  lt_size v (wrap32 (Z.min (vsize v) 2147483648)) = false.
Proof.
  intros Hmax. unfold lt_size. apply Z.ltb_ge.
  assert (0 <= vsize v) by (unfold vsize; lia).
  destruct (Z.lt_ge_cases (vsize v) 2147483648).
  - rewrite Z.min_l by lia.
    rewrite wrap32_small by (unfold in_int, INT_MIN, INT_MAX; lia).
    unfold wrap64u. rewrite Z.mod_small by lia. lia.
  - rewrite Z.min_r by lia.
    change (wrap64u (wrap32 2147483648)) with 18446744071562067968. lia.
Qed.

(* ================================================================== *)
(** * Two-sum *)
(* ================================================================== *)

Import two_sum_student001.

Lemma add32_comm x y : add32 x y = add32 y x.
Proof. unfold add32. f_equal. lia. Qed.

Lemma has_pair_is_pair m nums sum_val :
  has_pair m nums sum_val <-> exists i j, is_pair m nums sum_val i j.
Proof.
  split.
  - intros (i & j & x & y & Hne & Hi & Hj & Hx & Hy & Hs).
    destruct (Z.lt_ge_cases i j).
    + exists i, j. unfold is_pair. repeat split; try lia. eauto.
    + exists j, i. unfold is_pair. repeat split; try lia.
      exists y, x. rewrite add32_comm. auto.
  - intros (i & j & Hi & Hij & Hj & x & y & Hx & Hy & Hs).
    exists i, j, x, y. repeat split; auto; lia.
Qed.

Lemma two_sum_result_answer m nums sum_val r :
  two_sum_result m nums sum_val r -> two_sum_answer m nums sum_val r.
Proof.
  intros [(i & j & -> & Hp & Hleast)|[-> Hno]]; split.
  - intros _. eauto.
  - split; [discriminate|]. intros Hno. exfalso. apply Hno, has_pair_is_pair. eauto.
  - intros H. contradiction.
  - split; auto.
Qed.

Lemma two_sum_result_unique m nums sum_val r1 r2 :
  two_sum_result m nums sum_val r1 -> two_sum_result m nums sum_val r2 -> r1 = r2.
Proof.
  intros [(i1 & j1 & -> & Hp1 & Hl1)|[-> Hno1]] [(i2 & j2 & -> & Hp2 & Hl2)|[-> Hno2]].
  - specialize (Hl1 _ _ Hp2). specialize (Hl2 _ _ Hp1). unfold lex_le in *.
    assert (i1 = i2) by lia. assert (j1 = j2) by lia. congruence.
  - exfalso. apply Hno2, has_pair_is_pair. eauto.
  - exfalso. apply Hno1, has_pair_is_pair. eauto.
  - reflexivity.
Qed.

(** [solvedps] scans the pairs of positions below [min (size, 2^31)] in
    lexicographic order: past 2^31 - 1 the [int] counters wrap to
    [INT_MIN], which ends both loops. *)
Lemma solvedps_returns nums sum_val fuel :
  vsize nums < 18446744071562067968 ->
  (Z.to_nat (Z.min (vsize nums) 2147483648) < fuel)%nat ->
  returns (solvedps fuel nums sum_val)
          (two_sum_result (Z.min (vsize nums) 2147483648) nums sum_val).
Proof.
  intros Hmax Hfuel. set (m := Z.min (vsize nums) 2147483648) in *.
  assert (0 <= m <= 2147483648 /\ m <= vsize nums) as Hm
    by (unfold vsize in *; lia).
  assert (forall k, 0 <= k < m -> wrap32 k = k) as Hrep
    by (intros k Hk; apply wrap32_small; unfold in_int, INT_MIN, INT_MAX; lia).
  set (Done := fun r : list Z =>
         exists i j, r = [i; j] /\ is_pair m nums sum_val i j /\
           forall i' j', is_pair m nums sum_val i' j' -> lex_le i j i' j').
  unfold solvedps. apply returns_bind.
  eapply returns_weaken.
  - apply (for_loop_count
             (fun k (_ : unit) => forall i' j', is_pair m nums sum_val i' j' -> k <= i')
             Done (lt_size nums) incr _ wrap32 0 m) with (lo := 0).
    + intros k Hk. apply lt_size_below. fold m. lia.
    + apply lt_size_at_end. exact Hmax.
    + intros k _. apply incr_wrap32.
    + (* the body of the outer loop: the inner loop *)
      intros k [] Hk Hout. rewrite (Hrep k Hk).
      eapply returns_weaken.
      * apply (for_loop_count
                 (fun j (_ : unit) => forall j', k < j' < j -> ~ is_pair m nums sum_val k j')
                 Done (lt_size nums) incr _ wrap32 (k + 1) m) with (lo := k + 1).
        -- intros j Hj. apply lt_size_below. fold m. lia.
        -- apply lt_size_at_end. exact Hmax.
        -- intros j _. apply incr_wrap32.
        -- intros j [] Hj Hin. rewrite (Hrep j) by lia.
           apply returns_bind, returns_read; [|lia]. intros x Hx.
           apply returns_bind, returns_read; [|lia]. intros y Hy.
           destruct (Z.eqb_spec (add32 x y) sum_val) as [Heq|Hne]; cbn.
           ++ exists k, j. split; [reflexivity|]. split.
              ** unfold is_pair. repeat split; try lia. eauto.
              ** intros i' j' Hp. specialize (Hout _ _ Hp). unfold lex_le.
                 destruct (Z.eq_dec i' k) as [->|]; [|lia].
                 right. split; [reflexivity|].
                 destruct (Z.lt_ge_cases j' j) as [Hlt|]; [|lia].
                 exfalso. apply (Hin j'); [|exact Hp].
                 destruct Hp as (_ & ? & _). lia.
           ++ intros j' Hj' Hp.
              destruct (Z.eq_dec j' j) as [->|]; [|apply (Hin j'); [lia|exact Hp]].
              destruct Hp as (_ & _ & _ & x' & y' & Hx' & Hy' & Hs).
              congruence.
        -- rewrite <- (Hrep k Hk) at 1. unfold add32. apply wrap32_add_l.
        -- lia.
        -- lia.
        -- intros j' Hj' _. lia.
      * intros [[]|r]; cbn; [|auto]. intros Hin i' j' Hp.
        specialize (Hout _ _ Hp).
        destruct (Z.eq_dec i' k) as [->|]; [|lia].
        exfalso. apply (Hin j'); [|exact Hp]. destruct Hp as (_ & ? & ? & _). lia.
    + reflexivity.
    + lia.
    + lia.
    + intros i' j' (? & _). lia.
  - intros [[]|r]; cbn.
    + intros Hnone. right. split; [reflexivity|].
      intros Hp. apply has_pair_is_pair in Hp as (i & j & Hp).
      specialize (Hnone _ _ Hp). destruct Hp as (_ & ? & ? & _). lia.
    + intros Hd. left. exact Hd.
Qed.

Lemma solvedps_more_fuel nums sum_val f1 f2 r :
  (f1 <= f2)%nat -> solvedps f1 nums sum_val = Ret r -> solvedps f2 nums sum_val = Ret r.
Proof.
  intros Hf. unfold solvedps.
  match goal with
  | |- outcome_bind ?m1 _ = _ -> outcome_bind ?m2 _ = _ =>
      destruct m1 as [c| |] eqn:E1; cbn; try discriminate;
      assert (m2 = Ret c) as E2
  end.
  { revert E1. apply for_loop_more_fuel; [|exact Hf].
    intros i [] c'. apply for_loop_more_fuel; [|exact Hf]. auto. }
  rewrite E2. cbn. auto.
Qed.

Lemma solvedps_spec nums sum_val :
  vsize nums < 18446744071562067968 ->
  exists r,
    (forall fuel, (Z.to_nat (Z.min (vsize nums) 2147483648) < fuel)%nat ->
                  solvedps fuel nums sum_val = Ret r) /\
    two_sum_result (Z.min (vsize nums) 2147483648) nums sum_val r.
Proof.
  intros Hmax.
  pose proof (solvedps_returns nums sum_val
                (S (Z.to_nat (Z.min (vsize nums) 2147483648))) Hmax ltac:(lia)) as H.
  apply returns_inv in H as [r [Hrun Hres]].
  exists r. split; [|exact Hres].
  intros fuel Hf. revert Hrun. apply solvedps_more_fuel. lia.
Qed.

(** C5, as amended: on every vector of at most 2^31 elements [solvedps]
    returns the lexicographically least pair of positions [i < j] whose
    elements have the [int] sum [sum_val] when two distinct such positions
    exist, and the empty vector exactly when none exist. *)
Theorem two_sum_correct (nums : list Z) (sum_val : Z) :
  vsize nums <= 2147483648 ->
  exists r,
    (forall fuel, (length nums < fuel)%nat -> solvedps fuel nums sum_val = Ret r) /\
    two_sum_answer (vsize nums) nums sum_val r.
Proof.
  intros Hn.
  destruct (solvedps_spec nums sum_val) as [r [Hrun Hres]]; [lia|].
  rewrite Z.min_l in Hrun, Hres by lia.
  exists r. split.
  - intros fuel Hf. apply Hrun. unfold vsize. lia.
  - apply two_sum_result_answer. exact Hres.
Qed.

Lemma two_sum_correct_witness :
  exists r,
    (forall fuel, (length [3; 2; 4; 1] < fuel)%nat -> solvedps fuel [3; 2; 4; 1] 5 = Ret r) /\
    two_sum_answer (vsize [3; 2; 4; 1]) [3; 2; 4; 1] 5 r.
Proof.
  apply (two_sum_correct [3; 2; 4; 1] 5). unfold vsize; simpl; lia.
Defined.

(** ** A vector longer than [int] can count *)

Lemma vsize_long (n : nat) :
  vsize ([1; 2; 3] ++ replicate n 0 ++ [4]) = Z.of_nat n + 4.
Proof.
  unfold vsize. rewrite !length_app, length_replicate. cbn [length]. lia.
Qed.

Lemma vec_at_long_zeros (n : nat) (j : Z) :
  3 <= j < Z.of_nat n + 3 -> vec_at ([1; 2; 3] ++ replicate n 0 ++ [4]) j = Some 0.
Proof.
  intros Hj. unfold vec_at. destruct (Z.leb_spec 0 j); [|lia].
  rewrite lookup_app_r by (cbn [length]; lia).
  rewrite lookup_app_l by (rewrite length_replicate; cbn [length]; lia).
  apply lookup_replicate_2. cbn [length]. lia.
Qed.

Lemma vec_at_long_last (n : nat) (i : Z) :
  i = Z.of_nat n + 3 -> vec_at ([1; 2; 3] ++ replicate n 0 ++ [4]) i = Some 4.
Proof.
  intros ->. unfold vec_at. destruct (Z.leb_spec 0 (Z.of_nat n + 3)); [|lia].
  rewrite lookup_app_r by (cbn [length]; lia).
  rewrite lookup_app_r by (rewrite length_replicate; cbn [length]; lia).
  match goal with
  | |- _ !! ?k = _ =>
      replace k with 0%nat by (rewrite length_replicate; cbn [length]; lia)
  end.
  reflexivity.
Qed.

Lemma vsize_long_vector : vsize long_vector = 2147483649.
Proof. unfold long_vector, zeros. rewrite vsize_long. lia. Qed.

Lemma long_vector_head :
  vec_at long_vector 0 = Some 1 /\ vec_at long_vector 1 = Some 2 /\
  vec_at long_vector 2 = Some 3.
Proof. unfold long_vector. cbn [app]. repeat split. Qed.

Lemma long_vector_zeros j : 3 <= j < 2147483648 -> vec_at long_vector j = Some 0.
Proof. intros Hj. apply vec_at_long_zeros. lia. Qed.

Lemma long_vector_last : vec_at long_vector 2147483648 = Some 4.
Proof. apply vec_at_long_last. lia. Qed.

Lemma long_vector_result : two_sum_result 2147483648 long_vector 5 [1; 2].
Proof.
  destruct long_vector_head as (H0 & H1 & H2).
  left. exists 1, 2. split; [reflexivity|]. split.
  - unfold is_pair. repeat split; try lia. exists 2, 3. auto.
  - intros i' j' (Hi & Hij & Hj & x & y & Hx & Hy & Hs). unfold lex_le.
    destruct (Z.eq_dec i' 0) as [->|]; [exfalso|lia].
    assert (x = 1) as -> by congruence.
    assert (y = 2 \/ y = 3 \/ y = 0) as Hy'.
    { destruct (Z.eq_dec j' 1) as [->|]; [left; congruence|].
      destruct (Z.eq_dec j' 2) as [->|]; [right; left; congruence|].
      right; right. rewrite long_vector_zeros in Hy by lia. congruence. }
    destruct Hy' as [->|[->| ->]]; discriminate Hs.
Qed.

(** C5 fails on more than 2^31 elements: in [long_vector] the least pair
    with sum 5 is (0, 2^31), which the [int] counter [b] never reaches;
    [solvedps] returns {1, 2}. *)
Lemma two_sum_correct_counterexample :
  (exists fuel, solvedps fuel long_vector 5 = Ret [1; 2]) /\
  (forall fuel r, solvedps fuel long_vector 5 = Ret r ->
                  ~ two_sum_answer (vsize long_vector) long_vector 5 r).
Proof.
  destruct (solvedps_spec long_vector 5) as [r0 [Hrun Hres]];
    [rewrite vsize_long_vector; lia|].
  rewrite vsize_long_vector in Hrun, Hres.
  rewrite Z.min_r in Hrun, Hres by lia.
  assert (r0 = [1; 2]) as ->
    by (eapply two_sum_result_unique; [exact Hres|exact long_vector_result]).
  split.
  - exists (S (Z.to_nat 2147483648)). apply Hrun. lia.
  - intros fuel r Hr.
    assert (r = [1; 2]) as ->.
    { apply (solvedps_more_fuel _ _ _ (fuel + S (Z.to_nat 2147483648))) in Hr; [|lia].
      rewrite Hrun in Hr by lia. congruence. }
    intros [Hleast _].
    destruct Hleast as (i & j & Hij & _ & Hle).
    + apply has_pair_is_pair. exists 0, 2147483648.
      unfold is_pair. rewrite vsize_long_vector. repeat split; try lia.
      exists 1, 4. destruct long_vector_head as (H0 & _).
      split; [exact H0|]. split; [exact long_vector_last|reflexivity].
    + injection Hij as <- <-.
      specialize (Hle 0 2147483648). unfold lex_le in Hle.
      enough (1 < 0 \/ 1 = 0 /\ 2 <= 2147483648) by lia.
      apply Hle. unfold is_pair. rewrite vsize_long_vector. repeat split; try lia.
      exists 1, 4. destruct long_vector_head as (H0 & _).
      split; [exact H0|]. split; [exact long_vector_last|reflexivity].
Qed.

(* ================================================================== *)
(** * Maximum subarray: which elements are read *)
(* ================================================================== *)

Lemma returns_more_fuel {A : Type} (m1 m2 : outcome A) (Q : A -> Prop) :
  returns m1 Q -> (forall a, m1 = Ret a -> m2 = Ret a) -> returns m2 Q.
Proof. destruct m1 as [a| |]; cbn; try contradiction. intros H E. rewrite (E a eq_refl). exact H. Qed.

Lemma fallthrough_Ret {S : Type} (m : outcome (ctl S Empty_set)) (s : S) :
  fallthrough m = Ret s -> m = Ret (Continue s).
Proof. destruct m as [[s'|[]]| |]; cbn; congruence. Qed.

Lemma fallthrough_more_fuel {S : Type} (m1 m2 : outcome (ctl S Empty_set)) (s : S) :
  (forall c, m1 = Ret c -> m2 = Ret c) -> fallthrough m1 = Ret s -> fallthrough m2 = Ret s.
Proof. intros H E. apply fallthrough_Ret in E. rewrite (H _ E). reflexivity. Qed.

Lemma bind_more_fuel {A B : Type} (m1 m2 : outcome A) (k1 k2 : A -> outcome B) (b : B) :
  (forall a, m1 = Ret a -> m2 = Ret a) ->
  (forall a, k1 a = Ret b -> k2 a = Ret b) ->
  (let* a := m1 in k1 a) = Ret b -> (let* a := m2 in k2 a) = Ret b.
Proof.
  intros Hm Hk. destruct m1 as [a| |]; cbn; try discriminate.
  rewrite (Hm a eq_refl). cbn. apply Hk.
Qed.

(** [int n = nums.size()] never exceeds the size. *)
Lemma machine_isize_le v : @isize machine v <= vsize v.
Proof.
  unfold isize, machine, to_int, to_size_t, wrap32, wrap64u.
  assert (0 <= vsize v) as H0 by (unfold vsize; lia).
  set (a := vsize v mod 18446744073709551616).
  assert (0 <= a <= vsize v) as Ha.
  { subst a. split; [apply Z.mod_pos_bound; lia|apply Z.mod_le; lia]. }
  pose proof (Z.div_mod (a + 2147483648) 4294967296 ltac:(lia)) as Hdm.
  pose proof (Z.div_pos (a + 2147483648) 4294967296 ltac:(lia) ltac:(lia)). lia.
Qed.

Lemma machine_isize_max v : @isize machine v <= INT_MAX.
Proof. unfold isize, machine, to_int. apply wrap32_range. Qed.

Lemma machine_iadd_1 k : 0 <= k < INT_MAX -> @iadd machine k 1 = k + 1.
Proof.
  intros H. unfold iadd, machine, to_int. apply wrap32_small.
  unfold in_int, INT_MIN, INT_MAX in *. lia.
Qed.

(** The three loops of the cubic function stay inside the vector. *)
Lemma maxSubArray_03_returns fuel nums x0 :
  (Z.to_nat (@isize machine nums) < fuel)%nat ->
  returns
    (fallthrough
       (for_loop fuel (fun i => i <? @isize machine nums) (fun i => @iadd machine i 1)
          (fun i maxSum =>
             for_loop fuel (fun j => j <? @isize machine nums) (fun j => @iadd machine j 1)
               (fun j maxSum =>
                  let* sum :=
                    fallthrough
                      (for_loop fuel (fun k => k <=? j) (fun k => @iadd machine k 1)
                         (fun k sum =>
                            let* x := read nums k in
                            Ret (Continue (@iadd machine sum x)))
                         i 0) in
                  Ret (Continue (Z.max maxSum sum)))
               i maxSum)
          0 x0))
    (fun _ => True).
Proof.
  intros Hf. pose proof (machine_isize_le nums) as Hle.
  pose proof (machine_isize_max nums) as Hmax.
  set (n := @isize machine nums) in *.
  destruct (Z.le_gt_cases n 0) as [Hn|Hn].
  { destruct fuel as [|fuel]; [lia|]. cbn [for_loop].
    destruct (Z.ltb_spec 0 n); [lia|]. exact I. }
  apply returns_fallthrough.
  eapply returns_weaken.
  - apply (for_loop_count (fun _ _ => True) (fun _ : Empty_set => False)
             _ _ _ (fun k => k) 0 n) with (lo := 0);
      [intros k Hk; apply Z.ltb_lt; lia | apply Z.ltb_irrefl
      |intros k Hk; apply machine_iadd_1; lia | | reflexivity | lia | lia | exact I].
    intros i maxSum Hi _.
    eapply returns_weaken.
    + apply (for_loop_count (fun _ _ => True) (fun _ : Empty_set => False)
               _ _ _ (fun k => k) i n) with (lo := i);
        [intros k Hk; apply Z.ltb_lt; lia | apply Z.ltb_irrefl
        |intros k Hk; apply machine_iadd_1; lia | | reflexivity | lia | lia | exact I].
      intros j maxSum' Hj _.
      apply returns_bind. eapply returns_weaken.
      * apply returns_fallthrough.
        apply (for_loop_count (fun _ _ => True) (fun _ : Empty_set => False)
                 _ _ _ (fun k => k) i (j + 1)) with (lo := i);
          [intros k Hk; apply Z.leb_le; lia | apply Z.leb_gt; lia
          |intros k Hk; apply machine_iadd_1; lia | | reflexivity | lia | lia | exact I].
        intros k sum Hk _. apply returns_bind, returns_read; [|lia].
        intros x _. exact I.
      * intros sum _. exact I.
    + intros [s|[]] _. exact I.
  - intros [s|[]] _. exact I.
Qed.

Lemma maxSubArray_03_more_fuel (IM : IntModel) nums f1 f2 r :
  (f1 <= f2)%nat ->
  @max_subarray_03.maxSubArray IM f1 nums = Ret r ->
  @max_subarray_03.maxSubArray IM f2 nums = Ret r.
Proof.
  intros Hf. unfold max_subarray_03.maxSubArray.
  apply bind_more_fuel; [auto|]. intros x0.
  apply fallthrough_more_fuel. intros c.
  apply for_loop_more_fuel; [|exact Hf]. intros i s c'.
  apply for_loop_more_fuel; [|exact Hf]. intros j s' c''.
  apply bind_more_fuel; [|auto]. intros sum.
  apply fallthrough_more_fuel. intros c3.
  apply for_loop_more_fuel; [|exact Hf]. auto.
Qed.

(** C10: each of the three functions reads element 0 first, which on the
    empty vector is out of bounds whatever the fuel, and on a non-empty
    vector returns a value: no access leaves the vector.  The arithmetic is
    the machine's. *)
Theorem max_subarray_reads_element_0 :
  (@max_subarray_12.maxSubArray machine [] = Fault (OutOfBounds 0) /\
   (forall fuel, @max_subarray_03.maxSubArray machine fuel [] = Fault (OutOfBounds 0)) /\
   @max_subarray_sum_student005.solvegpw machine [] = Fault (OutOfBounds 0)) /\
  (forall nums, nums <> [] ->
     (exists r, @max_subarray_12.maxSubArray machine nums = Ret r) /\
     (exists r, forall fuel, (Z.to_nat (@isize machine nums) < fuel)%nat ->
                  @max_subarray_03.maxSubArray machine fuel nums = Ret r) /\
     (exists r, @max_subarray_sum_student005.solvegpw machine nums = Ret r)).
Proof.
  split; [repeat split|].
  intros nums Hne. destruct nums as [|x0 nums]; [congruence|]. clear Hne.
  split; [|split].
  - unfold max_subarray_12.maxSubArray. cbn [read vec_at Z.leb Z.compare Z.to_nat lookup
      list_lookup outcome_bind]. eauto.
  - pose proof (maxSubArray_03_returns (S (Z.to_nat (@isize machine (x0 :: nums))))
                  (x0 :: nums) x0 ltac:(lia)) as H.
    apply returns_inv in H as [r [Hr _]]. exists r. intros fuel Hf.
    apply (maxSubArray_03_more_fuel machine _ (S (Z.to_nat (@isize machine (x0 :: nums)))));
      [lia|].
    unfold max_subarray_03.maxSubArray. exact Hr.
  - unfold max_subarray_sum_student005.solvegpw. cbn [read vec_at Z.leb Z.compare Z.to_nat
      lookup list_lookup outcome_bind]. eauto.
Qed.

(* ================================================================== *)
(** * Maximum subarray: prefix sums *)
(* ================================================================== *)

Lemma list_sum_app l1 l2 : list_sum (l1 ++ l2) = list_sum l1 + list_sum l2.
Proof. unfold list_sum. induction l1 as [|x l1 IH]; cbn; lia. Qed.

Lemma prefix_sum_0 nums : prefix_sum nums 0 = 0.
Proof. reflexivity. Qed.

Lemma prefix_sum_succ nums k x :
  vec_at nums k = Some x -> prefix_sum nums (k + 1) = prefix_sum nums k + x.
Proof.
  intros Hx. pose proof (vec_at_Some _ _ _ Hx) as Hk. unfold vec_at in Hx.
  destruct (Z.leb_spec 0 k); [|lia]. unfold prefix_sum.
  replace (Z.to_nat (k + 1)) with (S (Z.to_nat k)) by lia.
  rewrite (take_S_r _ _ _ Hx), list_sum_app. cbn. lia.
Qed.

Lemma subarray_sum_prefix nums (i j : nat) :
  (i <= j)%nat ->
  subarray_sum nums i j
  = prefix_sum nums (Z.of_nat j + 1) - prefix_sum nums (Z.of_nat i).
Proof.
  intros Hij. unfold subarray_sum, prefix_sum.
  replace (Z.to_nat (Z.of_nat j + 1)) with (i + (S j - i))%nat by lia.
  rewrite <- take_take_drop, list_sum_app, Nat2Z.id. lia.
Qed.

Lemma max_prefix_diff_subarray nums m :
  max_prefix_diff nums m -> is_max_subarray_sum nums m.
Proof.
  intros [(i & j & Hij & Hj & Hm) Hmax]. unfold vsize in *. split.
  - exists (Z.to_nat i), (Z.to_nat (j - 1)). split; [lia|].
    rewrite subarray_sum_prefix by lia.
    replace (Z.of_nat (Z.to_nat (j - 1)) + 1) with j by lia.
    replace (Z.of_nat (Z.to_nat i)) with i by lia. exact Hm.
  - intros a b Hab. rewrite subarray_sum_prefix by lia. apply Hmax; lia.
Qed.

Lemma is_max_subarray_sum_unique nums m1 m2 :
  is_max_subarray_sum nums m1 -> is_max_subarray_sum nums m2 -> m1 = m2.
Proof.
  intros [(i1 & j1 & H1 & ->) Hmax1] [(i2 & j2 & H2 & ->) Hmax2].
  specialize (Hmax1 _ _ H2). specialize (Hmax2 _ _ H1). lia.
Qed.

(* ================================================================== *)
(** * Maximum subarray: Kadane's loop *)
(* ================================================================== *)

Lemma kadane_step_inv nums p st x :
  0 < p -> vec_at nums p = Some x ->
  kadane_inv nums p st -> kadane_inv nums (p + 1) (kadane_step st x).
Proof.
  intros Hp Hx ((i0 & Hi0 & Hcur) & Hcurmax & (a & b & Hab & Hb & Hbest) & Hbestmax).
  pose proof (prefix_sum_succ _ _ _ Hx) as HP.
  unfold kadane_step, kadane_inv. cbn [fst snd]. split; [|split; [|split]].
  - destruct (Z.le_gt_cases x (fst st + x)).
    + exists i0. split; [lia|]. rewrite Z.max_r by lia. lia.
    + exists p. split; [lia|]. rewrite Z.max_l by lia. lia.
  - intros i Hi. destruct (Z.eq_dec i p) as [->|]; [lia|].
    specialize (Hcurmax i ltac:(lia)). lia.
  - destruct (Z.le_gt_cases (Z.max x (fst st + x)) (snd st)).
    + exists a, b. rewrite Z.max_l by lia. repeat split; lia.
    + rewrite (Z.max_r (snd st)) by lia.
      destruct (Z.le_gt_cases x (fst st + x)).
      * exists i0, (p + 1). rewrite Z.max_r by lia. repeat split; lia.
      * exists p, (p + 1). rewrite Z.max_l by lia. repeat split; lia.
  - intros i j Hij Hj. destruct (Z.eq_dec j (p + 1)) as [->|].
    + destruct (Z.eq_dec i p) as [->|]; [lia|].
      specialize (Hcurmax i ltac:(lia)). lia.
    + specialize (Hbestmax i j ltac:(lia) ltac:(lia)). lia.
Qed.

Lemma kadane_fold nums : forall l2 l1 st,
  nums = l1 ++ l2 -> l1 <> [] ->
  kadane_inv nums (vsize l1) st ->
  kadane_inv nums (vsize nums) (fold_left kadane_step l2 st).
Proof.
  induction l2 as [|x l2 IH]; intros l1 st Hnums Hne Hinv.
  - rewrite app_nil_r in Hnums. subst l1. exact Hinv.
  - cbn [fold_left]. apply (IH (l1 ++ [x])).
    + rewrite <- app_assoc. exact Hnums.
    + destruct l1; discriminate.
    + replace (vsize (l1 ++ [x])) with (vsize l1 + 1)
        by (unfold vsize; rewrite length_app; cbn [length]; lia).
      apply kadane_step_inv; [destruct l1; [congruence|unfold vsize; cbn [length]; lia]
                             | |exact Hinv].
      unfold vec_at, vsize. destruct (Z.leb_spec 0 (Z.of_nat (length l1))); [|lia].
      rewrite Nat2Z.id. subst nums. rewrite lookup_app_r by lia.
      replace (length l1 - length l1)%nat with 0%nat by lia. reflexivity.
Qed.

(** Kadane's loop, started as max_subarray_12 starts it, ends with the
    maximum subarray sum. *)
Lemma kadane_correct x0 nums :
  max_prefix_diff (x0 :: nums)
    (snd (fold_left kadane_step (x0 :: nums) (0, x0))).
Proof.
  assert (kadane_inv (x0 :: nums) (vsize (x0 :: nums))
            (fold_left kadane_step (x0 :: nums) (0, x0))) as H.
  { cbn [fold_left]. apply (kadane_fold (x0 :: nums) nums [x0]); [reflexivity|discriminate|].
    assert (prefix_sum (x0 :: nums) 1 = x0) as HP1
      by (unfold prefix_sum, list_sum; change (Z.to_nat 1) with 1%nat;
          cbn [take foldr]; rewrite take_0; cbn [foldr]; lia).
    unfold kadane_step, vsize. cbn [fst snd length]. change (Z.of_nat 1) with 1.
    replace (Z.max x0 (0 + x0)) with x0 by lia.
    replace (Z.max x0 x0) with x0 by lia.
    unfold kadane_inv. split; [|split; [|split]]; cbn [fst snd].
    - exists 0. rewrite HP1, prefix_sum_0. lia.
    - intros i Hi. replace i with 0 by lia. rewrite HP1, prefix_sum_0. lia.
    - exists 0, 1. rewrite HP1, prefix_sum_0. lia.
    - intros i j Hij Hj. replace i with 0 by lia. replace j with 1 by lia.
      rewrite HP1, prefix_sum_0. lia. }
  destruct H as (_ & _ & (a & b & Hab & Hb & Hbest) & Hbestmax).
  split; [exists a, b; auto|exact Hbestmax].
Qed.

(* ================================================================== *)
(** * Maximum subarray: the cubic search *)
(* ================================================================== *)

(** Under exact arithmetic the three nested loops of max_subarray_03 try
    every subarray, in the order of [i], then of [j], and keep the largest
    sum. *)
Lemma maxSubArray_03_correct fuel x0 nums :
  (length (x0 :: nums) < fuel)%nat ->
  returns (@max_subarray_03.maxSubArray exact fuel (x0 :: nums))
          (max_prefix_diff (x0 :: nums)).
Proof.
  intros Hf. set (v := x0 :: nums) in *.
  assert (1 <= vsize v) as Hn by (unfold vsize, v; cbn [length]; lia).
  assert (Z.to_nat (vsize v) < fuel)%nat as Hfz by (unfold vsize; lia).
  set (achieved := fun m : Z =>
         exists a b, 0 <= a < b /\ b <= vsize v /\
                     m = prefix_sum v b - prefix_sum v a).
  unfold max_subarray_03.maxSubArray.
  change (@isize exact v) with (vsize v).
  apply returns_bind, returns_read; [|lia]. intros x Hx.
  assert (x = prefix_sum v 1 - prefix_sum v 0) as Hx0.
  { pose proof (prefix_sum_succ v 0 x Hx) as E. change (0 + 1) with 1 in E.
    rewrite E, prefix_sum_0. lia. }
  apply returns_fallthrough. eapply returns_weaken.
  - apply (for_loop_count
             (fun i m => achieved m /\
                forall a b, 0 <= a < b -> b <= vsize v -> a < i ->
                            prefix_sum v b - prefix_sum v a <= m)
             (fun _ : Empty_set => False)
             _ _ _ (fun k => k) 0 (vsize v)) with (lo := 0);
      [intros k Hk; apply Z.ltb_lt; lia | apply Z.ltb_irrefl
      |intros k Hk; reflexivity | | reflexivity | lia | lia | ].
    + (* the loop on [j] *)
      intros i m Hi [Hach Hbound].
      eapply returns_weaken.
      * apply (for_loop_count
                 (fun j m => achieved m /\
                    forall a b, 0 <= a < b -> b <= vsize v ->
                                a < i \/ (a = i /\ b <= j) ->
                                prefix_sum v b - prefix_sum v a <= m)
                 (fun _ : Empty_set => False)
                 _ _ _ (fun k => k) i (vsize v)) with (lo := i);
          [intros k Hk; apply Z.ltb_lt; lia | apply Z.ltb_irrefl
          |intros k Hk; reflexivity | | reflexivity | lia | lia | ].
        -- (* the loop on [k] *)
           intros j m' Hj [Hach' Hbound'].
           apply returns_bind. eapply returns_weaken.
           ++ apply returns_fallthrough.
              apply (for_loop_count
                       (fun k s => s = prefix_sum v k - prefix_sum v i)
                       (fun _ : Empty_set => False)
                       _ _ _ (fun k => k) i (j + 1)) with (lo := i);
                [intros k Hk; apply Z.leb_le; lia | apply Z.leb_gt; lia
                |intros k Hk; reflexivity | | reflexivity | lia | lia | lia].
              intros k s Hk ->. apply returns_bind, returns_read; [|lia].
              intros y Hy. cbn. unfold iadd. cbn [to_int exact].
              rewrite (prefix_sum_succ v k y Hy). lia.
           ++ intros sum ->. cbn. split.
              ** destruct (Z.le_gt_cases (prefix_sum v (j + 1) - prefix_sum v i) m').
                 --- rewrite Z.max_l by lia. exact Hach'.
                 --- rewrite Z.max_r by lia. exists i, (j + 1). lia.
              ** intros a b Hab Hb Hcase.
                 destruct (Z.eq_dec b (j + 1)) as [->|].
                 --- destruct Hcase as [Ha|[-> _]]; [|lia].
                     specialize (Hbound' a (j + 1) ltac:(lia) ltac:(lia) ltac:(lia)). lia.
                 --- specialize (Hbound' a b ltac:(lia) ltac:(lia) ltac:(lia)). lia.
        -- split; [exact Hach|]. intros a b Hab Hb Hcase. apply Hbound; lia.
      * intros [m'|[]]. cbn. intros [Hach' Hbound']. split; [exact Hach'|].
        intros a b Hab Hb Ha. apply Hbound'; lia.
    + split; [exists 0, 1; lia|]. intros a b Hab Hb Ha. lia.
  - intros [m|[]]. cbn. intros [(a & b & Hab & Hb & ->) Hbound]. split.
    + exists a, b. auto.
    + intros a' b' Hab' Hb'. apply Hbound; lia.
Qed.

Lemma fold_left_pointwise {A B : Type} (f g : A -> B -> A) (l : list B) : forall a,
  (forall a b, f a b = g a b) -> fold_left f l a = fold_left g l a.
Proof.
  induction l as [|b l IH]; intros a H; [reflexivity|].
  cbn [fold_left]. rewrite H. apply IH. exact H.
Qed.

(** C2: under exact integer arithmetic the cubic search of max_subarray_03
    and Kadane's loop of max_subarray_12 return, on every non-empty vector,
    the same value: the largest sum of a non-empty contiguous subarray. *)
Theorem cubic_and_kadane_agree (nums : list Z) :
  nums <> [] ->
  exists m,
    (forall fuel, (length nums < fuel)%nat ->
                  @max_subarray_03.maxSubArray exact fuel nums = Ret m) /\
    @max_subarray_12.maxSubArray exact nums = Ret m /\
    is_max_subarray_sum nums m.
Proof.
  intros Hne. destruct nums as [|x0 nums]; [congruence|]. clear Hne.
  pose proof (kadane_correct x0 nums) as Hk.
  apply max_prefix_diff_subarray in Hk.
  exists (snd (fold_left kadane_step (x0 :: nums) (0, x0))).
  split; [|split; [|exact Hk]].
  - intros fuel Hf.
    pose proof (maxSubArray_03_correct fuel x0 nums Hf) as H.
    apply returns_inv in H as [m [Hrun Hm]]. rewrite Hrun. f_equal.
    apply max_prefix_diff_subarray in Hm.
    eapply is_max_subarray_sum_unique; eassumption.
  - unfold max_subarray_12.maxSubArray.
    change (read (x0 :: nums) 0) with (Ret (A:=Z) x0). cbn [outcome_bind].
    do 2 f_equal. apply fold_left_pointwise. intros [sum maxi] x. reflexivity.
Qed.

Lemma cubic_and_kadane_agree_witness :
  exists m,
    (forall fuel, (length sample_vector < fuel)%nat ->
       @max_subarray_03.maxSubArray exact fuel sample_vector = Ret m) /\
    @max_subarray_12.maxSubArray exact sample_vector = Ret m /\
    is_max_subarray_sum sample_vector m.
Proof.
  apply (cubic_and_kadane_agree sample_vector). discriminate.
Defined.

(* ================================================================== *)
(** * Maximum subarray: the Kadane variants *)
(* ================================================================== *)

(** Under exact arithmetic a loop [for (int i = 0; i < nums.size(); i++)]
    whose body reads [nums[i]] and updates the state by [f] is a fold over
    the elements. *)
Lemma index_loop_fold {St : Type} (f : St -> Z -> St)
    (body : Z -> St -> outcome (ctl St Empty_set)) nums fuel s0 :
  (forall i s x, vec_at nums i = Some x -> body i s = Ret (Continue (f s x))) ->
  (length nums < fuel)%nat ->
  fallthrough (for_loop fuel (@ilt_size exact nums) (fun i => @iadd exact i 1) body 0 s0)
  = Ret (fold_left f nums s0).
Proof.
  intros Hbody Hf.
  assert (returns
            (for_loop fuel (@ilt_size exact nums) (fun i => @iadd exact i 1) body 0 s0)
            (ctl_post (fun s => s = fold_left f (take (Z.to_nat (vsize nums)) nums) s0)
                      (fun _ => False))) as H.
  { apply (for_loop_count
             (fun k s => s = fold_left f (take (Z.to_nat k) nums) s0)
             (fun _ : Empty_set => False) _ _ _ (fun k => k) 0 (vsize nums))
      with (lo := 0);
      [intros k Hk; apply Z.ltb_lt; cbn; lia | apply Z.ltb_irrefl
      |intros k Hk; reflexivity | | reflexivity | unfold vsize; lia
      |unfold vsize; lia | reflexivity].
    intros k s Hk ->.
    destruct (vec_at_in_bounds nums k Hk) as [x Hx].
    rewrite (Hbody _ _ _ Hx). cbn.
    unfold vec_at in Hx. destruct (Z.leb_spec 0 k); [|lia].
    replace (Z.to_nat (k + 1)) with (S (Z.to_nat k)) by lia.
    rewrite (take_S_r _ _ _ Hx), fold_left_app. reflexivity. }
  destruct (for_loop _ _ _ _ _ _) as [[s|[]]| |]; cbn in H; try contradiction.
  subst s. cbn. unfold vsize. rewrite Nat2Z.id, firstn_all. reflexivity.
Qed.

Lemma maxSubArray_02_fold fuel nums :
  (length nums < fuel)%nat ->
  @max_subarray_02.maxSubArray exact fuel nums
  = Ret (snd (fold_left reset_step nums (0, INT_MIN))).
Proof.
  intros Hf. unfold max_subarray_02.maxSubArray.
  rewrite (index_loop_fold reset_step); [reflexivity| |exact Hf].
  intros i [sum maxi] x Hx. unfold read. rewrite Hx. reflexivity.
Qed.

Lemma maxSubArray_09_fold fuel nums :
  (length nums < fuel)%nat ->
  @max_subarray_09.maxSubArray exact fuel nums
  = Ret (fst (fold_left ifelse_step nums (INT_MIN, 0))).
Proof.
  intros Hf. unfold max_subarray_09.maxSubArray.
  rewrite (index_loop_fold ifelse_step); [reflexivity| |exact Hf].
  intros i [maxSum sum] x Hx. unfold read. rewrite Hx. reflexivity.
Qed.

(** From the second round on, the three loops move in step: the running sum
    of the reset variant is the positive part of Kadane's, the if/else
    variant has Kadane's state. *)
Lemma kadane_variants_fold l : forall k r e,
  fst r = Z.max 0 (fst k) -> snd r = snd k -> e = (snd k, fst k) ->
  snd (fold_left reset_step l r) = snd (fold_left kadane_step l k) /\
  fst (fold_left ifelse_step l e) = snd (fold_left kadane_step l k).
Proof.
  induction l as [|x l IH]; intros k r e Hr1 Hr2 ->.
  - cbn. split; [exact Hr2|reflexivity].
  - cbn [fold_left]. apply IH.
    + unfold reset_step, kadane_step. cbn [fst snd]. rewrite Hr1.
      destruct (Z.ltb_spec (Z.max 0 (fst k) + x) 0); lia.
    + unfold reset_step, kadane_step. cbn [fst snd]. rewrite Hr1, Hr2. lia.
    + unfold ifelse_step, kadane_step. cbn [fst snd].
      destruct (Z.geb_spec (fst k + x) x);
        [rewrite (Z.max_r x) by lia|rewrite (Z.max_l x) by lia]; reflexivity.
Qed.

(** C9: under exact integer arithmetic, on every non-empty vector of
    [int]s, the reset-on-negative loop of max_subarray_02, the max-extend
    loop of max_subarray_12 and the if/else loop of max_subarray_09 return
    the same value. *)
Theorem kadane_variants_agree (nums : list Z) :
  nums <> [] -> Forall in_int nums ->
  exists m,
    (forall fuel, (length nums < fuel)%nat ->
                  @max_subarray_02.maxSubArray exact fuel nums = Ret m) /\
    @max_subarray_12.maxSubArray exact nums = Ret m /\
    (forall fuel, (length nums < fuel)%nat ->
                  @max_subarray_09.maxSubArray exact fuel nums = Ret m).
Proof.
  intros Hne Hint. destruct nums as [|x0 nums]; [congruence|]. clear Hne.
  apply Forall_cons in Hint as [Hx0 _]. unfold in_int in Hx0.
  exists (snd (fold_left kadane_step (x0 :: nums) (0, x0))).
  destruct (kadane_variants_fold nums (kadane_step (0, x0) x0)
              (reset_step (0, INT_MIN) x0) (ifelse_step (INT_MIN, 0) x0))
    as [H02 H09].
  { unfold reset_step, kadane_step. cbn [fst snd].
    destruct (Z.ltb_spec (0 + x0) 0); lia. }
  { unfold reset_step, kadane_step. cbn [fst snd]. lia. }
  { unfold ifelse_step, kadane_step. cbn [fst snd].
    destruct (Z.geb_spec (0 + x0) x0); f_equal; lia. }
  split; [|split].
  - intros fuel Hf. rewrite maxSubArray_02_fold by exact Hf. f_equal. exact H02.
  - unfold max_subarray_12.maxSubArray.
    change (read (x0 :: nums) 0) with (Ret (A:=Z) x0). cbn [outcome_bind].
    do 2 f_equal. apply fold_left_pointwise. intros [sum maxi] x. reflexivity.
  - intros fuel Hf. rewrite maxSubArray_09_fold by exact Hf. f_equal. exact H09.
Qed.

Lemma kadane_variants_agree_witness :
  exists m,
    (forall fuel, (length sample_vector < fuel)%nat ->
                  @max_subarray_02.maxSubArray exact fuel sample_vector = Ret m) /\
    @max_subarray_12.maxSubArray exact sample_vector = Ret m /\
    (forall fuel, (length sample_vector < fuel)%nat ->
                  @max_subarray_09.maxSubArray exact fuel sample_vector = Ret m).
Proof.
  apply (kadane_variants_agree sample_vector).
  - discriminate.
  - unfold sample_vector, in_int, INT_MIN, INT_MAX. repeat constructor; lia.
Defined.

Lemma max_subarray_reads_element_0_witness :
  exists r, @max_subarray_12.maxSubArray machine sample_vector = Ret r.
Proof.
  apply (proj2 max_subarray_reads_element_0 sample_vector). discriminate.
Defined.

(* ================================================================== *)
(** * Sorting programs *)
(* ================================================================== *)

(** C6: with fuel for six loop tests or more, the selection-sort loop of
    Student_8_SelectionSort and the bubble-sort loop of Student_3_DebugMode
    leave in [arr] the elements 64, 34, 25, 12, 22 in nondecreasing order,
    and both programs then print "12 22 25 34 64 " (the second one after its
    trace and the heading "Final Sorted array: "). *)
Theorem sorting_programs_sort (k : nat) :
  Sorted Z.le [12; 22; 25; 34; 64] /\
  Permutation [12; 22; 25; 34; 64] Student_8_SelectionSort.arr /\
  Permutation [12; 22; 25; 34; 64] Student_3_DebugMode.arr /\
  Student_8_SelectionSort.sort_loop (6 + k) Student_8_SelectionSort.arr
  = Ret [12; 22; 25; 34; 64] /\
  Student_8_SelectionSort.main (6 + k)
  = Ret ([12; 22; 25; 34; 64], "12 22 25 34 64 "%string, 0) /\
  (exists trace,
     Student_3_DebugMode.sort_loop (6 + k) Student_3_DebugMode.arr
       (print_line EmptyString "Starting Sort...")
     = Ret ([12; 22; 25; 34; 64], trace) /\
     Student_3_DebugMode.main (6 + k)
     = Ret ([12; 22; 25; 34; 64],
            (trace +:+ "Final Sorted array: " +:+ "12 22 25 34 64 ")%string, 0)).
Proof.
  split; [repeat constructor; lia|].
  split; [unfold Student_8_SelectionSort.arr; solve_Permutation|].
  split; [unfold Student_3_DebugMode.arr; solve_Permutation|].
  split; [vm_compute; reflexivity|].
  split; [vm_compute; reflexivity|].
  eexists. split; vm_compute; reflexivity.
Qed.

(* ================================================================== *)
(** * Linked-list reversal *)
(* ================================================================== *)

Import reverse_linked_list_student004.

Lemma chain_is_list h : forall addrs p vs, chain h p addrs vs -> is_list h p vs.
Proof.
  induction addrs as [|a addrs IH]; intros p [|v vs] H; cbn in *; try contradiction.
  - exact H.
  - destruct H as [-> (nx & Ha & Hc)]. exists a, nx. eauto.
Qed.

Lemma is_list_chain h : forall vs p, is_list h p vs -> exists addrs, chain h p addrs vs.
Proof.
  induction vs as [|v vs IH]; intros p H; cbn in *.
  - exists []. exact H.
  - destruct H as (a & nx & -> & Ha & Hl). destruct (IH _ Hl) as [addrs Hc].
    exists (a :: addrs). cbn. eauto.
Qed.

(** A pointer starts at most one chain. *)
Lemma chain_length_unique h : forall addrs1 p vs1 addrs2 vs2,
  chain h p addrs1 vs1 -> chain h p addrs2 vs2 -> length addrs1 = length addrs2.
Proof.
  induction addrs1 as [|a1 addrs1 IH]; intros p [|v1 vs1] [|a2 addrs2] [|v2 vs2] H1 H2;
    cbn in *; try contradiction; try reflexivity.
  - destruct H2 as [-> _]. discriminate.
  - destruct H1 as [-> _]. discriminate.
  - destruct H1 as [-> (nx1 & Ha1 & Hc1)], H2 as [E (nx2 & Ha2 & Hc2)].
    injection E as <-. rewrite Ha1 in Ha2. injection Ha2 as <- <-.
    f_equal. eapply IH; eassumption.
Qed.

Lemma chain_suffix h : forall l1 p a l2 vs,
  chain h p (l1 ++ a :: l2) vs ->
  chain h (Some a) (a :: l2) (drop (length l1) vs).
Proof.
  induction l1 as [|b l1 IH]; intros p a l2 [|v vs] H; cbn in *; try contradiction.
  - destruct H as [-> H]. split; [reflexivity|exact H].
  - destruct H as [-> (nx & Hb & Hc)]. exact (IH _ _ _ _ Hc).
Qed.

(** A null-terminated chain visits no node twice. *)
Lemma chain_NoDup h : forall addrs p vs, chain h p addrs vs -> NoDup addrs.
Proof.
  induction addrs as [|a addrs IH]; intros p [|v vs] H; cbn in H; try contradiction.
  - constructor.
  - destruct H as [-> (nx & Ha & Hc)]. constructor; [|exact (IH _ _ Hc)].
    intros Hin. apply list_elem_of_split in Hin as (l1 & l2 & ->).
    pose proof (chain_suffix _ _ _ _ _ _ Hc) as Hs.
    assert (chain h (Some a) (a :: l1 ++ a :: l2) (v :: vs)) as Hfull
      by (cbn; eauto).
    pose proof (chain_length_unique _ _ _ _ _ _ Hs Hfull) as Hlen.
    cbn in Hlen. rewrite length_app in Hlen. cbn in Hlen. lia.
Qed.

(** Writing a node outside a chain leaves the chain as it is. *)
Lemma chain_frame h a node : forall addrs p vs,
  a ∉ addrs -> chain h p addrs vs -> chain (<[a := node]> h) p addrs vs.
Proof.
  induction addrs as [|b addrs IH]; intros p [|v vs] Hnot H; cbn in *;
    try contradiction.
  - exact H.
  - destruct H as [-> (nx & Hb & Hc)]. apply not_elem_of_cons in Hnot as [Hne Hnot].
    split; [reflexivity|]. exists nx. split.
    + rewrite lookup_insert_ne by congruence. exact Hb.
    + apply IH; assumption.
Qed.

(** The loop of [solvejxa]: the nodes still to visit form a chain from
    [head], the nodes already turned form a chain from [prev], and no node
    is in both. *)
Lemma solvejxa_loop_spec : forall addrs vs h head prev done_addrs done_vs,
  chain h head addrs vs -> chain h prev done_addrs done_vs ->
  NoDup (addrs ++ done_addrs) ->
  exists h' p,
    (forall fuel, (length vs < fuel)%nat ->
                  solvejxa_loop fuel h head prev = Ret (h', p)) /\
    chain h' p (rev addrs ++ done_addrs) (rev vs ++ done_vs).
Proof.
  induction addrs as [|a addrs IH]; intros [|v vs] h head prev done_addrs done_vs
    Hc Hd Hnd; cbn in Hc; try contradiction.
  - subst head. exists h, prev. split; [|exact Hd].
    intros [|fuel] Hf; [cbn in Hf; lia|reflexivity].
  - destruct Hc as [-> (nx & Ha & Hc)].
    cbn [app] in Hnd. apply NoDup_cons in Hnd as [Hnot Hnd].
    apply not_elem_of_app in Hnot as [Hnot1 Hnot2].
    destruct (IH vs (<[a := {| val := v; next := prev |}]> h) nx (Some a)
                (a :: done_addrs) (v :: done_vs)) as (h' & p & Hrun & Hres).
    + apply chain_frame; assumption.
    + cbn. split; [reflexivity|]. exists prev. split.
      * apply lookup_insert_eq.
      * apply chain_frame; assumption.
    + apply NoDup_app. apply NoDup_app in Hnd as (Hn1 & Hn2 & Hn3).
      split; [exact Hn1|]. split.
      * intros x Hx Hin. apply elem_of_cons in Hin as [->|Hin]; [contradiction|].
        exact (Hn2 x Hx Hin).
      * constructor; assumption.
    + exists h', p. split.
      * intros [|fuel] Hf; [lia|]. cbn [solvejxa_loop]. rewrite Ha. cbn [val next].
        apply Hrun. cbn [length] in Hf. lia.
      * cbn [rev]. rewrite <- !app_assoc. exact Hres.
Qed.

(** C7: on a heap that holds at [head] a null-terminated list with the
    values [vs], [solvejxa] returns within [length vs + 1] loop tests a
    pointer to a list with the values [rev vs]; on the empty list it
    returns [NULL]. *)
Theorem reversal_correct (h : gmap nat ListNode) (head : ptr) (vs : list Z) :
  is_list h head vs ->
  exists h' p,
    (forall fuel, (length vs < fuel)%nat -> solvejxa fuel h head = Ret (h', p)) /\
    is_list h' p (rev vs) /\
    (vs = [] -> p = None).
Proof.
  intros Hl. apply is_list_chain in Hl as [addrs Hc].
  destruct (solvejxa_loop_spec addrs vs h head None [] []) as (h' & p & Hrun & Hres).
  - exact Hc.
  - reflexivity.
  - rewrite app_nil_r. exact (chain_NoDup _ _ _ _ Hc).
  - rewrite !app_nil_r in Hres. exists h', p. split; [exact Hrun|]. split.
    + exact (chain_is_list _ _ _ _ Hres).
    + intros ->. destruct addrs; cbn in Hres; [exact Hres|].
      cbn in Hc. contradiction.
Qed.

Lemma reversal_correct_witness :
  exists h' p,
    (forall fuel, (2 < fuel)%nat ->
       solvejxa fuel (<[1%nat := {| val := 10; next := Some 2%nat |}]>
                        (<[2%nat := {| val := 20; next := None |}]> ∅))
                (Some 1%nat) = Ret (h', p)) /\
    is_list h' p [20; 10] /\
    ([10; 20] = [] -> p = None).
Proof.
  apply (reversal_correct _ (Some 1%nat) [10; 20]).
  exists 1%nat, (Some 2%nat). split; [reflexivity|]. split; [reflexivity|].
  exists 2%nat, None. split; [reflexivity|]. split; [reflexivity|]. reflexivity.
Defined.

(* ================================================================== *)
(** * The binary-search corpus: clones up to renaming *)
(* ================================================================== *)

Lemma renaming_check_sound ts1 ts2 :
  renaming_check ts1 ts2 = true -> same_up_to_renaming ts1 ts2.
Proof.
  unfold renaming_check. intros H.
  apply andb_prop in H as [H H4]. apply andb_prop in H as [H H3].
  apply andb_prop in H as [H1 H2].
  exists (aligned_idents ts1 ts2). unfold renames_onto.
  repeat split; eapply bool_decide_unpack, Is_true_true; eassumption.
Qed.

(** A renaming touches identifiers only. *)
Lemma renaming_skeleton ts1 ts2 :
  same_up_to_renaming ts1 ts2 -> skeleton ts1 = skeleton ts2.
Proof.
  intros (m & _ & _ & _ & <-). unfold skeleton.
  rewrite <- list_fmap_compose. apply list_fmap_ext.
  intros i [w|w|w|w] _; reflexivity.
Qed.

Lemma all_renamings_sound l1 l2 t1 t2 :
  all_renamings l1 l2 = true -> t1 ∈ l1 -> t2 ∈ l2 -> same_up_to_renaming t1 t2.
Proof.
  unfold all_renamings. intros H H1 H2.
  rewrite forallb_forall in H. apply list_elem_of_In in H1, H2.
  specialize (H _ H1). rewrite forallb_forall in H.
  apply renaming_check_sound, H, H2.
Qed.

Lemma no_common_skeleton_sound l1 l2 t1 t2 :
  no_common_skeleton l1 l2 = true -> t1 ∈ l1 -> t2 ∈ l2 -> ~ same_up_to_renaming t1 t2.
Proof.
  unfold no_common_skeleton. intros H H1 H2 Hsame.
  rewrite forallb_forall in H. apply list_elem_of_In in H1, H2.
  specialize (H _ H1). rewrite forallb_forall in H. specialize (H _ H2).
  apply renaming_skeleton in Hsame.
  apply negb_true_iff, bool_decide_eq_false in H. contradiction.
Qed.

Lemma well_ordered_renamings :
  all_renamings (tokens ∘ snd <$> well_ordered) (tokens ∘ snd <$> well_ordered) = true.
Proof. vm_compute. reflexivity. Qed.

Lemma shuffled_skeletons :
  no_common_skeleton (tokens ∘ snd <$> shuffled) (tokens ∘ snd <$> well_ordered) = true.
Proof. vm_compute. reflexivity. Qed.

(** C3, as amended: of the 69 binary-search snippets, the 64 whose lines
    are in order differ from one another only in identifier names: for
    every pair of them a bijection of identifiers maps one token sequence
    onto the other; their normalized token sequences are all the same.  The
    five others are renamings of none of the 64. *)
Theorem well_ordered_clones_up_to_renaming :
  length binary_search_corpus = 69%nat /\ length well_ordered = 64%nat /\
  length shuffled = 5%nat /\
  (forall a b, a ∈ well_ordered -> b ∈ well_ordered ->
     same_up_to_renaming (tokens (snd a)) (tokens (snd b))) /\
  (forall a, a ∈ well_ordered ->
     normalize (tokens (snd a)) = normalize (tokens binary_search_student002_cpp)) /\
  (forall a b, a ∈ shuffled -> b ∈ well_ordered ->
     ~ same_up_to_renaming (tokens (snd a)) (tokens (snd b))).
Proof.
  split; [reflexivity|]. split; [vm_compute; reflexivity|].
  split; [vm_compute; reflexivity|]. split; [|split].
  - intros a b Ha Hb.
    apply (all_renamings_sound _ _ _ _ well_ordered_renamings);
      apply (list_elem_of_fmap_2 (tokens ∘ snd)); assumption.
  - assert (Forall (fun a => normalize (tokens (snd a))
                             = normalize (tokens binary_search_student002_cpp))
                   well_ordered) as H.
    { apply (bool_decide_unpack _). vm_compute. exact I. }
    intros a Ha. rewrite Forall_forall in H. apply H, Ha.
  - intros a b Ha Hb.
    apply (no_common_skeleton_sound _ _ _ _ shuffled_skeletons);
      apply (list_elem_of_fmap_2 (tokens ∘ snd)); assumption.
Qed.

(** The snippet with [vecb]/[goalb] whose lines are in order and the snippet
    with [numbers]/[threshold]. *)
Lemma well_ordered_clones_up_to_renaming_witness :
  same_up_to_renaming (tokens binary_search_student001_clone2_cpp)
                      (tokens binary_search_student002_cpp).
Proof.
  apply (proj1 (proj2 (proj2 (proj2 well_ordered_clones_up_to_renaming)))
           ("binary_search_student001_clone2.cpp"%string,
            binary_search_student001_clone2_cpp)
           ("binary_search_student002.cpp"%string, binary_search_student002_cpp));
    apply (bool_decide_unpack _); vm_compute; exact I.
Defined.

(** C3 fails on the snippets the claim names: no renaming maps the tokens
    of solvejd_cloneib (binary_search_student015_clone2.cpp, with
    [vecb]/[goalb]) onto those of solveoom (binary_search_student002.cpp,
    with [numbers]/[threshold]): after the first declaration one has [if]
    where the other has [while]. *)
Lemma clones_up_to_renaming_counterexample :
  ("binary_search_student015_clone2.cpp"%string, binary_search_student015_clone2_cpp)
    ∈ binary_search_corpus /\
  ("binary_search_student002.cpp"%string, binary_search_student002_cpp)
    ∈ binary_search_corpus /\
  tokens binary_search_student015_clone2_cpp !! 29%nat = Some (TKeyword "if") /\
  tokens binary_search_student002_cpp !! 29%nat = Some (TKeyword "while") /\
  ~ same_up_to_renaming (tokens binary_search_student015_clone2_cpp)
                        (tokens binary_search_student002_cpp).
Proof.
  split; [apply (bool_decide_unpack _); vm_compute; exact I|].
  split; [apply (bool_decide_unpack _); vm_compute; exact I|].
  split; [vm_compute; reflexivity|]. split; [vm_compute; reflexivity|].
  intros H. apply renaming_skeleton in H. vm_compute in H. discriminate H.
Qed.

(* ================================================================== *)
(** * The shuffled clones: lines, statements, and what they compute *)
(* ================================================================== *)

Lemma wrap32_idem z : wrap32 (wrap32 z) = wrap32 z.
Proof. apply wrap32_small, wrap32_range. Qed.



(** ** The well-ordered lines compute [solveoom] *)





Lemma exec_While vn v fuel c body rho :
  exec vn v (S fuel) (While c body) rho
  = (let* b := eval vn v rho c in
     if snd b =? 0 then Ret (Continue rho)
     else match exec_block (exec vn v fuel) body rho with
          | Ret (Continue rho') => exec vn v fuel (While c body) (leave_block rho rho')
          | r => r
          end).
Proof. reflexivity. Qed.









(** ** More fuel, same result *)

Lemma exec_block_more_fuel (ex1 ex2 : stmt -> env -> outcome (ctl env Z)) :
  (forall s rho o, ex1 s rho = o -> o <> OutOfFuel -> ex2 s rho = o) ->
  forall ss rho o, exec_block ex1 ss rho = o -> o <> OutOfFuel ->
                   exec_block ex2 ss rho = o.
Proof.
  intros Hex. induction ss as [|s ss IH]; intros rho o H Ho; [exact H|].
  cbn [exec_block] in *.
  destruct (ex1 s rho) as [[rho'|z]| |] eqn:E.
  - rewrite (Hex _ _ _ E) by discriminate. apply IH; assumption.
  - rewrite (Hex _ _ _ E) by discriminate. exact H.
  - rewrite (Hex _ _ _ E) by discriminate. exact H.
  - congruence.
Qed.

Lemma exec_more_fuel vn v : forall f1 f2 s rho o,
  (f1 <= f2)%nat -> exec vn v f1 s rho = o -> o <> OutOfFuel ->
  exec vn v f2 s rho = o.
Proof.
  induction f1 as [|f1 IH]; intros f2 s rho o Hf H Ho.
  - destruct s; try (destruct f2; exact H). cbn in H. congruence.
  - destruct s; try (destruct f2; exact H).
    destruct f2 as [|f2]; [lia|]. rewrite exec_While in *.
    destruct (eval vn v rho c) as [b| |]; cbn [outcome_bind] in *; try exact H.
    destruct (snd b =? 0); [exact H|].
    destruct (exec_block (exec vn v f1) body rho) as [[rho'|z]| |] eqn:E.
    + rewrite (exec_block_more_fuel (exec vn v f1) (exec vn v f2)
                 ltac:(intros; apply (IH f2); [lia|assumption|assumption]) _ _ _ E)
        by discriminate.
      apply IH; [lia|exact H|exact Ho].
    + rewrite (exec_block_more_fuel (exec vn v f1) (exec vn v f2)
                 ltac:(intros; apply (IH f2); [lia|assumption|assumption]) _ _ _ E)
        by discriminate.
      exact H.
    + rewrite (exec_block_more_fuel (exec vn v f1) (exec vn v f2)
                 ltac:(intros; apply (IH f2); [lia|assumption|assumption]) _ _ _ E)
        by discriminate.
      exact H.
    + congruence.
Qed.

Lemma exec_block_from_0 vn v fuel ss rho o :
  exec_block (exec vn v O) ss rho = o -> o <> OutOfFuel ->
  exec_block (exec vn v fuel) ss rho = o.
Proof.
  apply exec_block_more_fuel. intros s rho' o'. apply exec_more_fuel. lia.
Qed.

(** ** The def-before-use pass *)

Lemma binop_code_inj op1 op2 : binop_code op1 = binop_code op2 -> op1 = op2.
Proof. destruct op1, op2; cbn; congruence. Qed.

Lemma expr_tree_inj : forall e1 e2, expr_tree e1 = expr_tree e2 -> e1 = e2.
Proof.
  induction e1 as [z|x|v|v e IH|op a IHa b IHb|e IH]; intros [z'|x'|v'|v' e'|op' a' b'|e'] H;
    cbn in H; try discriminate; try (destruct op; discriminate);
    try (destruct op'; discriminate).
  - congruence.
  - congruence.
  - congruence.
  - injection H as -> H. f_equal. auto.
  - injection H as Hop Ha Hb.
    assert (op = op') as -> by (apply binop_code_inj; lia).
    f_equal; auto.
  - injection H as H. f_equal. auto.
Qed.

Lemma simple_tree_inj s1 s2 : simple_tree s1 = simple_tree s2 -> s1 = s2.
Proof.
  destruct s1, s2; cbn; intros H; try discriminate.
  - injection H as -> H. f_equal. apply expr_tree_inj, H.
  - injection H as H. f_equal. apply expr_tree_inj, H.
Qed.

Lemma line_tree_inj l1 l2 : line_tree l1 = line_tree l2 -> l1 = l2.
Proof.
  destruct l1 as [ds1|c1| |c1 s1|s1|s1], l2 as [ds2|c2| |c2 s2|s2|s2]; cbn; intros H;
    try discriminate.
  - injection H as H. f_equal. revert ds2 H.
    induction ds1 as [|[x1 e1] ds1 IH]; intros [|[x2 e2] ds2] H; cbn in H;
      try discriminate; [reflexivity|].
    injection H as -> He H. apply expr_tree_inj in He as ->. f_equal. auto.
  - injection H as H. f_equal. apply expr_tree_inj, H.
  - reflexivity.
  - injection H as Hc Hs. f_equal; [apply expr_tree_inj, Hc|apply simple_tree_inj, Hs].
  - injection H as H. f_equal. apply simple_tree_inj, H.
  - injection H as H. f_equal. apply simple_tree_inj, H.
Qed.

Lemma line_code_inj l1 l2 : line_code l1 = line_code l2 -> l1 = l2.
Proof. intros H. apply line_tree_inj. exact (encode_inj _ _ H). Qed.

Lemma line_le_spec a b :
  line_le a b <->
  (line_rank a < line_rank b)%nat \/
  (line_rank a = line_rank b /\ (line_code a <= line_code b)%positive).
Proof.
  unfold line_le, line_leb.
  rewrite orb_true_iff, andb_true_iff, Nat.ltb_lt, Nat.eqb_eq, Pos.leb_le.
  reflexivity.
Qed.

(** [line_le] is a total order. *)
Global Instance line_le_trans : Transitive line_le.
Proof. intros a b c. rewrite !line_le_spec. lia. Qed.

Global Instance line_le_total : Total line_le.
Proof. intros a b. rewrite !line_le_spec. lia. Qed.

Global Instance line_le_antisymm : AntiSymm eq line_le.
Proof.
  intros a b. rewrite !line_le_spec. intros H1 H2.
  apply line_code_inj. lia.
Qed.

(** The canonical order of the lines depends on the lines only. *)
Lemma sort_lines_canonical ls1 ls2 : ls1 ≡ₚ ls2 -> sort_lines ls1 = sort_lines ls2.
Proof.
  intros H. unfold sort_lines.
  apply (sorting.StronglySorted_unique line_le);
    try apply sorting.StronglySorted_merge_sort; try apply _.
  rewrite !sorting.merge_sort_Permutation. exact H.
Qed.

(** The pass is canonical: on two permutations of the same lines it gives
    the same result. *)
Lemma def_before_use_canonical declared ls1 ls2 :
  ls1 ≡ₚ ls2 -> def_before_use declared ls1 = def_before_use declared ls2.
Proof.
  intros H. unfold def_before_use.
  rewrite (sort_lines_canonical _ _ H), (Permutation_length H). reflexivity.
Qed.

Lemma take_first_Permutation p : forall ls l rest,
  take_first p ls = Some (l, rest) -> ls ≡ₚ l :: rest.
Proof.
  induction ls as [|a ls IH]; intros l rest H; cbn in H; [discriminate|].
  destruct (p a).
  - injection H as <- <-. reflexivity.
  - destruct (take_first p ls) as [[r rest']|] eqn:E; cbn in H; [|discriminate].
    injection H as <- <-. rewrite (IH _ _ eq_refl). apply Permutation_swap.
Qed.

Lemma emit_Permutation : forall fuel scopes after_if ls,
  emit fuel scopes after_if ls ≡ₚ ls.
Proof.
  induction fuel as [|fuel IH]; intros scopes after_if ls; [reflexivity|].
  cbn [emit]. destruct (take_first _ ls) as [[l rest]|] eqn:E; [|reflexivity].
  rewrite IH. symmetry. exact (take_first_Permutation _ _ _ _ E).
Qed.

(** The pass only reorders: its result holds the lines it was given. *)
Lemma def_before_use_Permutation declared ls : def_before_use declared ls ≡ₚ ls.
Proof.
  unfold def_before_use. rewrite emit_Permutation. apply sorting.merge_sort_Permutation.
Qed.



(** ** The claim on the shuffled clones *)



(* ================================================================== *)
(** * Binary search: more on [solveoom] and [searchBinary] *)
(* ================================================================== *)

(** Each round of the loop halves the interval [left .. right]: an interval
    of fewer than [2^k] positions is searched with [k + 1] loop tests. *)
Lemma solveoom_loop_halves numbers threshold (k : nat) : forall lo hi,
  vsize numbers <= INT_MAX ->
  0 <= lo -> hi < vsize numbers -> lo <= hi + 1 ->
  hi - lo + 1 < 2 ^ Z.of_nat k ->
  exists r, solveoom_loop (S k) numbers threshold lo hi = Ret r.
Proof.
  induction k as [|k IH]; intros lo hi Hn Hl Hr Hlr Hw.
  - cbn [solveoom_loop]. change (2 ^ Z.of_nat 0) with 1 in Hw.
    destruct (Z.leb_spec lo hi); [lia|]. eauto.
  - cbn [solveoom_loop].
    destruct (Z.leb_spec lo hi) as [Hle|Hgt]; [|eauto].
    rewrite solveoom_mid by (unfold INT_MAX in *; lia).
    pose proof (mid_between lo hi Hle) as Hm.
    assert (2 ^ Z.of_nat (S k) = 2 * 2 ^ Z.of_nat k) as Hpow
      by (rewrite Nat2Z.inj_succ, Z.pow_succ_r by lia; reflexivity).
    pose proof (Z.div_mod (hi - lo) 2 ltac:(lia)) as Hdm.
    pose proof (Z.mod_pos_bound (hi - lo) 2 ltac:(lia)) as Hmod.
    set (mid := lo + (hi - lo) / 2) in *.
    destruct (vec_at_in_bounds numbers mid) as [x Hx]; [lia|]. rewrite Hx.
    destruct (x =? threshold); [eauto|].
    destruct (x <? threshold).
    + rewrite add32_small by (unfold in_int, INT_MIN, INT_MAX in *; lia).
      apply IH; lia.
    + rewrite sub32_small by (unfold in_int, INT_MIN, INT_MAX in *; lia).
      apply IH; lia.
Qed.

(** X1: [solveoom] is logarithmic: on a vector of fewer than [2^k] elements
    (that [int] can index) it returns with [k + 1] loop tests, whatever the
    contents and the target; 32 loop tests are always enough. *)
Theorem solveoom_logarithmic (numbers : list Z) (threshold : Z) (k : nat) :
  vsize numbers <= INT_MAX -> vsize numbers < 2 ^ Z.of_nat k ->
  exists r, forall fuel, (k < fuel)%nat -> solveoom fuel numbers threshold = Ret r.
Proof.
  intros Hn Hk.
  destruct (solveoom_loop_halves numbers threshold k 0 (vsize numbers - 1))
    as [r Hr]; try (unfold vsize in *; lia).
  exists r. intros fuel Hf. unfold solveoom.
  rewrite size_minus_1_small by lia.
  replace fuel with (S k + (fuel - S k))%nat by lia.
  apply solveoom_loop_more_fuel. exact Hr.
Qed.

Lemma solveoom_logarithmic_witness :
  exists r, forall fuel, (3 < fuel)%nat -> solveoom fuel [2; 4; 6; 8; 10; 12; 14] 12 = Ret r.
Proof.
  apply (solveoom_logarithmic [2; 4; 6; 8; 10; 12; 14] 12 3).
  - unfold vsize, INT_MAX; simpl; lia.
  - unfold vsize; simpl; lia.
Defined.

(** X2: whatever the contents of the vector, sorted or not, a value that
    [solveoom] returns is -1 or a position that holds the target; it never
    returns a position of another value. *)
Theorem solveoom_sound (numbers : list Z) (threshold : Z) (fuel : nat) (r : Z) :
  vsize numbers <= INT_MAX ->
  solveoom fuel numbers threshold = Ret r ->
  r = -1 \/ (0 <= r < vsize numbers /\ vec_at numbers r = Some threshold).
Proof.
  intros Hn Hrun.
  destruct (solveoom_spec numbers threshold Hn) as [r0 [Hrun0 Hres]].
  assert (r = r0) as ->.
  { unfold solveoom in Hrun.
    apply (solveoom_loop_more_fuel _ _ _ _ _ _ (S (length numbers))) in Hrun.
    specialize (Hrun0 (fuel + S (length numbers))%nat ltac:(lia)).
    unfold solveoom in Hrun0. congruence. }
  destruct Hres as [[H0 Hv]|[-> _]]; [right|left; reflexivity].
  split; [|exact Hv]. exact (vec_at_Some _ _ _ Hv).
Qed.

Lemma solveoom_sound_witness :
  1 = -1 \/ (0 <= 1 < vsize [7; 3; 9] /\ vec_at [7; 3; 9] 1 = Some 3).
Proof.
  apply (solveoom_sound [7; 3; 9] 3 5 1).
  - unfold vsize, INT_MAX; simpl; lia.
  - reflexivity.
Defined.

(** X3: on a vector of at most 2^30 elements [searchBinary] is [solveoom]:
    the two midpoint formulas give the same index, so the two functions
    return the same outcome with the same number of loop tests; what
    [searchBinary] returns is -1 or a position of the value. *)
Theorem searchBinary_is_solveoom (nums : list Z) (value : Z) (fuel : nat) :
  vsize nums <= 1073741824 ->
  searchBinary fuel nums value = solveoom fuel nums value /\
  (forall r, searchBinary fuel nums value = Ret r ->
             r = -1 \/ (0 <= r < vsize nums /\ vec_at nums r = Some value)).
Proof.
  intros Hn. unfold searchBinary, solveoom.
  rewrite size_minus_1_small by (unfold INT_MAX; lia).
  rewrite searchBinary_loop_solveoom_loop by (unfold vsize in *; lia).
  split; [reflexivity|]. intros r Hrun.
  destruct (solveoom_spec nums value ltac:(unfold INT_MAX; lia)) as [r0 [Hrun0 Hres]].
  assert (r = r0) as ->.
  { apply (solveoom_loop_more_fuel _ _ _ _ _ _ (S (length nums))) in Hrun.
    specialize (Hrun0 (fuel + S (length nums))%nat ltac:(lia)).
    unfold solveoom in Hrun0. rewrite size_minus_1_small in Hrun0 by (unfold INT_MAX; lia).
    congruence. }
  destruct Hres as [[H0 Hv]|[-> _]]; [right|left; reflexivity].
  split; [|exact Hv]. exact (vec_at_Some _ _ _ Hv).
Qed.

Lemma searchBinary_is_solveoom_witness :
  searchBinary 4 [2; 4; 6; 8; 10; 12; 14; 16] 10 = solveoom 4 [2; 4; 6; 8; 10; 12; 14; 16] 10 /\
  (forall r, searchBinary 4 [2; 4; 6; 8; 10; 12; 14; 16] 10 = Ret r ->
             r = -1 \/ (0 <= r < vsize [2; 4; 6; 8; 10; 12; 14; 16]
                        /\ vec_at [2; 4; 6; 8; 10; 12; 14; 16] r = Some 10)).
Proof.
  apply (searchBinary_is_solveoom [2; 4; 6; 8; 10; 12; 14; 16] 10 4).
  unfold vsize; simpl; lia.
Defined.

(* ================================================================== *)
(** * Linear search *)
(* ================================================================== *)

Import linear_search.

(** The loop of [linearSearch] in the model looks at the positions below
    [min (size, 2^31)], in order; a vector of at most 2^31 elements is
    looked through without the counter leaving the range of [int] before
    the last test. *)
Lemma linearSearch_returns arr target fuel :
  vsize arr < 18446744071562067968 ->
  (Z.to_nat (Z.min (vsize arr) 2147483648) < fuel)%nat ->
  returns (linearSearch fuel arr target)
          (first_index (Z.min (vsize arr) 2147483648) arr target).
Proof.
  intros Hmax Hfuel. set (m := Z.min (vsize arr) 2147483648) in *.
  assert (0 <= m <= 2147483648 /\ m <= vsize arr) as Hm
    by (unfold vsize in *; lia).
  assert (forall k, 0 <= k < m -> wrap32 k = k) as Hrep
    by (intros k Hk; apply wrap32_small; unfold in_int, INT_MIN, INT_MAX; lia).
  unfold linearSearch. apply returns_bind.
  eapply returns_weaken.
  - apply (for_loop_count
             (fun k (_ : unit) => forall j, 0 <= j < k -> vec_at arr j <> Some target)
             (fun r => 0 <= r < m /\ vec_at arr r = Some target /\
                       forall j, 0 <= j < r -> vec_at arr j <> Some target)
             (lt_size arr) incr _ wrap32 0 m) with (lo := 0).
    + intros k Hk. apply lt_size_below. fold m. lia.
    + apply lt_size_at_end. exact Hmax.
    + intros k _. apply incr_wrap32.
    + intros k [] Hk Hbefore. rewrite (Hrep k Hk).
      apply returns_bind, returns_read; [|lia]. intros x Hx.
      destruct (Z.eqb_spec x target) as [->|Hne]; cbn.
      * split; [lia|]. split; [exact Hx|exact Hbefore].
      * intros j Hj. destruct (Z.eq_dec j k) as [->|]; [congruence|].
        apply Hbefore. lia.
    + reflexivity.
    + lia.
    + lia.
    + intros j Hj. lia.
  - intros [[]|r]; cbn.
    + intros Hnone. right. split; [reflexivity|exact Hnone].
    + intros Hd. left. exact Hd.
Qed.

Lemma linearSearch_more_fuel arr target f1 f2 r :
  (f1 <= f2)%nat -> linearSearch f1 arr target = Ret r -> linearSearch f2 arr target = Ret r.
Proof.
  intros Hf. unfold linearSearch.
  match goal with
  | |- outcome_bind ?m1 _ = _ -> outcome_bind ?m2 _ = _ =>
      destruct m1 as [c| |] eqn:E1; cbn; try discriminate;
      assert (m2 = Ret c) as E2
  end.
  { revert E1. apply for_loop_more_fuel; [|exact Hf]. auto. }
  rewrite E2. cbn. auto.
Qed.

Lemma linearSearch_spec arr target :
  vsize arr < 18446744071562067968 ->
  exists r,
    (forall fuel, (Z.to_nat (Z.min (vsize arr) 2147483648) < fuel)%nat ->
                  linearSearch fuel arr target = Ret r) /\
    first_index (Z.min (vsize arr) 2147483648) arr target r.
Proof.
  intros Hmax.
  pose proof (linearSearch_returns arr target
                (S (Z.to_nat (Z.min (vsize arr) 2147483648))) Hmax ltac:(lia)) as H.
  apply returns_inv in H as [r [Hrun Hres]].
  exists r. split; [|exact Hres].
  intros fuel Hf. revert Hrun. apply linearSearch_more_fuel. lia.
Qed.

(** X4: [linearSearch] on a vector of at most 2^31 elements returns,
    within [size + 1] loop tests and with every read in bounds, the first
    position of the target, or -1 exactly when the target is not in the
    vector. *)
Theorem linearSearch_correct (arr : list Z) (target : Z) :
  vsize arr <= 2147483648 ->
  exists r,
    (forall fuel, (length arr < fuel)%nat -> linearSearch fuel arr target = Ret r) /\
    first_index (vsize arr) arr target r /\
    (r = -1 <-> ~ In target arr).
Proof.
  intros Hn.
  destruct (linearSearch_spec arr target) as [r [Hrun Hres]]; [lia|].
  rewrite Z.min_l in Hrun, Hres by lia.
  exists r. split; [|split; [exact Hres|]].
  - intros fuel Hf. apply Hrun. unfold vsize. lia.
  - destruct Hres as [(Hr & Hx & _)|[-> Hnone]].
    + split; [lia|]. intros Hnot. exfalso. apply Hnot, In_vec_at. eauto.
    + split; [|reflexivity]. intros _ Hin. apply In_vec_at in Hin as [k Hk].
      apply (Hnone k); [exact (vec_at_Some _ _ _ Hk)|exact Hk].
Qed.

Lemma linearSearch_correct_witness :
  exists r,
    (forall fuel, (length [5; 2; 8; 12; 3; 7; 1] < fuel)%nat ->
                  linearSearch fuel [5; 2; 8; 12; 3; 7; 1] 12 = Ret r) /\
    first_index (vsize [5; 2; 8; 12; 3; 7; 1]) [5; 2; 8; 12; 3; 7; 1] 12 r /\
    (r = -1 <-> ~ In 12 [5; 2; 8; 12; 3; 7; 1]).
Proof.
  apply (linearSearch_correct [5; 2; 8; 12; 3; 7; 1] 12). unfold vsize; simpl; lia.
Defined.

(** The loop of [linearSearch] from position [i] up to the first position
    [r] of the target: the counter stays below [INT_MAX] and nothing
    wraps. *)
Lemma linearSearch_loop_finds (arr : list Z) (target r : Z) :
  0 <= r <= INT_MAX -> vec_at arr r = Some target ->
  (forall j, 0 <= j < r -> vec_at arr j <> Some target) ->
  forall fuel i, 0 <= i <= r -> (Z.to_nat (r - i) < fuel)%nat ->
    for_loop fuel (lt_size arr) incr
      (fun i (_ : unit) =>
         let* x := read arr i in
         if x =? target then Ret (Return i) else Ret (Continue tt))
      i tt
    = Ret (Return r).
Proof.
  intros Hr Hx Hfirst. pose proof (vec_at_Some _ _ _ Hx) as Hsize.
  unfold INT_MAX in Hr.
  induction fuel as [|fuel IH]; intros i Hi Hf; [lia|].
  cbn [for_loop].
  assert (lt_size arr i = true) as ->.
  { unfold lt_size, wrap64u. rewrite Z.mod_small by lia. apply Z.ltb_lt. lia. }
  destruct (Z.eq_dec i r) as [->|Hne].
  - unfold read. rewrite Hx. cbn [outcome_bind]. rewrite Z.eqb_refl. reflexivity.
  - destruct (vec_at_in_bounds arr i ltac:(lia)) as [y Hy].
    unfold read. rewrite Hy. cbn [outcome_bind].
    destruct (Z.eqb_spec y target) as [->|_].
    + exfalso. apply (Hfirst i); [lia|exact Hy].
    + replace (incr i) with (i + 1)
        by (symmetry; apply add32_small; unfold in_int, INT_MIN, INT_MAX; lia).
      apply IH; lia.
Qed.

(** X5: [linearSearch] on a vector of any size, also one too long for an
    [int] counter: when the first position of the target is [r] and [r] is
    at most [INT_MAX], it returns [r] after [r + 1] loop tests; every read
    is in bounds and the counter never reaches the point where it would
    overflow. *)
Theorem linearSearch_finds_first (arr : list Z) (target r : Z) (fuel : nat) :
  0 <= r <= INT_MAX -> vec_at arr r = Some target ->
  (forall j, 0 <= j < r -> vec_at arr j <> Some target) ->
  (Z.to_nat r < fuel)%nat ->
  linearSearch fuel arr target = Ret r.
Proof.
  intros Hr Hx Hfirst Hf. unfold linearSearch.
  rewrite (linearSearch_loop_finds arr target r Hr Hx Hfirst fuel 0) by lia.
  reflexivity.
Qed.

Lemma linearSearch_finds_first_witness :
  linearSearch 3 long_vector 3 = Ret 2.
Proof.
  destruct long_vector_head as (H0 & H1 & H2).
  apply (linearSearch_finds_first long_vector 3 2 3).
  - unfold INT_MAX. lia.
  - exact H2.
  - intros j Hj. assert (j = 0 \/ j = 1) as [-> | ->] by lia; congruence.
  - simpl. lia.
Defined.

(** X6: on a sorted vector of at most [INT_MAX] elements the linear and
    the binary search agree on whether the target is there: both return
    -1, and the target is not in the vector, or both return a position of
    the target, the linear search the first one and the binary search one
    that is not before it. *)
Theorem linear_and_binary_search_agree (v : list Z) (target : Z) :
  Sorted Z.le v -> vsize v <= INT_MAX ->
  exists rl rb,
    (forall fuel, (length v < fuel)%nat ->
       linearSearch fuel v target = Ret rl /\
       binary_search_student002.solveoom fuel v target = Ret rb) /\
    ((rl = -1 /\ rb = -1 /\ ~ In target v) \/
     (0 <= rl <= rb /\ vec_at v rl = Some target /\ vec_at v rb = Some target /\
      forall k, 0 <= k < rl -> vec_at v k <> Some target)).
Proof.
  intros Hs Hn.
  destruct (linearSearch_spec v target) as [rl [Hrunl Hresl]]; [unfold INT_MAX in Hn; lia|].
  rewrite Z.min_l in Hrunl, Hresl by (unfold INT_MAX in Hn; lia).
  destruct (solveoom_spec v target Hn) as [rb [Hrunb Hresb]].
  exists rl, rb. split.
  - intros fuel Hf. split; [apply Hrunl; unfold vsize; lia|apply Hrunb; exact Hf].
  - destruct Hresl as [(Hrl & Hxl & Hfirst)|[-> Hnone]].
    + destruct Hresb as [[Hrb Hxb]|[-> Habsent]].
      * right. split; [|auto]. split; [lia|].
        destruct (Z.le_gt_cases rl rb) as [|Hlt]; [assumption|].
        exfalso. apply (Hfirst rb); [lia|exact Hxb].
      * exfalso. apply (Habsent Hs), In_vec_at. eauto.
    + assert (~ In target v) as Hnot.
      { intros Hin. apply In_vec_at in Hin as [k Hk].
        apply (Hnone k); [exact (vec_at_Some _ _ _ Hk)|exact Hk]. }
      destruct Hresb as [[Hrb Hxb]|[-> _]]; [|left; auto].
      exfalso. apply Hnot, In_vec_at. eauto.
Qed.

Lemma linear_and_binary_search_agree_witness :
  exists rl rb,
    (forall fuel, (length [2; 4; 4; 4; 10; 12] < fuel)%nat ->
       linearSearch fuel [2; 4; 4; 4; 10; 12] 4 = Ret rl /\
       binary_search_student002.solveoom fuel [2; 4; 4; 4; 10; 12] 4 = Ret rb) /\
    ((rl = -1 /\ rb = -1 /\ ~ In 4 [2; 4; 4; 4; 10; 12]) \/
     (0 <= rl <= rb /\ vec_at [2; 4; 4; 4; 10; 12] rl = Some 4 /\
      vec_at [2; 4; 4; 4; 10; 12] rb = Some 4 /\
      forall k, 0 <= k < rl -> vec_at [2; 4; 4; 4; 10; 12] k <> Some 4)).
Proof.
  apply (linear_and_binary_search_agree [2; 4; 4; 4; 10; 12] 4).
  - repeat constructor; lia.
  - unfold vsize, INT_MAX; simpl; lia.
Defined.

(* ================================================================== *)
(** * Linked-list reversal: in place, and twice *)
(* ================================================================== *)

(** Two chains over the same addresses with the same values start at the
    same pointer and have the same nodes. *)
Lemma chain_same_nodes h1 h2 : forall addrs p1 p2 vs,
  chain h1 p1 addrs vs -> chain h2 p2 addrs vs ->
  p1 = p2 /\ forall a, a ∈ addrs -> h1 !! a = h2 !! a.
Proof.
  induction addrs as [|a addrs IH]; intros p1 p2 [|v vs] H1 H2; cbn in *;
    try contradiction.
  - split; [congruence|]. intros a Ha. apply elem_of_nil in Ha. contradiction.
  - destruct H1 as [-> (nx1 & Ha1 & Hc1)], H2 as [-> (nx2 & Ha2 & Hc2)].
    destruct (IH _ _ _ Hc1 Hc2) as [-> Hsame].
    split; [reflexivity|]. intros b Hb.
    apply elem_of_cons in Hb as [->|Hb]; [congruence|auto].
Qed.

(** The loop of [solvejxa], whatever the fuel it returns with: the result is
    the chain of the same nodes turned round; a node outside the list is as
    it was; every node keeps its [val]. *)
Lemma solvejxa_loop_in_place : forall addrs vs h head prev done_addrs done_vs fuel h' p,
  chain h head addrs vs -> chain h prev done_addrs done_vs ->
  NoDup (addrs ++ done_addrs) ->
  solvejxa_loop fuel h head prev = Ret (h', p) ->
  chain h' p (rev addrs ++ done_addrs) (rev vs ++ done_vs) /\
  (forall a, a ∉ addrs -> h' !! a = h !! a) /\
  (forall a, val <$> h' !! a = val <$> h !! a).
Proof.
  induction addrs as [|a addrs IH];
    intros [|v vs] h head prev done_addrs done_vs [|fuel] h' p Hc Hd Hnd Hrun;
    cbn in Hc; try contradiction; try discriminate Hrun.
  - subst head. cbn in Hrun. injection Hrun as <- <-. auto.
  - destruct Hc as [-> (nx & Ha & Hc)].
    cbn [solvejxa_loop] in Hrun. rewrite Ha in Hrun. cbn [val next] in Hrun.
    cbn [app] in Hnd. apply NoDup_cons in Hnd as [Hnot Hnd].
    apply not_elem_of_app in Hnot as [Hnot1 Hnot2].
    destruct (IH vs (<[a := {| val := v; next := prev |}]> h) nx (Some a)
                (a :: done_addrs) (v :: done_vs) fuel h' p)
      as (Hres & Hout & Hval); [| | |exact Hrun|].
    + apply chain_frame; assumption.
    + cbn. split; [reflexivity|]. exists prev. split.
      * apply lookup_insert_eq.
      * apply chain_frame; assumption.
    + apply NoDup_app. apply NoDup_app in Hnd as (Hn1 & Hn2 & Hn3).
      split; [exact Hn1|]. split.
      * intros x Hx Hin. apply elem_of_cons in Hin as [->|Hin]; [contradiction|].
        exact (Hn2 x Hx Hin).
      * constructor; assumption.
    + split; [|split].
      * cbn [rev]. rewrite <- !app_assoc. exact Hres.
      * intros b Hb. apply not_elem_of_cons in Hb as [Hne Hb].
        rewrite (Hout b Hb). apply lookup_insert_ne. congruence.
      * intros b. rewrite Hval. destruct (decide (a = b)) as [<-|Hne].
        -- rewrite lookup_insert_eq, Ha. reflexivity.
        -- rewrite lookup_insert_ne by exact Hne. reflexivity.
Qed.

(** X7: [solvejxa] reverses in place.  When it returns on a list made of
    the nodes [addrs], the result is the list of the same nodes in the
    opposite order; nothing is allocated or freed, a node outside the list is
    untouched, and every node keeps its [val]: only [next] fields of the
    list's nodes are written. *)
Theorem reversal_in_place (h h' : gmap nat ListNode) (head p : ptr)
    (addrs : list nat) (vs : list Z) (fuel : nat) :
  chain h head addrs vs ->
  solvejxa fuel h head = Ret (h', p) ->
  chain h' p (rev addrs) (rev vs) /\
  dom h' = dom h /\
  (forall a, a ∉ addrs -> h' !! a = h !! a) /\
  (forall a, val <$> h' !! a = val <$> h !! a).
Proof.
  intros Hc Hrun.
  destruct (solvejxa_loop_in_place addrs vs h head None [] [] fuel h' p)
    as (Hres & Hout & Hval); [exact Hc|reflexivity| |exact Hrun|].
  - rewrite app_nil_r. exact (chain_NoDup _ _ _ _ Hc).
  - rewrite !app_nil_r in Hres. split; [exact Hres|]. split; [|auto].
    apply set_eq. intros a. rewrite !elem_of_dom. unfold is_Some.
    specialize (Hval a).
    destruct (h' !! a), (h !! a); cbn in Hval; try discriminate;
      split; intros [x Hx]; try discriminate; eauto.
Qed.

Lemma reversal_in_place_witness :
  let h := <[1%nat := {| val := 10; next := Some 2%nat |}]>
             (<[2%nat := {| val := 20; next := None |}]>
                (<[7%nat := {| val := 30; next := Some 1%nat |}]> ∅)) in
  let h' := <[2%nat := {| val := 20; next := Some 1%nat |}]>
              (<[1%nat := {| val := 10; next := None |}]> h) in
  chain h' (Some 2%nat) (rev [1%nat; 2%nat]) (rev [10; 20]) /\
  dom h' = dom h /\
  (forall a, a ∉ [1%nat; 2%nat] -> h' !! a = h !! a) /\
  (forall a, val <$> h' !! a = val <$> h !! a).
Proof.
  intros h h'.
  apply (reversal_in_place h h' (Some 1%nat) (Some 2%nat) [1%nat; 2%nat] [10; 20] 3).
  - split; [reflexivity|]. exists (Some 2%nat). split; [reflexivity|].
    split; [reflexivity|]. exists None. split; [reflexivity|]. reflexivity.
  - reflexivity.
Defined.

(** X8: reversing twice gives back the heap and the head pointer: on a
    null-terminated list of [n] nodes, [solvejxa] returns (within [n + 1]
    loop tests) a heap and a pointer on which [solvejxa] returns the
    original heap and the original head. *)
Theorem reversal_twice (h : gmap nat ListNode) (head : ptr) (vs : list Z) :
  is_list h head vs ->
  exists h1 p1,
    (forall fuel, (length vs < fuel)%nat -> solvejxa fuel h head = Ret (h1, p1)) /\
    (forall fuel, (length vs < fuel)%nat -> solvejxa fuel h1 p1 = Ret (h, head)).
Proof.
  intros Hl. apply is_list_chain in Hl as [addrs Hc].
  pose proof (chain_NoDup _ _ _ _ Hc) as Hnd.
  destruct (solvejxa_loop_spec addrs vs h head None [] []) as (h1 & p1 & Hrun1 & Hc1);
    [exact Hc|reflexivity|rewrite app_nil_r; exact Hnd|].
  rewrite !app_nil_r in Hc1.
  destruct (solvejxa_loop_spec (rev addrs) (rev vs) h1 p1 None [] [])
    as (h2 & p2 & Hrun2 & Hc2);
    [exact Hc1|reflexivity|rewrite app_nil_r; rewrite <- Permutation_rev; exact Hnd|].
  rewrite !app_nil_r, !rev_involutive in Hc2. rewrite length_rev in Hrun2.
  exists h1, p1. split; [exact Hrun1|].
  intros fuel Hf. unfold solvejxa. rewrite (Hrun2 fuel Hf).
  destruct (solvejxa_loop_in_place addrs vs h head None [] [] _ h1 p1
              Hc eq_refl ltac:(rewrite app_nil_r; exact Hnd) (Hrun1 _ (Nat.lt_succ_diag_r _)))
    as (_ & Hout1 & _).
  destruct (solvejxa_loop_in_place (rev addrs) (rev vs) h1 p1 None [] [] _ h2 p2
              Hc1 eq_refl ltac:(rewrite app_nil_r; rewrite <- Permutation_rev; exact Hnd)
              (Hrun2 _ (Nat.lt_succ_diag_r _)))
    as (_ & Hout2 & _).
  destruct (chain_same_nodes _ _ _ _ _ _ Hc2 Hc) as [-> Hsame].
  do 2 f_equal. apply map_eq. intros a.
  destruct (decide (a ∈ addrs)) as [Hin|Hnin]; [exact (Hsame a Hin)|].
  rewrite Hout2 by (rewrite list_elem_of_In, <- in_rev, <- list_elem_of_In; exact Hnin). exact (Hout1 a Hnin).
Qed.

Lemma reversal_twice_witness :
  exists h1 p1,
    (forall fuel, (2 < fuel)%nat ->
       solvejxa fuel (<[1%nat := {| val := 10; next := Some 2%nat |}]>
                        (<[2%nat := {| val := 20; next := None |}]> ∅))
                (Some 1%nat) = Ret (h1, p1)) /\
    (forall fuel, (2 < fuel)%nat ->
       solvejxa fuel h1 p1
       = Ret (<[1%nat := {| val := 10; next := Some 2%nat |}]>
                (<[2%nat := {| val := 20; next := None |}]> ∅), Some 1%nat)).
Proof.
  apply (reversal_twice _ (Some 1%nat) [10; 20]).
  exists 1%nat, (Some 2%nat). split; [reflexivity|]. split; [reflexivity|].
  exists 2%nat, None. split; [reflexivity|]. split; [reflexivity|]. reflexivity.
Defined.

Lemma segment_frame h a node : forall addrs p q,
  a ∉ addrs -> segment h p addrs q -> segment (<[a := node]> h) p addrs q.
Proof.
  induction addrs as [|b addrs IH]; intros p q Hnot H; cbn in *.
  - exact H.
  - destruct H as [-> (nd & Hb & Hs)]. apply not_elem_of_cons in Hnot as [Hne Hnot].
    split; [reflexivity|]. exists nd. split.
    + rewrite lookup_insert_ne by congruence. exact Hb.
    + apply IH; assumption.
Qed.

Lemma solvejxa_loop_dangling b : forall addrs h head prev fuel,
  NoDup addrs -> segment h head addrs (Some b) -> h !! b = None ->
  (length addrs < fuel)%nat ->
  solvejxa_loop fuel h head prev = Fault (BadPointer b).
Proof.
  induction addrs as [|a addrs IH]; intros h head prev [|fuel] Hnd Hs Hb Hf;
    cbn in Hs, Hf; try lia.
  - subst head. cbn. rewrite Hb. reflexivity.
  - destruct Hs as [-> (nd & Ha & Hs)]. cbn [solvejxa_loop]. rewrite Ha.
    apply NoDup_cons in Hnd as [Hnot Hnd].
    apply IH; [exact Hnd| | |lia].
    + apply segment_frame; assumption.
    + rewrite lookup_insert_ne by congruence. exact Hb.
Qed.

(** X9: a list that does not end in [NULL] but in a pointer [b] to no node
    makes [solvejxa] dereference [b]: after turning the [n] nodes before it,
    the loop faults at [head->next] with [head = b]; it does not return. *)
Theorem reversal_dangling (h : gmap nat ListNode) (head : ptr)
    (addrs : list nat) (b : nat) (fuel : nat) :
  NoDup addrs -> segment h head addrs (Some b) -> h !! b = None ->
  (length addrs < fuel)%nat ->
  solvejxa fuel h head = Fault (BadPointer b).
Proof. intros. apply (solvejxa_loop_dangling b addrs); assumption. Qed.

Lemma reversal_dangling_witness :
  solvejxa 3 (<[1%nat := {| val := 10; next := Some 2%nat |}]>
                (<[2%nat := {| val := 20; next := Some 5%nat |}]> ∅))
           (Some 1%nat) = Fault (BadPointer 5).
Proof.
  apply (reversal_dangling _ (Some 1%nat) [1%nat; 2%nat] 5%nat 3).
  - apply (bool_decide_unpack _). vm_compute. reflexivity.
  - split; [reflexivity|]. eexists. split; [reflexivity|].
    split; [reflexivity|]. eexists. split; [reflexivity|]. reflexivity.
  - reflexivity.
  - simpl. lia.
Defined.

Lemma segment_app h : forall l1 p q l2 r,
  segment h p l1 q -> segment h q l2 r -> segment h p (l1 ++ l2) r.
Proof.
  induction l1 as [|a l1 IH]; intros p q l2 r H1 H2; cbn in *.
  - subst q. exact H2.
  - destruct H1 as [-> (nd & Ha & Hs)]. split; [reflexivity|].
    exists nd. split; [exact Ha|]. exact (IH _ _ _ _ Hs H2).
Qed.

Lemma segment_split h : forall l1 p l2 r,
  segment h p (l1 ++ l2) r -> exists q, segment h p l1 q /\ segment h q l2 r.
Proof.
  induction l1 as [|a l1 IH]; intros p l2 r H; cbn in *.
  - exists p. auto.
  - destruct H as [-> (nd & Ha & Hs)]. destruct (IH _ _ _ Hs) as (q & H1 & H2).
    exists q. split; [|exact H2]. split; [reflexivity|]. exists nd. auto.
Qed.

Lemma segment_agree h h' : forall addrs p q,
  (forall a, a ∈ addrs -> h' !! a = h !! a) ->
  segment h p addrs q -> segment h' p addrs q.
Proof.
  induction addrs as [|a addrs IH]; intros p q Hag H; cbn in *.
  - exact H.
  - destruct H as [-> (nd & Ha & Hs)]. split; [reflexivity|]. exists nd. split.
    + rewrite Hag by apply list_elem_of_here. exact Ha.
    + apply IH; [|exact Hs]. intros b Hb. apply Hag, list_elem_of_further, Hb.
Qed.

(** [length addrs] rounds of the loop of [solvejxa] along a segment of
    distinct nodes: the segment is turned round and now leads from its last
    node to [prev]; the loop goes on from the pointer the segment led to. *)
Lemma solvejxa_loop_segment : forall addrs h head prev q,
  NoDup addrs -> segment h head addrs q ->
  exists h',
    (forall fuel,
       solvejxa_loop (length addrs + fuel) h head prev
       = solvejxa_loop fuel h' q (default prev (Some <$> last addrs))) /\
    segment h' (default prev (Some <$> last addrs)) (rev addrs) prev /\
    (forall a, a ∉ addrs -> h' !! a = h !! a) /\
    (forall a, val <$> h' !! a = val <$> h !! a).
Proof.
  induction addrs as [|a addrs IH]; intros h head prev q Hnd Hs; cbn in Hs.
  - subst q. exists h. cbn. auto.
  - destruct Hs as [-> (nd & Ha & Hs)].
    apply NoDup_cons in Hnd as [Hnot Hnd].
    destruct (IH (<[a := {| val := val nd; next := prev |}]> h) (next nd) (Some a) q
                Hnd (segment_frame _ _ _ _ _ _ Hnot Hs))
      as (h' & Hrun & Hseg & Hout & Hval).
    assert (default prev (Some <$> last (a :: addrs))
            = default (Some a) (Some <$> last addrs)) as Hlast
      by (rewrite last_cons; destruct (last addrs); reflexivity).
    exists h'. rewrite Hlast. split; [|split; [|split]].
    + intros fuel. cbn [length Nat.add solvejxa_loop]. rewrite Ha. apply Hrun.
    + cbn [rev]. apply (segment_app _ _ _ (Some a)); [exact Hseg|].
      split; [reflexivity|]. exists {| val := val nd; next := prev |}.
      split; [|reflexivity]. rewrite (Hout a Hnot). apply lookup_insert_eq.
    + intros b Hb. apply not_elem_of_cons in Hb as [Hne Hb].
      rewrite (Hout b Hb). apply lookup_insert_ne. congruence.
    + intros b. rewrite Hval. destruct (decide (a = b)) as [<-|Hne].
      * rewrite lookup_insert_eq, Ha. reflexivity.
      * rewrite lookup_insert_ne by exact Hne. reflexivity.
Qed.

(** X10: [solvejxa] does not run forever on a list that ends in a cycle.
    When the nodes [tail] lead from [head] into the cycle [c0 :: rest] (all
    distinct, the last node pointing back to [c0]), the loop goes down the
    tail, round the cycle and back up the tail; after
    [2 * length tail + length rest + 3] loop tests it returns the [head] it
    was given, with the tail as it was, the cycle turned round, and every
    [val] kept. *)
Theorem reversal_of_cyclic_list (h : gmap nat ListNode) (head : ptr)
    (tail : list nat) (c0 : nat) (rest : list nat) :
  NoDup (tail ++ c0 :: rest) ->
  segment h head (tail ++ c0 :: rest) (Some c0) ->
  exists h',
    (forall fuel, (2 * length tail + length rest + 2 < fuel)%nat ->
                  solvejxa fuel h head = Ret (h', head)) /\
    segment h' head tail (Some c0) /\
    segment h' (Some c0) (c0 :: rev rest) (Some c0) /\
    (forall a, val <$> h' !! a = val <$> h !! a).
Proof.
  intros Hnd Hs.
  assert (NoDup (c0 :: rev tail) /\ forall a, a ∈ rev rest -> a ∉ c0 :: rev tail)
    as [Hnd2 Hrest].
  { pose proof Hnd as Hnd'. apply NoDup_app in Hnd' as (Ht & Hdis & Hc).
    apply NoDup_cons in Hc as [Hc0 Hr]. split.
    - constructor.
      + rewrite list_elem_of_In, <- in_rev, <- list_elem_of_In.
        intros Hin. apply (Hdis c0 Hin), list_elem_of_here.
      + rewrite <- Permutation_rev. exact Ht.
    - intros a Ha Hin.
      rewrite list_elem_of_In, <- in_rev, <- list_elem_of_In in Ha.
      apply elem_of_cons in Hin as [->|Hin]; [contradiction|].
      rewrite list_elem_of_In, <- in_rev, <- list_elem_of_In in Hin.
      apply (Hdis a Hin), list_elem_of_further, Ha. }
  assert (forall d, default d (Some <$> last (c0 :: rev tail)) = head) as Hhead.
  { intros d. destruct tail as [|t tl]; cbn in Hs; destruct Hs as [-> _]; [reflexivity|].
    cbn [rev]. rewrite app_comm_cons, last_snoc. reflexivity. }
  (* down the tail and round the cycle *)
  destruct (solvejxa_loop_segment _ h head None (Some c0) Hnd Hs)
    as (h1 & Hrun1 & Hseg1 & _ & Hval1).
  set (lastc := default None (Some <$> last (tail ++ c0 :: rest))) in *.
  rewrite rev_app_distr in Hseg1. cbn [rev] in Hseg1.
  apply segment_split in Hseg1 as (q2 & Hseg1 & Htail1).
  apply segment_split in Hseg1 as (q1 & Hcyc1 & Hc01).
  assert (q1 = Some c0) as -> by (cbn in Hc01; tauto).
  pose proof (segment_app _ _ _ _ _ _ Hc01 Htail1) as Hback. cbn [app] in Hback.
  (* back up the tail *)
  destruct (solvejxa_loop_segment _ h1 (Some c0) lastc None Hnd2 Hback)
    as (h2 & Hrun2 & Hseg2 & Hout2 & Hval2).
  rewrite Hhead in Hrun2, Hseg2.
  cbn [rev] in Hseg2. rewrite rev_involutive in Hseg2.
  apply segment_split in Hseg2 as (q3 & Htail2 & Hc02).
  assert (q3 = Some c0) as -> by (cbn in Hc02; tauto).
  exists h2. split; [|split; [exact Htail2|split]].
  - intros fuel Hf. unfold solvejxa.
    replace fuel with (length (tail ++ c0 :: rest)
                       + (length (c0 :: rev tail)
                          + S (fuel - (2 * length tail + length rest + 3))))%nat
      by (rewrite length_app; cbn [length]; rewrite length_rev; lia).
    rewrite Hrun1, Hrun2. reflexivity.
  - apply (segment_app _ [c0] _ lastc); [exact Hc02|].
    apply (segment_agree h1); [|exact Hcyc1].
    intros a Ha. apply Hout2, Hrest, Ha.
  - intros a. rewrite Hval2. apply Hval1.
Qed.

Lemma reversal_of_cyclic_list_witness :
  let h := <[1%nat := {| val := 10; next := Some 2%nat |}]>
             (<[2%nat := {| val := 20; next := Some 3%nat |}]>
                (<[3%nat := {| val := 30; next := Some 2%nat |}]> ∅)) in
  exists h',
    (forall fuel, (2 * length [1%nat] + length [3%nat] + 2 < fuel)%nat ->
                  solvejxa fuel h (Some 1%nat) = Ret (h', Some 1%nat)) /\
    segment h' (Some 1%nat) [1%nat] (Some 2%nat) /\
    segment h' (Some 2%nat) (2%nat :: rev [3%nat]) (Some 2%nat) /\
    (forall a, val <$> h' !! a = val <$> h !! a).
Proof.
  intros h. apply (reversal_of_cyclic_list h (Some 1%nat) [1%nat] 2%nat [3%nat]).
  - apply (bool_decide_unpack _). vm_compute. reflexivity.
  - split; [reflexivity|]. eexists. split; [reflexivity|].
    split; [reflexivity|]. eexists. split; [reflexivity|].
    split; [reflexivity|]. eexists. split; [reflexivity|]. reflexivity.
Defined.

(* ================================================================== *)
(** * Maximum subarray on 32-bit [int]s *)
(* ================================================================== *)

Lemma sums_fit_prefix nums a b :
  sums_fit nums -> 0 <= a < b -> b <= vsize nums ->
  in_int (prefix_sum nums b - prefix_sum nums a).
Proof.
  intros Hfit Hab Hb. unfold vsize in Hb.
  specialize (Hfit (Z.to_nat a) (Z.to_nat (b - 1)) ltac:(lia)).
  rewrite subarray_sum_prefix in Hfit by lia.
  replace (Z.of_nat (Z.to_nat (b - 1)) + 1) with b in Hfit by lia.
  replace (Z.of_nat (Z.to_nat a)) with a in Hfit by lia. exact Hfit.
Qed.

(** Under machine arithmetic, a loop [for (int i = 0; i < nums.size(); i++)]
    over at most 2^31 elements, whose body reads [nums[i]] and updates the
    state by [f], is a fold over the elements. *)
Lemma index_loop_fold32 {St : Type} (f : St -> Z -> St)
    (body : Z -> St -> outcome (ctl St Empty_set)) nums fuel s0 :
  vsize nums <= 2147483648 ->
  (forall i s x, vec_at nums i = Some x -> body i s = Ret (Continue (f s x))) ->
  (length nums < fuel)%nat ->
  fallthrough (for_loop fuel (@ilt_size machine nums) (fun i => @iadd machine i 1) body 0 s0)
  = Ret (fold_left f nums s0).
Proof.
  intros Hn Hbody Hf.
  assert (returns
            (for_loop fuel (@ilt_size machine nums) (fun i => @iadd machine i 1) body 0 s0)
            (ctl_post (fun s => s = fold_left f (take (Z.to_nat (vsize nums)) nums) s0)
                      (fun _ => False))) as H.
  { apply (for_loop_count
             (fun k s => s = fold_left f (take (Z.to_nat k) nums) s0)
             (fun _ : Empty_set => False) _ _ _ wrap32 0 (vsize nums))
      with (lo := 0).
    - intros k Hk. apply (lt_size_below nums k). lia.
    - pose proof (lt_size_at_end nums ltac:(lia)) as E.
      rewrite Z.min_l in E by lia. exact E.
    - intros k Hk. apply incr_wrap32.
    - intros k s Hk ->.
      rewrite wrap32_small by (unfold in_int, INT_MIN, INT_MAX; lia).
      destruct (vec_at_in_bounds nums k Hk) as [x Hx].
      rewrite (Hbody _ _ _ Hx). cbn.
      unfold vec_at in Hx. destruct (Z.leb_spec 0 k); [|lia].
      replace (Z.to_nat (k + 1)) with (S (Z.to_nat k)) by lia.
      rewrite (take_S_r _ _ _ Hx), fold_left_app. reflexivity.
    - reflexivity.
    - unfold vsize; lia.
    - unfold vsize; lia.
    - reflexivity. }
  destruct (for_loop _ _ _ _ _ _) as [[s|[]]| |]; cbn in H; try contradiction.
  subst s. cbn. unfold vsize. rewrite Nat2Z.id, firstn_all. reflexivity.
Qed.

Lemma maxSubArray_02_fold32 fuel nums :
  vsize nums <= 2147483648 -> (length nums < fuel)%nat ->
  @max_subarray_02.maxSubArray machine fuel nums
  = Ret (snd (fold_left reset_step32 nums (0, INT_MIN))).
Proof.
  intros Hn Hf. unfold max_subarray_02.maxSubArray.
  rewrite (index_loop_fold32 reset_step32); [reflexivity|exact Hn| |exact Hf].
  intros i [sum maxi] x Hx. unfold read. rewrite Hx. reflexivity.
Qed.

Lemma maxSubArray_09_fold32 fuel nums :
  vsize nums <= 2147483648 -> (length nums < fuel)%nat ->
  @max_subarray_09.maxSubArray machine fuel nums
  = Ret (fst (fold_left ifelse_step32 nums (INT_MIN, 0))).
Proof.
  intros Hn Hf. unfold max_subarray_09.maxSubArray.
  rewrite (index_loop_fold32 ifelse_step32); [reflexivity|exact Hn| |exact Hf].
  intros i [maxSum sum] x Hx. unfold read. rewrite Hx. reflexivity.
Qed.

Lemma maxSubArray_15_fold32 nums :
  @max_subarray_15.maxSubArray machine nums
  = Ret (snd (fold_left reset_step32 nums (0, INT_MIN))).
Proof.
  unfold max_subarray_15.maxSubArray. do 2 f_equal.
  apply fold_left_pointwise. intros [curSum globalMax] x.
  unfold reset_step32. cbn [fst snd]. rewrite (Z.max_comm globalMax). reflexivity.
Qed.

Lemma maxSubArray_12_fold32 x0 nums :
  @max_subarray_12.maxSubArray machine (x0 :: nums)
  = Ret (snd (fold_left kadane_step32 (x0 :: nums) (0, x0))).
Proof.
  unfold max_subarray_12.maxSubArray.
  change (read (x0 :: nums) 0) with (Ret (A:=Z) x0). cbn [outcome_bind].
  do 2 f_equal. apply fold_left_pointwise. intros [sum maxi] x. reflexivity.
Qed.

Lemma solvegpw_fold32 x0 nums :
  @max_subarray_sum_student005.solvegpw machine (x0 :: nums)
  = Ret (snd (fold_left kadane_step32 (x0 :: nums) (0, x0))).
Proof.
  unfold max_subarray_sum_student005.solvegpw.
  change (read (x0 :: nums) 0) with (Ret (A:=Z) x0). cbn [outcome_bind].
  do 2 f_equal. apply fold_left_pointwise. intros [sum maxi] x. reflexivity.
Qed.

(** While no subarray sum overflows, the 32-bit loops are in the states of
    Kadane's loop on the integers: the running sum of the reset variant is
    the positive part of Kadane's, the if/else variant has Kadane's state. *)
Lemma kadane_variants_fold32 nums : sums_fit nums -> forall l2 l1 k r e,
  nums = l1 ++ l2 -> l1 <> [] -> kadane_inv nums (vsize l1) k ->
  fst r = Z.max 0 (fst k) -> snd r = snd k -> e = (snd k, fst k) ->
  snd (fold_left kadane_step32 l2 k) = snd (fold_left kadane_step l2 k) /\
  snd (fold_left reset_step32 l2 r) = snd (fold_left kadane_step l2 k) /\
  fst (fold_left ifelse_step32 l2 e) = snd (fold_left kadane_step l2 k).
Proof.
  intros Hfit. induction l2 as [|x l2 IH]; intros l1 k r e Hnums Hne Hinv Hr1 Hr2 ->.
  - cbn. auto.
  - assert (0 < vsize l1) as Hp
      by (destruct l1; [congruence|unfold vsize; cbn [length]; lia]).
    assert (vec_at nums (vsize l1) = Some x) as Hx.
    { unfold vec_at, vsize. destruct (Z.leb_spec 0 (Z.of_nat (length l1))); [|lia].
      rewrite Nat2Z.id. subst nums. rewrite lookup_app_r by lia.
      replace (length l1 - length l1)%nat with 0%nat by lia. reflexivity. }
    pose proof (prefix_sum_succ _ _ _ Hx) as HP.
    pose proof (vec_at_Some _ _ _ Hx) as Hlt.
    assert (in_int x) as Hix.
    { pose proof (sums_fit_prefix nums (vsize l1) (vsize l1 + 1) Hfit) as H.
      rewrite HP in H. replace (prefix_sum nums (vsize l1) + x - prefix_sum nums (vsize l1))
        with x in H by lia. apply H; lia. }
    assert (in_int (fst k + x)) as Hik.
    { destruct Hinv as ((i0 & Hi0 & Hcur) & _).
      pose proof (sums_fit_prefix nums i0 (vsize l1 + 1) Hfit) as H.
      rewrite HP in H. rewrite Hcur.
      replace (prefix_sum nums (vsize l1) - prefix_sum nums i0 + x)
        with (prefix_sum nums (vsize l1) + x - prefix_sum nums i0) by lia.
      apply H; lia. }
    assert (kadane_step32 k x = kadane_step k x) as Ek
      by (unfold kadane_step32, kadane_step; rewrite add32_small by exact Hik; reflexivity).
    assert (reset_step32 r x = reset_step r x) as Er.
    { unfold reset_step32, reset_step. rewrite add32_small; [reflexivity|].
      rewrite Hr1. unfold in_int in *. lia. }
    assert (ifelse_step32 (snd k, fst k) x = ifelse_step (snd k, fst k) x) as Ee
      by (unfold ifelse_step32, ifelse_step; cbn [fst snd];
          rewrite add32_small by exact Hik; reflexivity).
    cbn [fold_left]. rewrite Ek, Er, Ee.
    apply (IH (l1 ++ [x])).
    + rewrite <- app_assoc. exact Hnums.
    + destruct l1; discriminate.
    + replace (vsize (l1 ++ [x])) with (vsize l1 + 1)
        by (unfold vsize; rewrite length_app; cbn [length]; lia).
      apply kadane_step_inv; assumption.
    + unfold reset_step, kadane_step. cbn [fst snd]. rewrite Hr1.
      destruct (Z.ltb_spec (Z.max 0 (fst k) + x) 0); lia.
    + unfold reset_step, kadane_step. cbn [fst snd]. rewrite Hr1, Hr2. lia.
    + unfold ifelse_step, kadane_step. cbn [fst snd].
      destruct (Z.geb_spec (fst k + x) x);
        [rewrite (Z.max_r x) by lia|rewrite (Z.max_l x) by lia]; reflexivity.
Qed.

(** The three 32-bit loops from their initial states. *)
Lemma kadane_variants_correct32 x0 nums :
  sums_fit (x0 :: nums) ->
  exists m, is_max_subarray_sum (x0 :: nums) m /\
    snd (fold_left kadane_step32 (x0 :: nums) (0, x0)) = m /\
    snd (fold_left reset_step32 (x0 :: nums) (0, INT_MIN)) = m /\
    fst (fold_left ifelse_step32 (x0 :: nums) (INT_MIN, 0)) = m.
Proof.
  intros Hfit.
  assert (prefix_sum (x0 :: nums) 1 = x0) as HP1
    by (unfold prefix_sum, list_sum; change (Z.to_nat 1) with 1%nat;
        cbn [take foldr]; rewrite take_0; cbn [foldr]; lia).
  assert (in_int x0) as Hx0.
  { pose proof (sums_fit_prefix (x0 :: nums) 0 1 Hfit) as H.
    rewrite HP1, prefix_sum_0 in H. replace (x0 - 0) with x0 in H by lia.
    apply H; [lia|unfold vsize; cbn [length]; lia]. }
  exists (snd (fold_left kadane_step (x0 :: nums) (0, x0))).
  split; [apply max_prefix_diff_subarray, kadane_correct|].
  assert (kadane_step32 (0, x0) x0 = kadane_step (0, x0) x0) as E0
    by (unfold kadane_step32, kadane_step; cbn [fst snd];
        rewrite add32_small by exact Hx0; reflexivity).
  cbn [fold_left]. rewrite E0.
  apply (kadane_variants_fold32 (x0 :: nums) Hfit nums [x0]); try reflexivity;
    try discriminate.
  - unfold kadane_step, vsize. cbn [fst snd length]. change (Z.of_nat 1) with 1.
    replace (Z.max x0 (0 + x0)) with x0 by lia.
    replace (Z.max x0 x0) with x0 by lia.
    unfold kadane_inv. split; [|split; [|split]]; cbn [fst snd].
    + exists 0. rewrite HP1, prefix_sum_0. lia.
    + intros i Hi. replace i with 0 by lia. rewrite HP1, prefix_sum_0. lia.
    + exists 0, 1. rewrite HP1, prefix_sum_0. lia.
    + intros i j Hij Hj. replace i with 0 by lia. replace j with 1 by lia.
      rewrite HP1, prefix_sum_0. lia.
  - unfold reset_step32, kadane_step. cbn [fst snd].
    rewrite add32_small by exact Hx0.
    destruct (Z.ltb_spec (0 + x0) 0); lia.
  - unfold reset_step32, kadane_step. cbn [fst snd].
    rewrite add32_small by exact Hx0. unfold in_int in Hx0. lia.
  - unfold ifelse_step32, kadane_step. cbn [fst snd].
    rewrite add32_small by exact Hx0. unfold in_int in Hx0.
    destruct (Z.geb_spec (0 + x0) x0); f_equal; lia.
Qed.

(** X11: the range-for Kadane loops on real 32-bit [int]s.  On a non-empty
    vector of any length none of whose subarray sums overflows,
    max_subarray_12, [solvegpw] and max_subarray_15 return the largest sum
    of a non-empty contiguous subarray. *)
Theorem kadane_range_for_correct (nums : list Z) :
  nums <> [] -> sums_fit nums ->
  exists m, is_max_subarray_sum nums m /\
    @max_subarray_12.maxSubArray machine nums = Ret m /\
    @max_subarray_sum_student005.solvegpw machine nums = Ret m /\
    @max_subarray_15.maxSubArray machine nums = Ret m.
Proof.
  intros Hne Hfit. destruct nums as [|x0 nums]; [congruence|]. clear Hne.
  destruct (kadane_variants_correct32 x0 nums Hfit) as (m & Hm & H12 & H02 & _).
  exists m. split; [exact Hm|].
  rewrite maxSubArray_12_fold32, solvegpw_fold32, maxSubArray_15_fold32, H12, H02.
  auto.
Qed.

(** A vector whose absolute values add up to at most [INT_MAX] has no
    overflowing subarray sum. *)
Lemma list_sum_abs_nonneg l : 0 <= list_sum (Z.abs <$> l).
Proof. unfold list_sum. induction l as [|x l IH]; cbn; lia. Qed.

Lemma list_sum_abs l : Z.abs (list_sum l) <= list_sum (Z.abs <$> l).
Proof. unfold list_sum. induction l as [|x l IH]; cbn in *; lia. Qed.

Lemma list_sum_abs_take l : forall n,
  list_sum (Z.abs <$> take n l) <= list_sum (Z.abs <$> l).
Proof.
  induction l as [|x l IH]; intros [|n]; cbn; try lia.
  - pose proof (list_sum_abs_nonneg l). unfold list_sum in *. lia.
  - specialize (IH n). unfold list_sum in *. lia.
Qed.

Lemma list_sum_abs_drop l : forall n,
  list_sum (Z.abs <$> drop n l) <= list_sum (Z.abs <$> l).
Proof.
  induction l as [|x l IH]; intros [|n]; cbn; try lia.
  specialize (IH n). unfold list_sum in *. lia.
Qed.

Lemma sums_fit_abs nums :
  list_sum (Z.abs <$> nums) <= INT_MAX -> sums_fit nums.
Proof.
  intros H i j Hij. unfold subarray_sum.
  pose proof (list_sum_abs (take (S j - i) (drop i nums))).
  pose proof (list_sum_abs_take (drop i nums) (S j - i)).
  pose proof (list_sum_abs_drop nums i).
  unfold in_int, INT_MIN, INT_MAX in *. lia.
Qed.

Lemma kadane_range_for_correct_witness :
  exists m, is_max_subarray_sum sample_vector m /\
    @max_subarray_12.maxSubArray machine sample_vector = Ret m /\
    @max_subarray_sum_student005.solvegpw machine sample_vector = Ret m /\
    @max_subarray_15.maxSubArray machine sample_vector = Ret m.
Proof.
  apply (kadane_range_for_correct sample_vector).
  - discriminate.
  - apply sums_fit_abs. vm_compute. discriminate.
Defined.

(** X12: the indexed Kadane loops on real 32-bit [int]s.  On a non-empty
    vector of at most 2^31 elements none of whose subarray sums overflows,
    max_subarray_02 and max_subarray_09 return, within [size + 1] loop
    tests, the largest sum of a non-empty contiguous subarray. *)
Theorem kadane_indexed_correct (nums : list Z) :
  nums <> [] -> vsize nums <= 2147483648 -> sums_fit nums ->
  exists m, is_max_subarray_sum nums m /\
    forall fuel, (length nums < fuel)%nat ->
      @max_subarray_02.maxSubArray machine fuel nums = Ret m /\
      @max_subarray_09.maxSubArray machine fuel nums = Ret m.
Proof.
  intros Hne Hn Hfit. destruct nums as [|x0 nums]; [congruence|]. clear Hne.
  destruct (kadane_variants_correct32 x0 nums Hfit) as (m & Hm & _ & H02 & H09).
  exists m. split; [exact Hm|]. intros fuel Hf.
  rewrite maxSubArray_02_fold32, maxSubArray_09_fold32, H02, H09 by assumption.
  auto.
Qed.

Lemma kadane_indexed_correct_witness :
  exists m, is_max_subarray_sum sample_vector m /\
    forall fuel, (length sample_vector < fuel)%nat ->
      @max_subarray_02.maxSubArray machine fuel sample_vector = Ret m /\
      @max_subarray_09.maxSubArray machine fuel sample_vector = Ret m.
Proof.
  apply (kadane_indexed_correct sample_vector).
  - discriminate.
  - vm_compute. discriminate.
  - apply sums_fit_abs. vm_compute. discriminate.
Defined.

(** X13: max_subarray_02, max_subarray_09 and max_subarray_15 have no
    out-of-bounds read and no fault, overflow or not: on every vector of at
    most 2^31 elements they return (the indexed ones within [size + 1] loop
    tests), and on the empty vector, where the other maximum-subarray
    functions read [nums[0]], they return [INT_MIN]. *)
Theorem kadane_from_INT_MIN_safe (nums : list Z) :
  vsize nums <= 2147483648 ->
  exists r2 r9 r15,
    (forall fuel, (length nums < fuel)%nat ->
       @max_subarray_02.maxSubArray machine fuel nums = Ret r2 /\
       @max_subarray_09.maxSubArray machine fuel nums = Ret r9) /\
    @max_subarray_15.maxSubArray machine nums = Ret r15 /\
    r2 = r15 /\
    (nums = [] -> r2 = INT_MIN /\ r9 = INT_MIN).
Proof.
  intros Hn.
  exists (snd (fold_left reset_step32 nums (0, INT_MIN))),
         (fst (fold_left ifelse_step32 nums (INT_MIN, 0))),
         (snd (fold_left reset_step32 nums (0, INT_MIN))).
  split; [|split; [|split]].
  - intros fuel Hf.
    rewrite maxSubArray_02_fold32, maxSubArray_09_fold32 by assumption. auto.
  - apply maxSubArray_15_fold32.
  - reflexivity.
  - intros ->. split; reflexivity.
Qed.

Lemma kadane_from_INT_MIN_safe_witness :
  exists r2 r9 r15,
    (forall fuel, (length (@nil Z) < fuel)%nat ->
       @max_subarray_02.maxSubArray machine fuel [] = Ret r2 /\
       @max_subarray_09.maxSubArray machine fuel [] = Ret r9) /\
    @max_subarray_15.maxSubArray machine [] = Ret r15 /\
    r2 = r15 /\
    (@nil Z = [] -> r2 = INT_MIN /\ r9 = INT_MIN).
Proof.
  apply (kadane_from_INT_MIN_safe []). vm_compute. discriminate.
Defined.

Lemma machine_isize_small v : vsize v <= INT_MAX -> @isize machine v = vsize v.
Proof.
  intros Hn. unfold isize. cbn [to_int to_size_t machine]. unfold wrap64u, vsize in *.
  rewrite Z.mod_small by (unfold INT_MAX in Hn; lia).
  apply wrap32_small. unfold in_int, INT_MIN. lia.
Qed.

(** The three nested loops of max_subarray_03 on 32-bit [int]s: while no
    subarray sum overflows they try every subarray and keep the largest
    sum. *)
Lemma maxSubArray_03_correct32 fuel x0 nums :
  vsize (x0 :: nums) <= INT_MAX -> sums_fit (x0 :: nums) ->
  (length (x0 :: nums) < fuel)%nat ->
  returns (@max_subarray_03.maxSubArray machine fuel (x0 :: nums))
          (max_prefix_diff (x0 :: nums)).
Proof.
  intros Hmax Hfit Hf. set (v := x0 :: nums) in *.
  assert (1 <= vsize v) as Hn by (unfold vsize, v; cbn [length]; lia).
  assert (Z.to_nat (vsize v) < fuel)%nat as Hfz by (unfold vsize; lia).
  set (achieved := fun m : Z =>
         exists a b, 0 <= a < b /\ b <= vsize v /\
                     m = prefix_sum v b - prefix_sum v a).
  unfold max_subarray_03.maxSubArray.
  rewrite (machine_isize_small v Hmax).
  apply returns_bind, returns_read; [|lia]. intros x Hx.
  assert (x = prefix_sum v 1 - prefix_sum v 0) as Hx0.
  { pose proof (prefix_sum_succ v 0 x Hx) as E. change (0 + 1) with 1 in E.
    rewrite E, prefix_sum_0. lia. }
  apply returns_fallthrough. eapply returns_weaken.
  - apply (for_loop_count
             (fun i m => achieved m /\
                forall a b, 0 <= a < b -> b <= vsize v -> a < i ->
                            prefix_sum v b - prefix_sum v a <= m)
             (fun _ : Empty_set => False)
             _ _ _ (fun k => k) 0 (vsize v)) with (lo := 0);
      [intros k Hk; apply Z.ltb_lt; lia | apply Z.ltb_irrefl
      |intros k Hk; apply machine_iadd_1; lia | | reflexivity | lia | lia | ].
    + (* the loop on [j] *)
      intros i m Hi [Hach Hbound].
      eapply returns_weaken.
      * apply (for_loop_count
                 (fun j m => achieved m /\
                    forall a b, 0 <= a < b -> b <= vsize v ->
                                a < i \/ (a = i /\ b <= j) ->
                                prefix_sum v b - prefix_sum v a <= m)
                 (fun _ : Empty_set => False)
                 _ _ _ (fun k => k) i (vsize v)) with (lo := i);
          [intros k Hk; apply Z.ltb_lt; lia | apply Z.ltb_irrefl
          |intros k Hk; apply machine_iadd_1; lia | | reflexivity | lia | lia | ].
        -- (* the loop on [k] *)
           intros j m' Hj [Hach' Hbound'].
           apply returns_bind. eapply returns_weaken.
           ++ apply returns_fallthrough.
              apply (for_loop_count
                       (fun k s => s = prefix_sum v k - prefix_sum v i)
                       (fun _ : Empty_set => False)
                       _ _ _ (fun k => k) i (j + 1)) with (lo := i);
                [intros k Hk; apply Z.leb_le; lia | apply Z.leb_gt; lia
                |intros k Hk; apply machine_iadd_1; lia | | reflexivity | lia | lia | lia].
              intros k s Hk ->. apply returns_bind, returns_read; [|lia].
              intros y Hy. cbn. unfold iadd. cbn [to_int machine].
              pose proof (sums_fit_prefix v i (k + 1) Hfit ltac:(lia) ltac:(lia)) as Hin.
              rewrite (prefix_sum_succ v k y Hy) in *.
              replace (prefix_sum v k - prefix_sum v i + y)
                with (prefix_sum v k + y - prefix_sum v i) by lia.
              apply wrap32_small. exact Hin.
           ++ intros sum ->. cbn. split.
              ** destruct (Z.le_gt_cases (prefix_sum v (j + 1) - prefix_sum v i) m').
                 --- rewrite Z.max_l by lia. exact Hach'.
                 --- rewrite Z.max_r by lia. exists i, (j + 1). lia.
              ** intros a b Hab Hb Hcase.
                 destruct (Z.eq_dec b (j + 1)) as [->|].
                 --- destruct Hcase as [Ha|[-> _]]; [|lia].
                     specialize (Hbound' a (j + 1) ltac:(lia) ltac:(lia) ltac:(lia)). lia.
                 --- specialize (Hbound' a b ltac:(lia) ltac:(lia) ltac:(lia)). lia.
        -- split; [exact Hach|]. intros a b Hab Hb Hcase. apply Hbound; lia.
      * intros [m'|[]]. cbn. intros [Hach' Hbound']. split; [exact Hach'|].
        intros a b Hab Hb Ha. apply Hbound'; lia.
    + split; [exists 0, 1; lia|]. intros a b Hab Hb Ha. lia.
  - intros [m|[]]. cbn. intros [(a & b & Hab & Hb & ->) Hbound]. split.
    + exists a, b. auto.
    + intros a' b' Hab' Hb'. apply Hbound; lia.
Qed.

(** X14: the cubic search on real 32-bit [int]s.  On a non-empty vector of
    at most [INT_MAX] elements none of whose subarray sums overflows,
    max_subarray_03 returns, with fuel for [size + 1] tests of each loop,
    the largest sum of a non-empty contiguous subarray. *)
Theorem cubic_search_correct (nums : list Z) :
  nums <> [] -> vsize nums <= INT_MAX -> sums_fit nums ->
  exists m, is_max_subarray_sum nums m /\
    forall fuel, (length nums < fuel)%nat ->
      @max_subarray_03.maxSubArray machine fuel nums = Ret m.
Proof.
  intros Hne Hn Hfit. destruct nums as [|x0 nums]; [congruence|]. clear Hne.
  pose proof (maxSubArray_03_correct32 _ x0 nums Hn Hfit (Nat.lt_succ_diag_r _)) as H.
  apply returns_inv in H as [m [Hrun Hm]].
  exists m. split; [exact (max_prefix_diff_subarray _ _ Hm)|].
  intros fuel Hf. apply (maxSubArray_03_more_fuel machine _ (S (length (x0 :: nums)))).
  - lia.
  - exact Hrun.
Qed.

Lemma cubic_search_correct_witness :
  exists m, is_max_subarray_sum sample_vector m /\
    forall fuel, (length sample_vector < fuel)%nat ->
      @max_subarray_03.maxSubArray machine fuel sample_vector = Ret m.
Proof.
  apply (cubic_search_correct sample_vector).
  - discriminate.
  - vm_compute. discriminate.
  - apply sums_fit_abs. vm_compute. discriminate.
Defined.

(* ================================================================== *)
(** * Sorting programs on any five elements *)
(* ================================================================== *)

Lemma vec_at_cons_succ a v p : 0 <= p -> vec_at (a :: v) (p + 1) = vec_at v p.
Proof.
  intros Hp. unfold vec_at.
  destruct (Z.leb_spec 0 (p + 1)); [|lia]. destruct (Z.leb_spec 0 p); [|lia].
  replace (Z.to_nat (p + 1)) with (S (Z.to_nat p)) by lia. reflexivity.
Qed.

(** Nondecreasing by position is [Sorted]. *)
Lemma Sorted_by_index v :
  (forall p q x y, 0 <= p <= q -> vec_at v p = Some x -> vec_at v q = Some y -> x <= y) ->
  Sorted Z.le v.
Proof.
  induction v as [|a v IH]; intros H; constructor.
  - apply IH. intros p q x y Hpq Hx Hy.
    apply (H (p + 1) (q + 1)); [lia| |]; rewrite vec_at_cons_succ by lia; assumption.
  - destruct v as [|b v]; constructor. apply (H 0 1); [lia| |]; reflexivity.
Qed.

Lemma write_in_bounds v i x :
  0 <= i < vsize v -> write v i x = Ret (<[Z.to_nat i := x]> v).
Proof.
  intros Hi. unfold write. destruct (vec_at_in_bounds v i Hi) as [y ->]. reflexivity.
Qed.

Lemma vec_at_insert v i x q :
  0 <= i < vsize v ->
  vec_at (<[Z.to_nat i := x]> v) q = if q =? i then Some x else vec_at v q.
Proof.
  intros Hi. unfold vec_at, vsize in *. destruct (Z.leb_spec 0 q).
  - destruct (Z.eqb_spec q i) as [->|Hne].
    + apply list_lookup_insert_eq. lia.
    + apply list_lookup_insert_ne. lia.
  - destruct (Z.eqb_spec q i); [lia|reflexivity].
Qed.

Lemma vsize_insert v (i : nat) x : vsize (<[i := x]> v) = vsize v.
Proof. unfold vsize. rewrite length_insert. reflexivity. Qed.

(** [temp = arr[m]; arr[m] = arr[i]; arr[i] = temp] is a permutation. *)
Lemma swap_Permutation v i m x t :
  vec_at v i = Some x -> vec_at v m = Some t ->
  <[Z.to_nat i := t]> (<[Z.to_nat m := x]> v) ≡ₚ v.
Proof.
  intros Hx Ht. apply Permutation_insert_swap.
  - unfold vec_at in Ht. destruct (0 <=? m); [exact Ht|discriminate].
  - unfold vec_at in Hx. destruct (0 <=? i); [exact Hx|discriminate].
Qed.

Lemma incr_small k : 0 <= k < INT_MAX -> incr k = k + 1.
Proof. intros Hk. apply add32_small. unfold in_int, INT_MIN, INT_MAX in *. lia. Qed.

(** The selection-sort loop, for any content of the five-element array. *)
Lemma selection_sort_loop_returns (arr0 : list Z) (fuel : nat) :
  vsize arr0 = 5 -> (5 < fuel)%nat ->
  returns (Student_8_SelectionSort.sort_loop fuel arr0)
          (fun arr => Sorted Z.le arr /\ arr ≡ₚ arr0).
Proof.
  intros Hn Hf. unfold Student_8_SelectionSort.sort_loop, Student_8_SelectionSort.n.
  change (sub32 5 1) with 4.
  apply returns_fallthrough. eapply returns_weaken.
  - apply (for_loop_count
             (fun i arr =>
                vsize arr = 5 /\ arr ≡ₚ arr0 /\
                forall p q x y, 0 <= p < i -> p <= q ->
                  vec_at arr p = Some x -> vec_at arr q = Some y -> x <= y)
             (fun _ : Empty_set => False)
             _ _ _ (fun k => k) 0 4) with (lo := 0);
      [intros k Hk; apply Z.ltb_lt; lia | reflexivity
      |intros k Hk; apply incr_small; unfold INT_MAX; lia | | reflexivity | lia | lia | ].
    + intros i arr Hi (Hlen & Hperm & Hord).
      apply returns_bind. eapply returns_weaken.
      * apply returns_fallthrough.
        apply (for_loop_count
                 (fun j m => i <= m < 5 /\
                    exists vm, vec_at arr m = Some vm /\
                      forall p x, i <= p < j -> vec_at arr p = Some x -> vm <= x)
                 (fun _ : Empty_set => False)
                 _ _ _ (fun k => k) (i + 1) 5) with (lo := i + 1);
          [intros k Hk; apply Z.ltb_lt; lia | reflexivity
          |intros k Hk; apply incr_small; unfold INT_MAX; lia |
          |apply add32_small; unfold in_int, INT_MIN, INT_MAX; lia | lia | lia | ].
        -- intros j m Hj (Hm & vm & Hvm & Hmin).
           apply returns_bind, returns_read; [|lia]. intros a Ha.
           apply returns_bind, returns_read; [|lia]. intros b Hb.
           assert (b = vm) as -> by congruence. cbn.
           destruct (Z.ltb_spec a vm) as [Hlt|Hge].
           ++ split; [lia|]. exists a. split; [exact Ha|].
              intros p x Hp Hx. destruct (Z.eq_dec p j) as [->|].
              ** assert (x = a) by congruence. lia.
              ** specialize (Hmin p x ltac:(lia) Hx). lia.
           ++ split; [lia|]. exists vm. split; [exact Hvm|].
              intros p x Hp Hx. destruct (Z.eq_dec p j) as [->|].
              ** assert (x = a) by congruence. lia.
              ** apply (Hmin p x); [lia|exact Hx].
        -- split; [lia|]. destruct (vec_at_in_bounds arr i ltac:(lia)) as [vi Hvi].
           exists vi. split; [exact Hvi|]. intros p x Hp Hx.
           assert (p = i) as -> by lia. assert (x = vi) by congruence. lia.
      * intros m (Hm & vm & Hvm & Hmin).
        apply returns_bind, returns_read; [|lia]. intros temp Htemp.
        assert (temp = vm) as -> by congruence.
        apply returns_bind, returns_read; [|lia]. intros x Hx.
        rewrite write_in_bounds by lia. cbn [outcome_bind].
        rewrite write_in_bounds by (rewrite vsize_insert; lia). cbn.
        assert (forall q, vec_at (<[Z.to_nat i := vm]> (<[Z.to_nat m := x]> arr)) q
                          = if q =? i then Some vm
                            else if q =? m then Some x else vec_at arr q) as Hlook.
        { intros q. rewrite vec_at_insert by (rewrite vsize_insert; lia).
          rewrite vec_at_insert by lia. reflexivity. }
        split; [rewrite !vsize_insert; exact Hlen|]. split.
        -- rewrite (swap_Permutation arr i m x vm Hx Hvm). exact Hperm.
        -- intros p q y z Hp Hpq. rewrite !Hlook. intros Hy Hz.
           assert (exists q', p <= q' /\ (i <= p -> i <= q') /\ vec_at arr q' = Some z)
             as (q' & Hq' & Hiq' & Hz').
           { destruct (Z.eqb_spec q i) as [->|].
             - injection Hz as <-. exists m. split; [lia|]. split; [lia|exact Hvm].
             - destruct (Z.eqb_spec q m) as [->|].
               + injection Hz as <-. exists i. split; [lia|]. split; [lia|exact Hx].
               + exists q. split; [lia|]. split; [lia|exact Hz]. }
           destruct (Z.eqb_spec p i) as [->|Hpi].
           ++ injection Hy as <-. apply (Hmin q' z); [|exact Hz'].
              pose proof (vec_at_Some _ _ _ Hz'). lia.
           ++ destruct (Z.eqb_spec p m) as [->|]; [lia|].
              apply (Hord p q' y z); [lia|lia|exact Hy|exact Hz'].
    + split; [exact Hn|]. split; [reflexivity|]. intros p q x y Hp. lia.
  - intros [arr|[]]. cbn. intros (Hlen & Hperm & Hord). split; [|exact Hperm].
    apply Sorted_by_index. intros p q x y Hpq Hx Hy.
    destruct (Z.eq_dec p 4) as [->|].
    + pose proof (vec_at_Some _ _ _ Hy). assert (q = 4) as -> by lia.
      assert (x = y) by congruence. lia.
    + pose proof (vec_at_Some _ _ _ Hx). apply (Hord p q x y); [lia|lia|exact Hx|exact Hy].
Qed.

Lemma selection_sort_loop_more_fuel arr f1 f2 r :
  (f1 <= f2)%nat ->
  Student_8_SelectionSort.sort_loop f1 arr = Ret r ->
  Student_8_SelectionSort.sort_loop f2 arr = Ret r.
Proof.
  intros Hf. unfold Student_8_SelectionSort.sort_loop.
  apply fallthrough_more_fuel. intros c.
  apply for_loop_more_fuel; [|exact Hf]. intros i s c'.
  apply bind_more_fuel; [|auto]. intros m.
  apply fallthrough_more_fuel. intros c''.
  apply for_loop_more_fuel; [|exact Hf]. auto.
Qed.

(** X15: the selection-sort loop of Student_8_SelectionSort sorts every
    array of five [int]s, not only the one written in [main]: with fuel for
    six loop tests it returns, with every access inside the array, a
    nondecreasing rearrangement of the array's elements. *)
Theorem selection_sort_sorts (arr0 : list Z) :
  vsize arr0 = Student_8_SelectionSort.n ->
  exists arr,
    (forall fuel, (5 < fuel)%nat -> Student_8_SelectionSort.sort_loop fuel arr0 = Ret arr) /\
    Sorted Z.le arr /\ arr ≡ₚ arr0.
Proof.
  intros Hn.
  pose proof (selection_sort_loop_returns arr0 6 Hn ltac:(lia)) as H.
  apply returns_inv in H as [arr [Hrun Hres]].
  exists arr. split; [|exact Hres].
  intros fuel Hf. revert Hrun. apply selection_sort_loop_more_fuel. lia.
Qed.

Lemma selection_sort_sorts_witness :
  exists arr,
    (forall fuel, (5 < fuel)%nat ->
       Student_8_SelectionSort.sort_loop fuel [3; -1; 3; 7; 0] = Ret arr) /\
    Sorted Z.le arr /\ arr ≡ₚ [3; -1; 3; 7; 0].
Proof.
  apply (selection_sort_sorts [3; -1; 3; 7; 0]). reflexivity.
Defined.

(** The bubble-sort loop, for any content of the five-element array and
    whatever was printed before. *)
Lemma bubble_sort_loop_returns (arr0 : list Z) (out0 : string) (fuel : nat) :
  vsize arr0 = 5 -> (5 < fuel)%nat ->
  returns (Student_3_DebugMode.sort_loop fuel arr0 out0)
          (fun st => Sorted Z.le (fst st) /\ fst st ≡ₚ arr0).
Proof.
  intros Hn Hf. unfold Student_3_DebugMode.sort_loop, Student_3_DebugMode.n.
  change (sub32 5 1) with 4.
  apply returns_fallthrough. eapply returns_weaken.
  - apply (for_loop_count
             (fun i (st : list Z * string) =>
                vsize (fst st) = 5 /\ fst st ≡ₚ arr0 /\
                forall p q x y, 5 - i <= q -> p <= q ->
                  vec_at (fst st) p = Some x -> vec_at (fst st) q = Some y -> x <= y)
             (fun _ : Empty_set => False)
             _ _ _ (fun k => k) 0 4) with (lo := 0);
      [intros k Hk; apply Z.ltb_lt; lia | reflexivity
      |intros k Hk; apply incr_small; unfold INT_MAX; lia | | reflexivity | lia | lia | ].
    + intros i [arr out] Hi (Hlen & Hperm & Hord). cbn [fst] in *.
      assert (sub32 (sub32 5 i) 1 = 4 - i) as Hsub.
      { rewrite (sub32_small 5 i) by (unfold in_int, INT_MIN, INT_MAX; lia).
        rewrite sub32_small by (unfold in_int, INT_MIN, INT_MAX; lia). lia. }
      eapply returns_weaken.
      * apply (for_loop_count
                 (fun j (st : list Z * string) =>
                    vsize (fst st) = 5 /\ fst st ≡ₚ arr0 /\
                    (forall p q x y, 5 - i <= q -> p <= q ->
                       vec_at (fst st) p = Some x -> vec_at (fst st) q = Some y -> x <= y) /\
                    (forall p x y, p <= j ->
                       vec_at (fst st) p = Some x -> vec_at (fst st) j = Some y -> x <= y))
                 (fun _ : Empty_set => False)
                 _ _ _ (fun k => k) 0 (4 - i)) with (lo := 0);
          [intros k Hk; rewrite Hsub; apply Z.ltb_lt; lia
          |rewrite Hsub; apply Z.ltb_irrefl
          |intros k Hk; apply incr_small; unfold INT_MAX; lia |
          |reflexivity | lia | lia | ].
        -- intros j [arr1 out1] Hj (Hlen1 & Hperm1 & Hord1 & Hmax). cbn [fst] in *.
           rewrite (add32_small j 1) by (unfold in_int, INT_MIN, INT_MAX; lia).
           apply returns_bind, returns_read; [|lia]. intros a Ha.
           apply returns_bind, returns_read; [|lia]. intros b Hb.
           rewrite Z.gtb_ltb. destruct (Z.ltb_spec b a) as [Hlt|Hge].
           ++ apply returns_bind, returns_read; [|lia]. intros temp Htemp.
              assert (temp = a) as -> by congruence.
              apply returns_bind, returns_read; [|lia]. intros x Hx.
              assert (x = b) as -> by congruence.
              rewrite write_in_bounds by lia. cbn [outcome_bind].
              rewrite write_in_bounds by (rewrite vsize_insert; lia). cbn.
              assert (forall q, vec_at (<[Z.to_nat (j + 1) := a]> (<[Z.to_nat j := b]> arr1)) q
                                = if q =? j + 1 then Some a
                                  else if q =? j then Some b else vec_at arr1 q) as Hlook.
              { intros q. rewrite vec_at_insert by (rewrite vsize_insert; lia).
                rewrite vec_at_insert by lia. reflexivity. }
              split; [rewrite !vsize_insert; exact Hlen1|]. split; [|split].
              ** rewrite (swap_Permutation arr1 (j + 1) j b a Hb Ha). exact Hperm1.
              ** intros p q y z Hq Hpq. rewrite !Hlook.
                 destruct (Z.eqb_spec q (j + 1)); [lia|].
                 destruct (Z.eqb_spec q j); [lia|]. intros Hy Hz.
                 destruct (Z.eqb_spec p (j + 1)) as [->|].
                 { injection Hy as <-. apply (Hord1 j q a z); [lia|lia|exact Ha|exact Hz]. }
                 destruct (Z.eqb_spec p j) as [->|].
                 { injection Hy as <-. apply (Hord1 (j + 1) q b z); [lia|lia|exact Hb|exact Hz]. }
                 apply (Hord1 p q y z); assumption.
              ** intros p y z Hp. rewrite !Hlook. rewrite Z.eqb_refl.
                 intros Hy Hz. injection Hz as <-.
                 destruct (Z.eqb_spec p (j + 1)) as [->|]; [injection Hy as <-; lia|].
                 destruct (Z.eqb_spec p j) as [->|]; [injection Hy as <-; lia|].
                 apply (Hmax p y a); [lia|exact Hy|exact Ha].
           ++ cbn. split; [exact Hlen1|]. split; [exact Hperm1|]. split; [exact Hord1|].
              intros p y z Hp Hy Hz. assert (z = b) as -> by congruence.
              destruct (Z.eq_dec p (j + 1)) as [->|]; [assert (y = b) by congruence; lia|].
              specialize (Hmax p y a ltac:(lia) Hy Ha). lia.
        -- cbn [fst]. split; [exact Hlen|]. split; [exact Hperm|]. split; [exact Hord|].
           intros p x y Hp Hx Hy. pose proof (vec_at_Some _ _ _ Hx).
           assert (p = 0) as -> by lia. assert (x = y) by congruence. lia.
      * intros [[arr1 out1]|[]]. cbn. intros (Hlen1 & Hperm1 & Hord1 & Hmax).
        split; [exact Hlen1|]. split; [exact Hperm1|].
        intros p q x y Hq Hpq Hx Hy.
        destruct (Z.eq_dec q (4 - i)) as [->|].
        -- apply (Hmax p x y); assumption.
        -- apply (Hord1 p q x y); [lia|lia|exact Hx|exact Hy].
    + cbn [fst]. split; [exact Hn|]. split; [reflexivity|].
      intros p q x y Hq Hpq Hx Hy. pose proof (vec_at_Some _ _ _ Hy). lia.
  - intros [[arr out]|[]]. cbn. intros (Hlen & Hperm & Hord). split; [|exact Hperm].
    apply Sorted_by_index. intros p q x y Hpq Hx Hy.
    destruct (Z.eq_dec q 0) as [->|].
    + assert (p = 0) as -> by lia. assert (x = y) by congruence. lia.
    + apply (Hord p q x y); [lia|lia|exact Hx|exact Hy].
Qed.

Lemma bubble_sort_loop_more_fuel arr out f1 f2 r :
  (f1 <= f2)%nat ->
  Student_3_DebugMode.sort_loop f1 arr out = Ret r ->
  Student_3_DebugMode.sort_loop f2 arr out = Ret r.
Proof.
  intros Hf. unfold Student_3_DebugMode.sort_loop.
  apply fallthrough_more_fuel. intros c.
  apply for_loop_more_fuel; [|exact Hf]. intros i [a o] c'.
  apply for_loop_more_fuel; [|exact Hf]. auto.
Qed.

(** X16: the bubble-sort loop of Student_3_DebugMode sorts every array of
    five [int]s, whatever is printed on the way: with fuel for six loop
    tests it returns, with every access inside the array, a nondecreasing
    rearrangement of the array's elements. *)
Theorem bubble_sort_sorts (arr0 : list Z) (out0 : string) :
  vsize arr0 = Student_3_DebugMode.n ->
  exists arr out,
    (forall fuel, (5 < fuel)%nat ->
       Student_3_DebugMode.sort_loop fuel arr0 out0 = Ret (arr, out)) /\
    Sorted Z.le arr /\ arr ≡ₚ arr0.
Proof.
  intros Hn.
  pose proof (bubble_sort_loop_returns arr0 out0 6 Hn ltac:(lia)) as H.
  apply returns_inv in H as [[arr out] [Hrun Hres]].
  exists arr, out. split; [|exact Hres].
  intros fuel Hf. revert Hrun. apply bubble_sort_loop_more_fuel. lia.
Qed.

Lemma bubble_sort_sorts_witness :
  exists arr out,
    (forall fuel, (5 < fuel)%nat ->
       Student_3_DebugMode.sort_loop fuel [3; -1; 3; 7; 0] EmptyString = Ret (arr, out)) /\
    Sorted Z.le arr /\ arr ≡ₚ [3; -1; 3; 7; 0].
Proof.
  apply (bubble_sort_sorts [3; -1; 3; 7; 0] EmptyString). reflexivity.
Defined.

(* ================================================================== *)
(** * Maximum subarray with [long long] prefix sums *)
(* ================================================================== *)

Import max_subarray_10.

Lemma wrap64_small z :
  -9223372036854775808 <= z < 9223372036854775808 -> wrap64 z = z.
Proof. intros H. unfold wrap64. rewrite Z.mod_small by lia. lia. Qed.

Lemma list_sum_bound l :
  Forall in_int l ->
  - 2147483648 * Z.of_nat (length l) <= list_sum l <= 2147483648 * Z.of_nat (length l).
Proof.
  unfold list_sum. induction 1 as [|x l Hx _ IH]; cbn [foldr length]; [lia|].
  unfold in_int, INT_MIN, INT_MAX in Hx. lia.
Qed.

Lemma prefix_sum_bound nums k :
  Forall in_int nums -> 0 <= k ->
  - 2147483648 * k <= prefix_sum nums k <= 2147483648 * k.
Proof.
  intros Hint Hk. unfold prefix_sum.
  pose proof (list_sum_bound (take (Z.to_nat k) nums) (Forall_take _ _ _ Hint)) as H.
  pose proof (length_take_le nums (Z.to_nat k)) as Hl.
  rewrite length_take in H. lia.
Qed.

(** The two loops of max_subarray_10: the first fills [f] with the prefix
    sums, the second keeps the smallest prefix sum seen and the largest
    difference to it. *)
Lemma maxSubArray_10_returns (x0 : Z) (nums : list Z) (fuel : nat) :
  vsize (x0 :: nums) < INT_MAX -> Forall in_int (x0 :: nums) ->
  (length (x0 :: nums) < fuel)%nat ->
  returns (maxSubArray fuel (x0 :: nums))
          (fun c => exists m, c = Returned (wrap32 m) /\ max_prefix_diff (x0 :: nums) m).
Proof.
  intros Hmax Hint Hf. set (v := x0 :: nums) in *.
  assert (1 <= vsize v) as Hn by (unfold vsize, v; cbn [length]; lia).
  assert (Z.to_nat (vsize v) < fuel)%nat as Hfz by (unfold vsize; lia).
  unfold INT_MAX in Hmax.
  unfold maxSubArray. rewrite (machine_isize_small v) by (unfold INT_MAX; lia).
  rewrite (add32_small (vsize v) 1) by (unfold in_int, INT_MIN, INT_MAX; lia).
  unfold wrap64u. rewrite Z.mod_small by lia.
  destruct (Z.ltb_spec max_size (vsize v + 1)) as [Hbig|_];
    [unfold max_size in Hbig; lia|].
  assert (forall a b, 0 <= a -> a <= vsize v -> 0 <= b -> b <= vsize v ->
            -9223372036854775808 <= prefix_sum v b - prefix_sum v a < 9223372036854775808)
    as Hdiff.
  { intros a b Ha Ha' Hb Hb'.
    pose proof (prefix_sum_bound v a Hint Ha). pose proof (prefix_sum_bound v b Hint Hb). lia. }
  apply returns_bind. eapply returns_weaken.
  - apply returns_fallthrough.
    apply (for_loop_count
             (fun k f => vsize f = vsize v + 1 /\
                forall j, 0 <= j < k -> vec_at f j = Some (prefix_sum v j))
             (fun _ : Empty_set => False)
             _ _ _ (fun k => k) 1 (vsize v + 1)) with (lo := 1);
      [intros k Hk; apply Z.leb_le; lia | apply Z.leb_gt; lia
      |intros k Hk; apply incr_small; unfold INT_MAX; lia | | reflexivity | lia | lia | ].
    + intros k f Hk [Hlen Hpre].
      rewrite (sub32_small k 1) by (unfold in_int, INT_MIN, INT_MAX; lia).
      apply returns_bind, returns_read; [|lia]. intros a Ha.
      rewrite (Hpre (k - 1)) in Ha by lia. injection Ha as <-.
      apply returns_bind, returns_read; [|lia]. intros x Hx.
      pose proof (prefix_sum_succ v (k - 1) x Hx) as HP.
      replace (k - 1 + 1) with k in HP by lia. rewrite <- HP.
      rewrite wrap64_small
        by (pose proof (Hdiff 0 k ltac:(lia) ltac:(lia) ltac:(lia) ltac:(lia)) as Hb;
            rewrite prefix_sum_0 in Hb; lia).
      rewrite write_in_bounds by lia. cbn.
      split; [rewrite vsize_insert; exact Hlen|].
      intros j Hj. rewrite vec_at_insert by lia.
      destruct (Z.eqb_spec j k) as [->|]; [reflexivity|]. apply Hpre. lia.
    + split; [unfold vsize; rewrite length_replicate; unfold vsize; lia|].
      intros j Hj. assert (j = 0) as -> by lia. rewrite prefix_sum_0.
      apply vec_at_replicate. unfold vsize. lia.
  - intros f [Hlen Hpre]. apply returns_bind. eapply returns_weaken.
    + apply returns_fallthrough.
      apply (for_loop_count
               (fun k (st : Z * Z) =>
                  (exists a, 0 <= a < k /\ snd st = prefix_sum v a) /\
                  (forall a, 0 <= a < k -> snd st <= prefix_sum v a) /\
                  ((k = 1 /\ fst st = -1000000000000000000) \/
                   (1 < k /\
                    (exists a b, 0 <= a < b /\ b < k /\
                                 fst st = prefix_sum v b - prefix_sum v a) /\
                    (forall a b, 0 <= a < b -> b < k ->
                                 prefix_sum v b - prefix_sum v a <= fst st))))
               (fun _ : Empty_set => False)
               _ _ _ (fun k => k) 1 (vsize v + 1)) with (lo := 1);
        [intros k Hk; apply Z.leb_le; lia | apply Z.leb_gt; lia
        |intros k Hk; apply incr_small; unfold INT_MAX; lia | | reflexivity | lia | lia | ].
      * intros k [ans ml] Hk ((a0 & Ha0 & Hml) & Hmin & Hans). cbn [fst snd] in *.
        apply returns_bind, returns_read; [|lia]. intros fi Hfi.
        rewrite (Hpre k) in Hfi by lia. injection Hfi as <-.
        apply returns_bind, returns_read; [|lia]. intros fi Hfi.
        rewrite (Hpre k) in Hfi by lia. injection Hfi as <-. cbn.
        subst ml. rewrite wrap64_small by (apply Hdiff; lia).
        split; [|split].
        -- destruct (Z.le_gt_cases (prefix_sum v a0) (prefix_sum v k)).
           ++ exists a0. rewrite Z.min_l by lia. split; [lia|reflexivity].
           ++ exists k. rewrite Z.min_r by lia. split; [lia|reflexivity].
        -- intros a Ha. destruct (Z.eq_dec a k) as [->|]; [lia|].
           specialize (Hmin a ltac:(lia)). lia.
        -- right. split; [lia|].
           destruct Hans as [[-> ->]|(Hk1 & (a & b & Hab & Hb & Hach) & Hbest)].
           ++ assert (a0 = 0) as -> by lia.
              pose proof (prefix_sum_bound v 1 Hint ltac:(lia)) as Hlow.
              rewrite prefix_sum_0 in *.
              rewrite Z.max_r by lia. split.
              ** exists 0, 1. rewrite prefix_sum_0. lia.
              ** intros a b Hab Hb. assert (b = 1) as -> by lia.
                 specialize (Hmin a ltac:(lia)). lia.
           ++ split.
              ** destruct (Z.le_gt_cases (prefix_sum v k - prefix_sum v a0) ans).
                 --- rewrite Z.max_l by lia. exists a, b. lia.
                 --- rewrite Z.max_r by lia. exists a0, k. lia.
              ** intros a' b' Hab' Hb'. destruct (Z.eq_dec b' k) as [->|].
                 --- specialize (Hmin a' ltac:(lia)). lia.
                 --- specialize (Hbest a' b' ltac:(lia) ltac:(lia)). lia.
      * cbn [fst snd]. split; [exists 0; rewrite prefix_sum_0; lia|]. split.
        -- intros a Ha. assert (a = 0) as -> by lia. rewrite prefix_sum_0. lia.
        -- left. auto.
    + intros [ans ml] (_ & _ & Hans). cbn [fst] in *.
      destruct Hans as [[Hk _]|(_ & (a & b & Hab & Hb & Hach) & Hbest)]; [lia|].
      exists ans. split; [reflexivity|]. split.
      * exists a, b. split; [lia|]. split; [lia|exact Hach].
      * intros a' b' Hab' Hb'. apply Hbest; lia.
Qed.

Lemma maxSubArray_10_more_fuel nums f1 f2 r :
  (f1 <= f2)%nat -> maxSubArray f1 nums = Ret r -> maxSubArray f2 nums = Ret r.
Proof.
  intros Hf. unfold maxSubArray.
  destruct (max_size <? _); [auto|].
  apply bind_more_fuel.
  - intros f. apply fallthrough_more_fuel. intros c.
    apply for_loop_more_fuel; [|exact Hf]. auto.
  - intros f. apply bind_more_fuel; [|auto].
    intros st. apply fallthrough_more_fuel. intros c.
    apply for_loop_more_fuel; [|exact Hf]. auto.
Qed.

(** X17: max_subarray_10 keeps its sums in [long long] and cannot overflow
    on the way.  On a vector of [int]s with fewer than [INT_MAX] elements it
    returns within [size + 1] tests of each loop, every access to [f] and
    [nums] in bounds: for a non-empty vector the largest subarray sum
    converted to [int] (the sum itself when it fits), for the empty vector
    what -1e18 converts to, 1486618624. *)
Theorem prefix_sums_search_correct (nums : list Z) :
  vsize nums < INT_MAX -> Forall in_int nums ->
  exists r,
    (forall fuel, (length nums < fuel)%nat -> maxSubArray fuel nums = Ret (Returned r)) /\
    (nums = [] -> r = 1486618624) /\
    (nums <> [] -> exists m, is_max_subarray_sum nums m /\ r = wrap32 m /\
                             (in_int m -> r = m)).
Proof.
  intros Hn Hint. destruct nums as [|x0 nums].
  - exists 1486618624. split; [|split; [reflexivity|congruence]].
    intros [|fuel] Hf; [cbn in Hf; lia|reflexivity].
  - pose proof (maxSubArray_10_returns x0 nums _ Hn Hint (Nat.lt_succ_diag_r _)) as H.
    apply returns_inv in H as [c [Hrun (m & -> & Hm)]].
    exists (wrap32 m). split; [|split; [discriminate|]].
    + intros fuel Hf. revert Hrun. apply maxSubArray_10_more_fuel. lia.
    + intros _. exists m. split; [exact (max_prefix_diff_subarray _ _ Hm)|].
      split; [reflexivity|apply wrap32_small].
Qed.

Lemma prefix_sums_search_correct_witness :
  exists r,
    (forall fuel, (length sample_vector < fuel)%nat ->
       maxSubArray fuel sample_vector = Ret (Returned r)) /\
    (sample_vector = [] -> r = 1486618624) /\
    (sample_vector <> [] -> exists m, is_max_subarray_sum sample_vector m /\ r = wrap32 m /\
                                      (in_int m -> r = m)).
Proof.
  apply (prefix_sums_search_correct sample_vector).
  - vm_compute. reflexivity.
  - unfold sample_vector, in_int, INT_MIN, INT_MAX. repeat constructor; lia.
Defined.

Lemma wrap32_high z :
  2147483648 <= z < 6442450944 -> wrap32 z = z - 4294967296.
Proof.
  intros H. unfold wrap32.
  replace (z + 2147483648) with (z - 2147483648 + 1 * 4294967296) by lia.
  rewrite Z_mod_plus_full, Z.mod_small by lia. lia.
Qed.

(** X18: from [INT_MAX] elements on, max_subarray_10 does not get as far
    as its loops.  For [INT_MAX <= size < 2^32 - 1] the count [n + 1] of the
    vector [f] is a negative [int], the constructor is asked for at least
    2^64 - 2^31 elements and throws [std::length_error]. *)
Theorem prefix_sums_search_length_error (nums : list Z) (fuel : nat) :
  INT_MAX <= vsize nums < 4294967295 ->
  maxSubArray fuel nums = Ret LengthError.
Proof.
  intros Hn. unfold INT_MAX in Hn. unfold maxSubArray, isize.
  cbn [to_int to_size_t machine]. unfold wrap64u at 2.
  rewrite (Z.mod_small (vsize nums)) by lia.
  assert (-2147483648 <= add32 (wrap32 (vsize nums)) 1 < 0) as Hneg.
  { destruct (Z.eq_dec (vsize nums) 2147483647) as [->|Hne]; [vm_compute; split; congruence|].
    rewrite wrap32_high by lia.
    rewrite add32_small by (unfold in_int, INT_MIN, INT_MAX; lia). lia. }
  set (c := add32 (wrap32 (vsize nums)) 1) in *.
  assert (wrap64u c = c + 18446744073709551616) as ->.
  { unfold wrap64u.
    replace c with (c + 18446744073709551616 + (-1) * 18446744073709551616) at 1 by lia.
    rewrite Z_mod_plus_full, Z.mod_small by lia. reflexivity. }
  destruct (Z.ltb_spec max_size (c + 18446744073709551616)) as [_|Hle]; [reflexivity|].
  unfold max_size in Hle. lia.
Qed.

Lemma prefix_sums_search_length_error_witness :
  maxSubArray 1 (zeros 2147483647) = Ret LengthError.
Proof.
  apply (prefix_sums_search_length_error (zeros 2147483647) 1).
  rewrite vsize_zeros by lia. unfold INT_MAX. lia.
Defined.

(* ================================================================== *)
(** * Matrix multiplication *)
(* ================================================================== *)

Lemma wrap32_add_r a b : wrap32 (a + wrap32 b) = wrap32 (a + b).
Proof. rewrite Z.add_comm, wrap32_add_l, Z.add_comm. reflexivity. Qed.

Lemma dot2_32 a b c d :
  add32 (add32 0 (mul32 a b)) (mul32 c d) = wrap32 (a * b + c * d).
Proof.
  unfold add32, mul32. rewrite Z.add_0_l, wrap32_idem, wrap32_add_l, wrap32_add_r.
  reflexivity.
Qed.

(** The three loops, run on matrices with unknown entries. *)
Lemma multiply_runs (a11 a12 a21 a22 b11 b12 b21 b22 r11 r12 r21 r22 : Z) (k : nat) :
  Student_10_Matrix.multiply (3 + k) [[a11; a12]; [a21; a22]] [[b11; b12]; [b21; b22]]
                             [[r11; r12]; [r21; r22]]
  = Ret [[add32 (add32 0 (mul32 a11 b11)) (mul32 a12 b21);
          add32 (add32 0 (mul32 a11 b12)) (mul32 a12 b22)];
         [add32 (add32 0 (mul32 a21 b11)) (mul32 a22 b21);
          add32 (add32 0 (mul32 a21 b12)) (mul32 a22 b22)]].
Proof.
  unfold Student_10_Matrix.multiply.
  generalize add32 mul32. intros add mul. vm_compute. reflexivity.
Qed.

(** X19: the loops of Student_10_Matrix multiply any two 2x2 matrices of
    [int]s: with fuel for three loop tests they leave in [res] the matrix
    product with every entry reduced to [int], whatever [res] held before,
    so that no value of the uninitialised array reaches the result; [main]
    therefore prints the product of its two matrices. *)
Theorem matrix_product (a11 a12 a21 a22 b11 b12 b21 b22 r11 r12 r21 r22 : Z) (k : nat) :
  Student_10_Matrix.multiply (3 + k) [[a11; a12]; [a21; a22]] [[b11; b12]; [b21; b22]]
                             [[r11; r12]; [r21; r22]]
  = Ret [[wrap32 (a11 * b11 + a12 * b21); wrap32 (a11 * b12 + a12 * b22)];
         [wrap32 (a21 * b11 + a22 * b21); wrap32 (a21 * b12 + a22 * b22)]] /\
  Student_10_Matrix.main (3 + k) [[r11; r12]; [r21; r22]]
  = Ret ([[19; 22]; [43; 50]],
         print_line EmptyString "Output Matrix: " +:+ "19 22 43 50 ", 0).
Proof.
  split.
  - rewrite multiply_runs, !dot2_32. reflexivity.
  - unfold Student_10_Matrix.main, Student_10_Matrix.m1, Student_10_Matrix.m2.
    rewrite multiply_runs. vm_compute. reflexivity.
Qed.

(* ================================================================== *)
(** * The five shuffled files, as they are written *)
(* ================================================================== *)

Lemma rejected_run_func f :
  rejected f = true -> forall fuel v t, run_func fuel f v t = Fault IllFormed.
Proof.
  unfold rejected, run_func, run. intros H fuel v t.
  destruct (parse (f_body f)) as [ss|]; [|reflexivity].
  destruct (scoped _ ss); [discriminate|reflexivity].
Qed.

(** X20: each of the five shuffled files of dsa_dataset/binary_search has,
    line for line, the lines of [solveoom] in another order, up to the names
    of the two parameters; and none of them is a function as it is written:
    its lines do not nest into statements, or [left], [right] or [mid] is
    used outside the scope of its declaration, so that on every input it is
    rejected before anything runs. *)
Theorem shuffled_files_are_rejected (f : func) (text : string)
    (m : list (string * string)) :
  (f, text, m) ∈ shuffled_lines ->
  func_line_tokens f = text_line_tokens text /\
  Permutation (rename_line m <$> f_body f) (f_body solveoom_lines) /\
  forall fuel v t, run_func fuel f v t = Fault IllFormed.
Proof.
  intros Hin.
  assert (Forall (fun p : func * string * list (string * string) =>
                    func_line_tokens p.1.1 = text_line_tokens p.1.2 /\
                    Permutation (rename_line p.2 <$> f_body p.1.1) (f_body solveoom_lines) /\
                    rejected p.1.1 = true) shuffled_lines) as Hall.
  { unfold shuffled_lines.
    repeat (constructor; [split; [vm_compute; reflexivity|];
                          split; [vm_compute; solve_Permutation|vm_compute; reflexivity]|]).
    constructor. }
  rewrite Forall_forall in Hall. destruct (Hall _ Hin) as (Htext & Hperm & Hrej).
  cbn [fst snd] in *. split; [exact Htext|]. split; [exact Hperm|].
  apply rejected_run_func. exact Hrej.
Qed.

Lemma shuffled_files_are_rejected_witness :
  func_line_tokens solveu_clonefh_lines
  = text_line_tokens binary_search_student030_clone1_cpp /\
  Permutation (rename_line [("numbersa", "numbers"); ("thresholda", "threshold")]%string
                 <$> f_body solveu_clonefh_lines)
              (f_body solveoom_lines) /\
  forall fuel v t, run_func fuel solveu_clonefh_lines v t = Fault IllFormed.
Proof.
  apply (shuffled_files_are_rejected solveu_clonefh_lines
           binary_search_student030_clone1_cpp
           [("numbersa", "numbers"); ("thresholda", "threshold")]%string).
  unfold shuffled_lines. do 2 apply list_elem_of_further. apply list_elem_of_here.
Defined.

(* ================================================================== *)
(** * The printing loop *)
(* ================================================================== *)

(** The loop [for (int i = 0; i < n; i++) cout << arr[i] << " ";] as far as
    the array goes. *)
Lemma print_array_upto (arr : list Z) (out : string) (n m : Z) (fuel : nat) :
  0 <= m <= n -> m <= vsize arr -> m <= INT_MAX -> (m = n \/ m = vsize arr) ->
  (Z.to_nat m < fuel)%nat ->
  for_loop fuel (fun i => i <? n) incr
    (fun i out => let* x := read arr i in
                  Ret (Continue (R:=Empty_set) (print_elem out x))) 0 out
  = (if m <? n then Fault (OutOfBounds m)
     else Ret (Continue (fold_left print_elem (take (Z.to_nat m) arr) out))).
Proof.
  intros Hm Hsize Hmax Hend Hf.
  assert (forall k fuel out, 0 <= k <= m -> (Z.to_nat (m - k) < fuel)%nat ->
            for_loop fuel (fun i => i <? n) incr
              (fun i out => let* x := read arr i in
                            Ret (Continue (R:=Empty_set) (print_elem out x))) k out
            = (if m <? n then Fault (OutOfBounds m)
               else Ret (Continue (fold_left print_elem
                                     (take (Z.to_nat (m - k)) (drop (Z.to_nat k) arr)) out))))
    as Hgen.
  { clear fuel out Hf. intros k fuel. revert k.
    induction fuel as [|fuel IH]; intros k out Hk Hf; [lia|].
    cbn [for_loop]. destruct (Z.eq_dec k m) as [->|Hne].
    - destruct (Z.ltb_spec m n) as [Hlt|Hge].
      + assert (m = vsize arr) as Hm' by lia.
        unfold read, vec_at. destruct (Z.leb_spec 0 m); [|lia].
        rewrite lookup_ge_None_2 by (unfold vsize in Hm'; lia). reflexivity.
      + replace (m - m) with 0 by lia. reflexivity.
    - destruct (Z.ltb_spec k n) as [_|Hge]; [|lia].
      destruct (vec_at_in_bounds arr k ltac:(lia)) as [x Hx].
      unfold read at 1. rewrite Hx. cbn [outcome_bind].
      rewrite incr_small by (unfold INT_MAX in *; lia).
      rewrite IH by lia. destruct (m <? n); [reflexivity|]. do 2 f_equal.
      unfold vec_at in Hx. destruct (Z.leb_spec 0 k); [|lia].
      replace (Z.to_nat (m - k)) with (S (Z.to_nat (m - (k + 1)))) by lia.
      rewrite (drop_S _ _ _ Hx). cbn [take fold_left].
      replace (Z.to_nat (k + 1)) with (S (Z.to_nat k)) by lia. reflexivity. }
  rewrite (Hgen 0 fuel out) by lia.
  replace (m - 0) with m by lia. reflexivity.
Qed.

(** X21: the printing loop of the two sorting programs, on any array and
    any bound [n] that an [int] holds: when the array has at least [n]
    elements it prints the first [n] in order, each followed by one blank,
    and reads nothing else; when it has fewer it prints nothing more than
    the array and faults reading the element just past the end. *)
Theorem print_array_prints (arr : list Z) (out : string) (n : Z) (fuel : nat) :
  0 <= n <= INT_MAX -> (Z.to_nat n < fuel)%nat ->
  print_array fuel n arr out
  = (if n <=? vsize arr
     then Ret (fold_left print_elem (take (Z.to_nat n) arr) out)
     else Fault (OutOfBounds (vsize arr))).
Proof.
  intros Hn Hf. unfold print_array.
  destruct (Z.leb_spec n (vsize arr)) as [Hle|Hgt].
  - rewrite (print_array_upto arr out n n) by lia.
    rewrite Z.ltb_irrefl. reflexivity.
  - rewrite (print_array_upto arr out n (vsize arr)) by (unfold vsize in *; lia).
    destruct (Z.ltb_spec (vsize arr) n); [reflexivity|lia].
Qed.

Lemma print_array_prints_witness :
  print_array 6 5 [12; 22; 25; 34; 64] EmptyString
  = (if 5 <=? vsize [12; 22; 25; 34; 64]
     then Ret (fold_left print_elem (take (Z.to_nat 5) [12; 22; 25; 34; 64]) EmptyString)
     else Fault (OutOfBounds (vsize [12; 22; 25; 34; 64]))).
Proof.
  apply (print_array_prints [12; 22; 25; 34; 64] EmptyString 5 6).
  - unfold INT_MAX. lia.
  - simpl. lia.
Defined.
